(** * karabo_data.reader2: the file index and query engine

    A shallow embedding of [karabo_data/reader2.py] (class [DataCollection],
    class [TrainIterator], and [_tid_to_slice_ix]) together with the
    properties of the index, the selection engine, the train range resolver,
    data assembly and train iteration.

    Conventions of the embedding:
    - a Python exception is a value of [error]; a call that may raise
      returns a [result];
    - a Python [set] is a duplicate-free list (one admissible iteration
      order), a [dict] is an association list in insertion order;
    - a method that writes to [self] returns the receiver's new state next
      to its value;
    - an open HDF5 file is a read-only record of what the code reads from it,
      [fid] telling apart two files of the same content. *)

From Stdlib Require Import List ZArith Lia Bool String Ascii Arith.
From Stdlib Require Import Sorting.Sorted Sorting.Permutation.
Import ListNotations.
Open Scope string_scope.
Open Scope Z_scope.
Open Scope list_scope.

(** ** Exceptions and results *)

Inductive error : Type :=
| ValueError_unknown_category     (* "Unknown data category %r" *)
| ValueError_source_not_in_run    (* "Source {} not in this run" *)
| ValueError_no_matches           (* "No matches for pattern {}" *)
| ValueError_more_than_one        (* "... more than one data point per train" *)
| ValueError_before_run           (* "Train ID {} is before this run ..." *)
| ValueError_after_run            (* "Train ID {} is after this run ..." *)
| ValueError_unpack               (* tuple unpacking of a wrong-sized value *)
| ValueError_slice_step           (* "slice step cannot be zero" *)
| ValueError_negative_repeat      (* numpy.repeat with a negative count *)
| ValueError_shape                (* xarray / pandas / numpy shape mismatch *)
| ValueError_no_objects           (* pandas: "No objects to concatenate" *)
| ValueError_ambiguous_truth      (* truth value of a numpy array *)
| Exception_unable_to_get_data    (* "Unable to get data for source ..." *)
| SourceNameError
| PropertyNameError
| KeyError
| IndexError
| TypeError
| AssertionError
| Exception_unknown_source_category
| ReError.                        (* re.error when compiling a pattern *)

Inductive result (A : Type) : Type :=
| Ok (a : A)
| Err (e : error).
Arguments Ok {A} a.
Arguments Err {A} e.

Definition bind {A B} (r : result A) (k : A -> result B) : result B :=
  match r with
  | Ok a => k a
  | Err e => Err e
  end.

Notation "x <- c ;; k" := (bind c (fun x => k))
  (at level 61, c at next level, right associativity).
Notation "' p <- c ;; k" := (bind c (fun x => match x with p => k end))
  (at level 61, p pattern, c at next level, right associativity).

Definition is_ok {A} (r : result A) : bool :=
  match r with Ok _ => true | Err _ => false end.

(** ** Strings *)

(** [str.partition(sep)] for a one-character separator: the part before the
    first separator, whether it was found, and the part after it. *)
Fixpoint partition (sep : ascii) (s : string) : string * bool * string :=
  match s with
  | EmptyString => (EmptyString, false, EmptyString)
  | String c r =>
      if Ascii.eqb c sep then (EmptyString, true, r)
      else let '(a, found, t) := partition sep r in (String c a, found, t)
  end.

Definition partition_head (sep : ascii) (s : string) : string :=
  fst (fst (partition sep s)).

Definition partition_tail (sep : ascii) (s : string) : string :=
  snd (partition sep s).

(** [str.replace(a, b)] for single characters. *)
Fixpoint replace_char (a b : ascii) (s : string) : string :=
  match s with
  | EmptyString => EmptyString
  | String c r => String (if Ascii.eqb c a then b else c) (replace_char a b r)
  end.

(** [s.endswith(suffix)]. *)
Definition endswith (s suffix : string) : bool :=
  let n := String.length s in
  let m := String.length suffix in
  (m <=? n)%nat && String.eqb (substring (n - m) m s) suffix.

Definition str_in (s : string) (l : list string) : bool :=
  existsb (String.eqb s) l.

(** ** Sets and dictionaries *)

Definition set_add (s : string) (l : list string) : list string :=
  if str_in s l then l else l ++ [s].

Definition set_union (a b : list string) : list string :=
  fold_left (fun acc s => set_add s acc) b a.

Definition set_inter (a b : list string) : list string :=
  filter (fun s => str_in s b) a.

Section Dict.
Context {V : Type}.

Fixpoint dict_get (k : string) (d : list (string * V)) : option V :=
  match d with
  | [] => None
  | (k', v) :: r => if String.eqb k k' then Some v else dict_get k r
  end.

Fixpoint dict_set (k : string) (v : V) (d : list (string * V))
  : list (string * V) :=
  match d with
  | [] => [(k, v)]
  | (k', v') :: r =>
      if String.eqb k k' then (k, v) :: r else (k', v') :: dict_set k v r
  end.

Definition dict_mem (k : string) (d : list (string * V)) : bool :=
  match dict_get k d with Some _ => true | None => false end.

(** [d[k]], raising [KeyError] when the key is absent. *)
Definition dict_item (k : string) (d : list (string * V)) : result V :=
  match dict_get k d with Some v => Ok v | None => Err KeyError end.
End Dict.

(** [sorted(set(l))] on integers: the strictly increasing list of the
    distinct elements of [l]. *)
Fixpoint insert_uniq (x : Z) (l : list Z) : list Z :=
  match l with
  | [] => [x]
  | y :: r =>
      if x <? y then x :: y :: r
      else if x =? y then y :: r
      else y :: insert_uniq x r
  end.

Definition sorted_set (l : list Z) : list Z :=
  fold_right insert_uniq [] l.

Definition Z_in (x : Z) (l : list Z) : bool := existsb (Z.eqb x) l.

(** ** Files

    What the code reads from an open HDF5 file.  Paths are the strings the
    code builds; every dataset has at least one axis. *)

(** A dataset: its rows along the first axis and the shape of the
    remaining axes.  A row is its flattened content. *)
Record Dataset : Type := {
  ds_tail : list nat;          (* shape[1:] *)
  ds_rows : list (list Z)
}.

(** The group [/INDEX/<source>/<group>]. *)
Record IndexGroup : Type := {
  ix_first : list Z;
  ix_count : option (list Z);   (* absent in older files *)
  ix_last : option (list Z);
  ix_status : option (list Z)
}.

Record File : Type := {
  fid : nat;
  f_trainId : list Z;                        (* INDEX/trainId *)
  f_dataSourceId : list string;              (* METADATA/dataSourceId *)
  f_index : list (string * IndexGroup);      (* "/INDEX/<source>/<group>" *)
  f_groups : list (string * list string);    (* datasets below a group path,
                                                as slash-separated names *)
  f_data : list (string * Dataset)           (* dataset at a path *)
}.

(** Two handles are the same file when they agree on everything the code
    can read from them, their identity included. *)
Definition Dataset_eq_dec (a b : Dataset) : {a = b} + {a <> b}.
Proof.
  decide equality; repeat (apply list_eq_dec; intros);
    first [apply Z.eq_dec | apply Nat.eq_dec].
Defined.

Definition IndexGroup_eq_dec (a b : IndexGroup) : {a = b} + {a <> b}.
Proof.
  decide equality;
    repeat first [apply list_eq_dec; intros | apply Z.eq_dec
                 | decide equality].
Defined.

Definition File_eq_dec (a b : File) : {a = b} + {a <> b}.
Proof.
  decide equality;
    repeat first [apply list_eq_dec; intros | apply Z.eq_dec
                 | apply Nat.eq_dec | apply string_dec
                 | apply Dataset_eq_dec | apply IndexGroup_eq_dec
                 | decide equality].
Defined.

Definition Segment : Type := (list Z * File)%type.

(** A value stored in [_source_keys]: a set of keys, or (after
    [select_trains]) a plain string. *)
Inductive keyval : Type :=
| KSet (keys : list string)
| KStr (s : string).

Definition CacheKey : Type := (File * string * string)%type.

Record DataCollection : Type := {
  instrument_sources : list string;
  control_sources : list string;
  train_ids : list Z;
  _source_file_mapping : list (string * list Segment);
  _index_cache : list (CacheKey * (list Z * list Z));
  _source_keys : list (string * keyval)
}.

(** [DataCollection.__init__] *)
Definition new_collection : DataCollection := {|
  instrument_sources := [];
  control_sources := [];
  train_ids := [];
  _source_file_mapping := [];
  _index_cache := [];
  _source_keys := []
|}.

Definition all_sources (dc : DataCollection) : list string :=
  set_union (instrument_sources dc) (control_sources dc).

(** ** add_file *)

(** State of the loop over [METADATA/dataSourceId]. *)
Record add_state : Type := {
  as_instrument : list string;
  as_control : list string;
  as_sources : list string
}.

Definition add_source (st : add_state) (source : string) : result add_state :=
  if String.eqb source "" then Ok st
  else
    let '(category, _, h5_source) := partition "/" source in
    if String.eqb category "INSTRUMENT" then
      let '(device, _, chan_grp) := partition ":" h5_source in
      let '(chan, _, group) := partition "/" chan_grp in
      let source := (device ++ ":" ++ chan)%string in
      Ok {| as_instrument := set_add source (as_instrument st);
            as_control := as_control st;
            as_sources := set_add source (as_sources st) |}
    else if String.eqb category "CONTROL" then
      Ok {| as_instrument := as_instrument st;
            as_control := set_add h5_source (as_control st);
            as_sources := set_add h5_source (as_sources st) |}
    else Err ValueError_unknown_category.

Fixpoint add_sources (st : add_state) (l : list string) : result add_state :=
  match l with
  | [] => Ok st
  | s :: r => st' <- add_source st s ;; add_sources st' r
  end.

Definition register_segment (seg : Segment)
    (sfm : list (string * list Segment)) (source : string)
  : list (string * list Segment) :=
  match dict_get source sfm with
  | None => dict_set source [seg] sfm
  | Some segs => dict_set source (segs ++ [seg]) sfm
  end.

Definition file_train_ids (f : File) : list Z :=
  filter (fun t => negb (t =? 0)) (f_trainId f).

Definition add_file (dc : DataCollection) (f : File) : result DataCollection :=
  let tids := file_train_ids f in
  st <- add_sources {| as_instrument := instrument_sources dc;
                       as_control := control_sources dc;
                       as_sources := [] |} (f_dataSourceId f) ;;
  Ok {| instrument_sources := as_instrument st;
        control_sources := as_control st;
        train_ids := sorted_set (train_ids dc ++ tids);
        _source_file_mapping :=
          fold_left (register_segment (tids, f)) (as_sources st)
                    (_source_file_mapping dc);
        _index_cache := _index_cache dc;
        _source_keys := _source_keys dc |}.

(** [H5File] and [RunDirectory] *)
Definition H5File (f : File) : result DataCollection :=
  add_file new_collection f.

Fixpoint add_files (dc : DataCollection) (fs : list File)
  : result DataCollection :=
  match fs with
  | [] => Ok dc
  | f :: r => dc' <- add_file dc f ;; add_files dc' r
  end.

Definition RunDirectory (fs : list File) : result DataCollection :=
  add_files new_collection fs.

(** ** Keys of a source *)

Definition dedup_strings (l : list string) : list string :=
  fold_left (fun acc s => set_add s acc) l [].

(** The datasets below [group] in [f], with [/] replaced by [.]
    ([visititems] with [add_key]). *)
Definition file_keys (f : File) (group : string) : result (list string) :=
  names <- dict_item group (f_groups f) ;;
  Ok (dedup_strings (map (replace_char "/" ".") names)).

(** [_keys_for_source]: the Python value returned ([None] when the source
    has no segment) and the receiver, whose [_source_keys] may have been
    filled in. *)
Definition _keys_for_source (dc : DataCollection) (source : string)
  : result (option keyval * DataCollection) :=
  if negb (str_in source (all_sources dc)) then Err SourceNameError
  else
    match dict_get source (_source_keys dc) with
    | Some kv => Ok (Some kv, dc)
    | None =>
        let group :=
          if str_in source (control_sources dc)
          then ("/CONTROL/" ++ source)%string
          else ("/INSTRUMENT/" ++ source)%string in
        segs <- dict_item source (_source_file_mapping dc) ;;
        match segs with
        | [] => Ok (None, dc)
        | (_, f) :: _ =>
            res <- file_keys f group ;;
            Ok (Some (KSet res),
                {| instrument_sources := instrument_sources dc;
                   control_sources := control_sources dc;
                   train_ids := train_ids dc;
                   _source_file_mapping := _source_file_mapping dc;
                   _index_cache := _index_cache dc;
                   _source_keys :=
                     dict_set source (KSet res) (_source_keys dc) |})
        end
    end.

Fixpoint chars_of (s : string) : list string :=
  match s with
  | EmptyString => []
  | String c r => String c EmptyString :: chars_of r
  end.

(** Iterating over the value of [_keys_for_source]. *)
Definition keys_iter (v : option keyval) : result (list string) :=
  match v with
  | None => Err TypeError
  | Some (KSet keys) => Ok keys
  | Some (KStr s) => Ok (chars_of s)
  end.

(** [key in <value of _keys_for_source>]. *)
Definition keys_contains (key : string) (v : option keyval) : result bool :=
  match v with
  | None => Err TypeError
  | Some (KSet keys) => Ok (str_in key keys)
  | Some (KStr s) =>
      Ok (match String.index 0 key s with Some _ => true | None => false end)
  end.

(** ** Glob patterns ([fnmatch.translate]) and their matching ([re]) *)

(** The items [fnmatch.translate] produces for a glob. *)
Inductive pat_item : Type :=
| PStar                      (* [*]  becomes [.*] *)
| PAny                       (* [?]  becomes [.]  *)
| PLit (c : ascii)           (* an escaped literal character *)
| PClass (stuff : string).   (* [[stuff]] *)

(** Position of the first [']'] at or after position [skip] of [s]. *)
Fixpoint find_close (s : string) (skip : nat) : option nat :=
  match s with
  | EmptyString => None
  | String c r =>
      match skip with
      | S k => option_map S (find_close r k)
      | O => if Ascii.eqb c "]" then Some O
             else option_map S (find_close r O)
      end
  end.

Definition char_at (s : string) (n : nat) : option ascii := String.get n s.

Definition is_char (o : option ascii) (c : ascii) : bool :=
  match o with Some d => Ascii.eqb d c | None => false end.

Fixpoint double_backslashes (s : string) : string :=
  match s with
  | EmptyString => EmptyString
  | String c r =>
      if Ascii.eqb c "\" then String c (String c (double_backslashes r))
      else String c (double_backslashes r)
  end.

Definition class_stuff (raw : string) : string :=
  let stuff := double_backslashes raw in
  match stuff with
  | String c r =>
      if Ascii.eqb c "!" then String "^" r
      else if Ascii.eqb c "^" then String "\" stuff
      else stuff
  | EmptyString => stuff
  end.

Fixpoint translate_aux (fuel : nat) (pat : string) : list pat_item :=
  match fuel with
  | O => []
  | S fuel' =>
      match pat with
      | EmptyString => []
      | String c rest =>
          if Ascii.eqb c "*" then PStar :: translate_aux fuel' rest
          else if Ascii.eqb c "?" then PAny :: translate_aux fuel' rest
          else if Ascii.eqb c "[" then
            let j0 := if is_char (char_at rest 0) "!" then 1%nat else 0%nat in
            let j1 := if is_char (char_at rest j0) "]" then S j0 else j0 in
            match find_close rest j1 with
            | None => PLit "[" :: translate_aux fuel' rest
            | Some j =>
                PClass (class_stuff (substring 0 j rest))
                  :: translate_aux fuel'
                       (substring (S j) (String.length rest - S j) rest)
            end
          else PLit c :: translate_aux fuel' rest
      end
  end.

Definition translate (pat : string) : list pat_item :=
  translate_aux (String.length pat) pat.

(** A compiled pattern; the final [\Z] is implicit. *)
Inductive re_item : Type :=
| ReStar
| ReAny
| ReLit (c : ascii)
| ReClass (p : ascii -> bool)
| ReOpt (lit : string).      (* [(lit)?] *)

Fixpoint strip_prefix (p s : string) : option string :=
  match p, s with
  | EmptyString, _ => Some s
  | String a p', String b s' =>
      if Ascii.eqb a b then strip_prefix p' s' else None
  | String _ _, EmptyString => None
  end.

(** [r.match(s)] for a pattern ending in [\Z]: the whole of [s] matches. *)
Fixpoint re_match (r : list re_item) (s : string) : bool :=
  match r with
  | [] => String.eqb s ""
  | ReStar :: r' =>
      (fix star (s : string) : bool :=
         re_match r' s ||
         match s with
         | EmptyString => false
         | String _ t => star t
         end) s
  | ReAny :: r' =>
      match s with
      | String _ t => re_match r' t
      | EmptyString => false
      end
  | ReLit c :: r' =>
      match s with
      | String d t => Ascii.eqb c d && re_match r' t
      | EmptyString => false
      end
  | ReClass p :: r' =>
      match s with
      | String d t => p d && re_match r' t
      | EmptyString => false
      end
  | ReOpt lit :: r' =>
      re_match r' s ||
      match strip_prefix lit s with
      | Some t => re_match r' t
      | None => false
      end
  end.

Section Reader.

(** The [re] engine's reading of a bracket expression [[stuff]]: the
    characters it accepts, or [None] when [re.compile] rejects it. *)
Variable re_class : string -> option (ascii -> bool).

Fixpoint re_compile (p : list pat_item) : result (list re_item) :=
  match p with
  | [] => Ok []
  | PStar :: r => t <- re_compile r ;; Ok (ReStar :: t)
  | PAny :: r => t <- re_compile r ;; Ok (ReAny :: t)
  | PLit c :: r => t <- re_compile r ;; Ok (ReLit c :: t)
  | PClass stuff :: r =>
      match re_class stuff with
      | Some cls => t <- re_compile r ;; Ok (ReClass cls :: t)
      | None => Err ReError
      end
  end.

Definition pair_eqb (a b : string * string) : bool :=
  String.eqb (fst a) (fst b) && String.eqb (snd a) (snd b).

Definition pair_in (a : string * string) (l : list (string * string)) : bool :=
  existsb (pair_eqb a) l.

Definition pair_add (a : string * string) (l : list (string * string))
  : list (string * string) :=
  if pair_in a l then l else l ++ [a].

Definition pairs_update (l m : list (string * string))
  : list (string * string) :=
  fold_left (fun acc a => pair_add a acc) m l.

(** The body of the loop over [self.all_sources] in [_select_glob]. *)
Definition glob_source (source_re key_re ctrl_key_re : list re_item)
    (key_glob : string)
    (st : list (string * string) * DataCollection) (source : string)
  : result (list (string * string) * DataCollection) :=
  let '(matched, dc) := st in
  if negb (re_match source_re source) then Ok (matched, dc)
  else if String.eqb key_glob "*" then Ok (pair_add (source, "*") matched, dc)
  else
    let r := if str_in source (control_sources dc)
             then ctrl_key_re else key_re in
    '(kv, dc') <- _keys_for_source dc source ;;
    keys <- keys_iter kv ;;
    Ok (fold_left (fun acc key => pair_add (source, key) acc)
                  (filter (re_match r) keys) matched, dc').

Fixpoint glob_sources (source_re key_re ctrl_key_re : list re_item)
    (key_glob : string)
    (st : list (string * string) * DataCollection) (l : list string)
  : result (list (string * string) * DataCollection) :=
  match l with
  | [] => Ok st
  | s :: r =>
      st' <- glob_source source_re key_re ctrl_key_re key_glob st s ;;
      glob_sources source_re key_re ctrl_key_re key_glob st' r
  end.

(** The pattern used for the keys of control sources. *)
Definition ctrl_key_pattern (key_glob : string) (key_re : list re_item)
  : list re_item :=
  if endswith key_glob ".value" || endswith key_glob "*" then key_re
  else key_re ++ [ReOpt ".value"].

Definition _select_glob (dc : DataCollection) (source_glob key_glob : string)
  : result (list (string * string) * DataCollection) :=
  source_re <- re_compile (translate source_glob) ;;
  key_re <- re_compile (translate key_glob) ;;
  let ctrl_key_re := ctrl_key_pattern key_glob key_re in
  '(matched, dc') <- glob_sources source_re key_re ctrl_key_re key_glob
                       ([], dc) (all_sources dc) ;;
  match matched with
  | [] => Err ValueError_no_matches
  | _ => Ok (matched, dc')
  end.

(** The argument of [select]. *)
Inductive selection : Type :=
| SelStr (source_glob : string)
| SelSet (pairs : list (string * string))
| SelDict (d : list (string * list string))
| SelList (globs : list (string * string))
| SelOther.                  (* a value of any other type *)

Fixpoint expand_dict (dc : DataCollection) (res : list (string * string))
    (d : list (string * list string)) : result (list (string * string)) :=
  match d with
  | [] => Ok res
  | (source, keys) :: r =>
      if negb (str_in source (all_sources dc))
      then Err ValueError_source_not_in_run
      else
        let ks := match keys with [] => ["*"] | _ => keys end in
        expand_dict dc
          (fold_left (fun acc k => pair_add (source, k) acc) ks res) r
  end.

Fixpoint expand_list (st : list (string * string) * DataCollection)
    (l : list (string * string))
  : result (list (string * string) * DataCollection) :=
  match l with
  | [] => Ok st
  | (src_glob, key_glob) :: r =>
      let '(res, dc) := st in
      '(matched, dc') <- _select_glob dc src_glob key_glob ;;
      match matched with
      | [] => Err ValueError_no_matches
      | _ => expand_list (pairs_update res matched, dc') r
      end
  end.

(** [_expand_selection]; a [SelStr] is a value that is neither a set, a
    dict nor a list. *)
Definition _expand_selection (dc : DataCollection) (sel : selection)
  : result (list (string * string) * DataCollection) :=
  match sel with
  | SelSet pairs => Ok (pairs, dc)
  | SelDict d => res <- expand_dict dc [] d ;; Ok (res, dc)
  | SelList globs => expand_list ([], dc) globs
  | SelStr _ | SelOther => Ok ([], dc)   (* TypeError(...) is not raised *)
  end.

(** ** select *)

Definition selected_sources_of (sel : list (string * string)) : list string :=
  dedup_strings (map fst sel).

(** [{s: self._source_file_mapping[s] for s in selected_sources}] *)
Fixpoint restrict_mapping (sfm : list (string * list Segment))
    (l : list string) : result (list (string * list Segment)) :=
  match l with
  | [] => Ok []
  | s :: r =>
      segs <- dict_item s sfm ;;
      rest <- restrict_mapping sfm r ;;
      Ok ((s, segs) :: rest)
  end.

Definition restrict_cache (keep : string -> bool)
    (c : list (CacheKey * (list Z * list Z)))
  : list (CacheKey * (list Z * list Z)) :=
  filter (fun e => let '((_, s, _), _) := e in keep s) c.

(** All train IDs of all segments of a registry, in registry order. *)
Definition mapping_train_ids (sfm : list (string * list Segment)) : list Z :=
  flat_map (fun e => flat_map fst (snd e)) sfm.

(** [selected_keys]: source to the set of its selected keys. *)
Definition group_keys (sel : list (string * string))
  : list (string * list string) :=
  fold_left
    (fun acc sk =>
       let '(source, key) := sk in
       match dict_get source acc with
       | None => dict_set source [key] acc
       | Some ks => dict_set source (set_add key ks) acc
       end) sel [].

Definition select_keys (self_keys : list (string * keyval))
    (selected_keys : list (string * list string)) : list (string * keyval) :=
  fold_left
    (fun acc e =>
       let '(source, keys) := e in
       if str_in "*" keys then
         match dict_get source self_keys with
         | Some kv => dict_set source kv acc
         | None => acc
         end
       else dict_set source (KSet keys) acc)
    selected_keys [].

(** [select]: the new collection and the receiver after the call. *)
Definition select (dc : DataCollection) (seln_or_source_glob : selection)
    (key_glob : string) : result (DataCollection * DataCollection) :=
  '(sel, dc1) <-
    match seln_or_source_glob with
    | SelStr source_glob => _select_glob dc source_glob key_glob
    | other => _expand_selection dc other
    end ;;
  '(sel, dc2) <- _expand_selection dc1 (SelSet sel) ;;
  let selected_sources := selected_sources_of sel in
  sfm <- restrict_mapping (_source_file_mapping dc2) selected_sources ;;
  Ok ({| instrument_sources :=
           set_inter (instrument_sources dc2) selected_sources;
         control_sources :=
           set_inter (control_sources dc2) selected_sources;
         train_ids := sorted_set (mapping_train_ids sfm);
         _source_file_mapping := sfm;
         _index_cache :=
           restrict_cache (fun s => str_in s selected_sources)
                          (_index_cache dc2);
         _source_keys := select_keys (_source_keys dc2) (group_keys sel) |},
      dc2).

(** ** select_trains *)

(** A slice endpoint given by train ID: a Python [int] or a numpy
    integer scalar. *)
Inductive tid_value : Type :=
| PyInt (z : Z)
| NpInt (z : Z).

Definition tid_Z (t : tid_value) : Z :=
  match t with PyInt z | NpInt z => z end.

(** [l.index(x)] *)
Fixpoint list_index (x : Z) (l : list Z) : option Z :=
  match l with
  | [] => None
  | y :: r => if y =? x then Some 0
              else option_map Z.succ (list_index x r)
  end.

(** [(train_ids > tid).nonzero()[0][0]] for an array comparison. *)
Fixpoint first_greater (x : Z) (l : list Z) : option Z :=
  match l with
  | [] => None
  | y :: r => if x <? y then Some 0
              else option_map Z.succ (first_greater x r)
  end.

(** [_tid_to_slice_ix]; [train_ids] is a Python list.  The value is the
    slice index, [None] standing for Python's [None]. *)
Definition _tid_to_slice_ix (tid : option tid_value) (train_ids : list Z)
    (stop : bool) : result (option Z) :=
  match tid with
  | None => Ok None
  | Some tid =>
      match list_index (tid_Z tid) train_ids with
      | Some i => Ok (Some i)
      | None =>
          match train_ids with
          | [] => Err IndexError                    (* train_ids[0] *)
          | first :: _ =>
              if tid_Z tid <? first then
                if stop then Err ValueError_before_run else Ok None
              else if tid_Z tid >? last train_ids first then
                if stop then Ok None else Err ValueError_after_run
              else
                match tid with
                | PyInt _ => Err TypeError          (* list > int *)
                | NpInt z =>
                    match first_greater z train_ids with
                    | Some i => Ok (Some i)
                    | None => Err IndexError
                    end
                end
          end
      end
  end.

(** A Python [slice(start, stop, step)] of integers. *)
Record pyslice : Type := {
  sl_start : option Z;
  sl_stop : option Z;
  sl_step : option Z
}.

(** Clamping of one slice bound, as list slicing does it. *)
Definition adjust_bound (len step : Z) (b : Z) : Z :=
  if b <? 0 then
    (if b + len <? 0 then (if step <? 0 then -1 else 0) else b + len)
  else if b >=? len then (if step <? 0 then len - 1 else len)
  else b.

(** [slice.indices(len)] with the length of the resulting slice. *)
Definition slice_indices (sl : pyslice) (len : Z) : result (Z * Z * Z) :=
  let step := match sl_step sl with Some s => s | None => 1 end in
  if step =? 0 then Err ValueError_slice_step
  else
    let start := match sl_start sl with
                 | Some s => adjust_bound len step s
                 | None => if step <? 0 then len - 1 else 0
                 end in
    let stop := match sl_stop sl with
                | Some s => adjust_bound len step s
                | None => if step <? 0 then -1 else len
                end in
    let n := if step <? 0
             then (if stop <? start then (start - stop - 1) / (- step) + 1
                   else 0)
             else (if start <? stop then (stop - start - 1) / step + 1
                   else 0) in
    Ok (start, step, n).

(** [l[sl]] *)
Definition list_slice (l : list Z) (sl : pyslice) : result (list Z) :=
  '(start, step, n) <- slice_indices sl (Z.of_nat (List.length l)) ;;
  Ok (map (fun k => nth (Z.to_nat (start + Z.of_nat k * step)) l 0)
          (seq 0 (Z.to_nat n))).

(** The range descriptors [by_id] and [by_index]; anything else is
    [OtherRange]. *)
Inductive train_range : Type :=
| by_id (start stop : option tid_value) (step : option Z)
| by_index (value : pyslice)
| OtherRange.

(** [np.intersect1d(a, b).size > 0] *)
Definition intersects (a b : list Z) : bool :=
  existsb (fun x => Z_in x b) a.

(** The registry of the collection [select_trains] returns: the segments
    that meet the new train IDs, sources without such a segment left out. *)
Definition retain_segments (new_ids : list Z)
    (sfm : list (string * list Segment)) : list (string * list Segment) :=
  flat_map
    (fun e =>
       match filter (fun seg => intersects (fst seg) new_ids) (snd e) with
       | [] => []
       | segs => [(fst e, segs)]
       end) sfm.

(** [{s: k for (s, k) in self._source_keys if s in res._source_file_mapping}]:
    iterating a dict yields its keys, and each is unpacked into two
    characters. *)
Fixpoint unpack_source_keys (sfm : list (string * list Segment))
    (acc : list (string * keyval)) (names : list string)
  : result (list (string * keyval)) :=
  match names with
  | [] => Ok acc
  | String s (String k EmptyString) :: r =>
      let s' := String s EmptyString in
      unpack_source_keys sfm
        (if dict_mem s' sfm then dict_set s' (KStr (String k EmptyString)) acc
         else acc) r
  | _ :: _ => Err ValueError_unpack
  end.

Definition select_trains (dc : DataCollection) (tr : train_range)
  : result DataCollection :=
  ix_slice <-
    match tr with
    | by_id start stop step =>
        start_ix <- _tid_to_slice_ix start (train_ids dc) false ;;
        stop_ix <- _tid_to_slice_ix stop (train_ids dc) true ;;
        Ok {| sl_start := start_ix; sl_stop := stop_ix; sl_step := step |}
    | by_index value => Ok value
    | OtherRange => Err TypeError
    end ;;
  new_ids <- list_slice (train_ids dc) ix_slice ;;
  let sfm := retain_segments new_ids (_source_file_mapping dc) in
  sk <- unpack_source_keys sfm [] (map fst (_source_keys dc)) ;;
  Ok {| instrument_sources :=
          filter (fun s => dict_mem s sfm) (instrument_sources dc);
        control_sources :=
          filter (fun s => dict_mem s sfm) (control_sources dc);
        train_ids := new_ids;
        _source_file_mapping := sfm;
        _index_cache :=
          restrict_cache (fun s => dict_mem s sfm) (_index_cache dc);
        _source_keys := sk |}.

(** ** The index cache *)

Definition two64 : Z := 2 ^ 64.

(** Element-wise arithmetic of two arrays with numpy's broadcasting of a
    one-element array. *)
Definition broadcast2 (op : Z -> Z -> Z) (a b : list Z) : result (list Z) :=
  if (List.length a =? List.length b)%nat
  then Ok (map (fun p => op (fst p) (snd p)) (combine a b))
  else match a, b with
       | [x], _ => Ok (map (fun y => op x y) b)
       | _, [y] => Ok (map (fun x => op x y) a)
       | _, _ => Err ValueError_shape
       end.

Definition option_item {A} (o : option A) : result A :=
  match o with Some a => Ok a | None => Err KeyError end.

(** [_read_index]; the derived count is taken modulo [2^64]
    ([np.uint64]). *)
Definition _read_index (file : File) (source group : string)
  : result (list Z * list Z) :=
  ix_group <- dict_item ("/INDEX/" ++ source ++ "/" ++ group)%string
                        (f_index file) ;;
  let firsts := ix_first ix_group in
  match ix_count ix_group with
  | Some counts => Ok (firsts, counts)
  | None =>
      status <- option_item (ix_status ix_group) ;;
      lasts <- option_item (ix_last ix_group) ;;
      d <- broadcast2 (fun l f => l - f + 1) lasts firsts ;;
      c <- broadcast2 Z.mul d status ;;
      Ok (firsts, map (fun x => x mod two64) c)
  end.

Definition cache_key_eqb (a b : CacheKey) : bool :=
  let '(f1, s1, g1) := a in
  let '(f2, s2, g2) := b in
  (if File_eq_dec f1 f2 then true else false)
  && String.eqb s1 s2 && String.eqb g1 g2.

Fixpoint cache_get (k : CacheKey) (c : list (CacheKey * (list Z * list Z)))
  : option (list Z * list Z) :=
  match c with
  | [] => None
  | (k', v) :: r => if cache_key_eqb k k' then Some v else cache_get k r
  end.

Definition with_cache (dc : DataCollection)
    (c : list (CacheKey * (list Z * list Z))) : DataCollection :=
  {| instrument_sources := instrument_sources dc;
     control_sources := control_sources dc;
     train_ids := train_ids dc;
     _source_file_mapping := _source_file_mapping dc;
     _index_cache := c;
     _source_keys := _source_keys dc |}.

(** [_get_index]: the cached entry, or the index read from the file and
    then remembered. *)
Definition _get_index (dc : DataCollection) (file : File)
    (source group : string)
  : result ((list Z * list Z) * DataCollection) :=
  match cache_get (file, source, group) (_index_cache dc) with
  | Some ix => Ok (ix, dc)
  | None =>
      ix <- _read_index file source group ;;
      Ok (ix, with_cache dc
                (_index_cache dc ++ [((file, source, group), ix)]))
  end.

(** ** Expanding train IDs *)

(** [astype(np.intp)]: the value as a signed 64-bit integer. *)
Definition to_intp (c : Z) : Z :=
  let m := c mod two64 in
  if m >=? 2 ^ 63 then m - two64 else m.

(** [np.repeat(a, repeats)] for arrays of one length. *)
Fixpoint np_repeat (a repeats : list Z) : result (list Z) :=
  match a, repeats with
  | x :: a', c :: r' =>
      if c <? 0 then Err ValueError_negative_repeat
      else rest <- np_repeat a' r' ;; Ok (repeat x (Z.to_nat c) ++ rest)
  | _, _ => Ok []
  end.

Definition _expand_trainids (first counts trainIds : list Z)
  : result (list Z) :=
  let n := Nat.min (List.length counts) (List.length trainIds) in
  np_repeat (firstn n trainIds) (firstn n (map to_intp counts)).

(** ** _check_field *)

Definition _check_field (dc : DataCollection) (source key : string)
  : result DataCollection :=
  if negb (str_in source (all_sources dc)) then Err SourceNameError
  else
    '(kv, dc') <- _keys_for_source dc source ;;
    present <- keys_contains key kv ;;
    if present then Ok dc' else Err PropertyNameError.

(** ** get_array *)

Inductive dim : Type :=
| DimTrainId                 (* 'trainId' *)
| DimAnon (i : nat)          (* 'dim_%d' % i *)
| DimNamed (name : string).

(** An [xarray.DataArray] labelled along its first axis. *)
Record DataArray : Type := {
  da_dims : list dim;
  da_labels : list Z;        (* coords['trainId'] *)
  da_rows : list (list Z);
  da_tail : list nat         (* shape[1:] *)
}.

(** [a.size] *)
Definition da_size (a : DataArray) : nat :=
  (List.length (da_rows a) * fold_right Nat.mul 1 (da_tail a))%nat.

(** [f[data_path][:n, ...]] *)
Definition read_rows (f : File) (data_path : string) (n : nat)
  : result Dataset :=
  ds <- dict_item data_path (f_data f) ;;
  Ok {| ds_tail := ds_tail ds; ds_rows := firstn n (ds_rows ds) |}.

(** [xarray.DataArray(data, dims=dims, coords={'trainId': trainids})] *)
Definition make_array (data : Dataset) (dims : list dim) (trainids : list Z)
  : result DataArray :=
  if negb (List.length dims =? S (List.length (ds_tail data)))%nat
  then Err ValueError_shape
  else if negb (List.length trainids =? List.length (ds_rows data))%nat
  then Err ValueError_shape
  else Ok {| da_dims := dims; da_labels := trainids;
             da_rows := ds_rows data; da_tail := ds_tail data |}.

Definition data_path (section source key : string) : string :=
  ("/" ++ section ++ "/" ++ source ++ "/" ++ replace_char "." "/" key)%string.

(** State of the loop over the segments of a source. *)
Record array_state : Type := {
  st_extra_dims : option (list dim);
  st_dc : DataCollection;
  st_arrays : list DataArray
}.

Definition push_array (st : array_state) (dc : DataCollection)
    (data : Dataset) (trainids : list Z) : result array_state :=
  let extra_dims :=
    match st_extra_dims st with
    | Some d => d
    | None => map DimAnon (seq 0 (List.length (ds_tail data)))
    end in
  a <- make_array data (DimTrainId :: extra_dims) trainids ;;
  Ok {| st_extra_dims := Some extra_dims; st_dc := dc;
        st_arrays := st_arrays st ++ [a] |}.

Definition control_segment (source key : string) (st : array_state)
    (seg : Segment) : result array_state :=
  let '(trainids, f) := seg in
  data <- read_rows f (data_path "CONTROL" source key) (List.length trainids) ;;
  push_array st (st_dc st) data trainids.

Definition instrument_segment (source key : string) (st : array_state)
    (seg : Segment) : result array_state :=
  let '(trainids, f) := seg in
  let group := partition_head "." key in
  '((firsts, counts), dc') <- _get_index (st_dc st) f source group ;;
  if existsb (fun c => c >? 1) counts then Err ValueError_more_than_one
  else
    trainids <- _expand_trainids firsts counts trainids ;;
    data <- read_rows f (data_path "INSTRUMENT" source key)
                      (List.length trainids) ;;
    push_array st dc' data trainids.

Fixpoint loop_segments (body : array_state -> Segment -> result array_state)
    (st : array_state) (segs : list Segment) : result array_state :=
  match segs with
  | [] => Ok st
  | seg :: r => st' <- body st seg ;; loop_segments body st' r
  end.

(** [sorted(l, key=...)] on items paired with their keys, [ltb] being the
    order of the keys: a stable sort. *)
Fixpoint insert_by {K A} (ltb : K -> K -> bool) (x : K * A)
    (l : list (K * A)) : list (K * A) :=
  match l with
  | [] => [x]
  | y :: r =>
      if ltb (fst y) (fst x) then y :: insert_by ltb x r else x :: y :: r
  end.

Definition sort_by {K A} (ltb : K -> K -> bool) (l : list (K * A))
  : list (K * A) :=
  fold_right (insert_by ltb) [] l.

(** [a.coords['trainId'][0]] *)
Definition first_label (a : DataArray) : result Z :=
  match da_labels a with
  | t :: _ => Ok t
  | [] => Err IndexError
  end.

Fixpoint with_keys {K A} (key : A -> result K) (l : list A)
  : result (list (K * A)) :=
  match l with
  | [] => Ok []
  | a :: r => k <- key a ;; rest <- with_keys key r ;; Ok ((k, a) :: rest)
  end.

Definition list_nat_eqb (a b : list nat) : bool :=
  (List.length a =? List.length b)%nat &&
  forallb (fun p => (fst p =? snd p)%nat) (combine a b).

(** [xarray.concat(arrays, dim='trainId')] for a non-empty list. *)
Definition xarray_concat (arrays : list DataArray) : result DataArray :=
  match arrays with
  | [] => Err ValueError_shape
  | a :: _ =>
      if forallb (fun b => list_nat_eqb (da_tail b) (da_tail a)) arrays
      then Ok {| da_dims := da_dims a;
                 da_labels := flat_map da_labels arrays;
                 da_rows := flat_map da_rows arrays;
                 da_tail := da_tail a |}
      else Err ValueError_shape
  end.

(** The loop of [get_array] over the segments of the source, which fills
    [seq_arrays]; [dc0] is the receiver once the field has been checked. *)
Definition collect_arrays (dc0 : DataCollection) (source key : string)
    (extra_dims : option (list dim)) : result array_state :=
  let st0 := {| st_extra_dims := extra_dims; st_dc := dc0;
                st_arrays := [] |} in
  if str_in source (control_sources dc0) then
    segs <- dict_item source (_source_file_mapping dc0) ;;
    loop_segments (control_segment source key) st0 segs
  else if str_in source (instrument_sources dc0) then
    segs <- dict_item source (_source_file_mapping dc0) ;;
    loop_segments (instrument_segment source key) st0 segs
  else Err SourceNameError.

Definition get_array (dc : DataCollection) (source key : string)
    (extra_dims : option (list dim)) : result (DataArray * DataCollection) :=
  dc0 <- _check_field dc source key ;;
  st <- collect_arrays dc0 source key extra_dims ;;
  let seq_arrays := st_arrays st in
  let non_empty := filter (fun a => (0 <? da_size a)%nat) seq_arrays in
  match non_empty with
  | [] =>
      match seq_arrays with
      | a :: _ => Ok (a, st_dc st)
      | [] => Err Exception_unable_to_get_data
      end
  | _ =>
      keyed <- with_keys first_label non_empty ;;
      a <- xarray_concat (map snd (sort_by Z.ltb keyed)) ;;
      Ok (a, st_dc st)
  end.

(** ** get_series *)

(** A label of a pandas index: a train ID, or a (train ID, pulse ID)
    pair of a MultiIndex. *)
Inductive index_label : Type :=
| IxTid (t : Z)
| IxPair (t p : Z).

Record Series : Type := {
  se_name : string;
  se_index : list index_label;
  se_data : list (list Z)
}.

(** [pd.Series(data, name=name, index=index)]: one-dimensional data as
    long as the index. *)
Definition make_series (data : Dataset) (name : string)
    (index : list index_label) : result Series :=
  match ds_tail data with
  | [] =>
      if (List.length index =? List.length (ds_rows data))%nat
      then Ok {| se_name := name; se_index := index;
                 se_data := ds_rows data |}
      else Err ValueError_shape
  | _ :: _ => Err ValueError_shape
  end.

Definition series_name (source key : string) : string :=
  let name := (source ++ "/" ++ key)%string in
  if endswith name ".value"
  then substring 0 (String.length name - 6) name
  else name.

(** [index.is_unique] *)
Fixpoint is_unique (l : list Z) : bool :=
  match l with
  | [] => true
  | x :: r => negb (Z_in x r) && is_unique r
  end.

(** [ds[:n, 0]] *)
Definition first_column (ds : Dataset) (n : nat) : result (list Z) :=
  match ds_tail ds with
  | [S _] => Ok (map (fun row => hd 0 row) (firstn n (ds_rows ds)))
  | [O] => Err IndexError
  | _ => Err ValueError_shape
  end.

Definition control_series (source key name : string) (seg : Segment)
  : result Series :=
  let '(trainids, f) := seg in
  data <- read_rows f (data_path "CONTROL" source key) (List.length trainids) ;;
  make_series data name (map IxTid trainids).

(** The series of one segment of an instrument source, given the index of
    its group in the segment's file. *)
Definition instrument_series_of (source key name : string)
    (ix : list Z * list Z) (seg : Segment) : result Series :=
  let '(firsts, counts) := ix in
  let '(trainids, f) := seg in
  let group := partition_head "." key in
  trainids <- _expand_trainids firsts counts trainids ;;
  data <- dict_item (data_path "INSTRUMENT" source key) (f_data f) ;;
  '(index, data) <-
    (if is_unique trainids then Ok (map IxTid trainids, data)
     else
       pulse_ds <- dict_item ("/INSTRUMENT/" ++ source ++ "/" ++ group
                              ++ "/pulseId")%string (f_data f) ;;
       pulse_id <- first_column pulse_ds (List.length trainids) ;;
       if negb (List.length pulse_id =? List.length trainids)%nat
       then Err ValueError_shape
       else
         match ds_tail data with
         | [] => Err IndexError
         | 1%nat :: tail =>
             Ok (map (fun p => IxPair (fst p) (snd p))
                     (combine trainids pulse_id),
                 {| ds_tail := tail; ds_rows := ds_rows data |})
         | _ :: _ => Err AssertionError
         end) ;;
  make_series {| ds_tail := ds_tail data;
                 ds_rows := firstn (List.length index) (ds_rows data) |}
              name index.

Definition instrument_series (source key name : string)
    (st : DataCollection * list Series) (seg : Segment)
  : result (DataCollection * list Series) :=
  let '(dc, acc) := st in
  let group := partition_head "." key in
  '(ix, dc') <- _get_index dc (snd seg) source group ;;
  s <- instrument_series_of source key name ix seg ;;
  Ok (dc', acc ++ [s]).

Fixpoint loop_series (body : DataCollection * list Series -> Segment ->
                             result (DataCollection * list Series))
    (st : DataCollection * list Series) (segs : list Segment)
  : result (DataCollection * list Series) :=
  match segs with
  | [] => Ok st
  | seg :: r => st' <- body st seg ;; loop_series body st' r
  end.

(** [s.index[0]] *)
Definition first_index (s : Series) : result index_label :=
  match se_index s with
  | l :: _ => Ok l
  | [] => Err IndexError
  end.

Definition is_pair (l : index_label) : bool :=
  match l with IxPair _ _ => true | IxTid _ => false end.

(** [a < b] on index labels of one kind (tuples compare
    lexicographically). *)
Definition label_ltb (a b : index_label) : bool :=
  match a, b with
  | IxTid x, IxTid y => x <? y
  | IxPair x p, IxPair y q => (x <? y) || ((x =? y) && (p <? q))
  | _, _ => false
  end.

(** Sorting labels of different kinds compares a numpy integer with a
    tuple, which gives an array with no truth value. *)
Definition sort_labels {A} (l : list (index_label * A))
  : result (list (index_label * A)) :=
  match l with
  | [] => Ok []
  | (k, _) :: _ =>
      if forallb (fun e => Bool.eqb (is_pair (fst e)) (is_pair k)) l
      then Ok (sort_by label_ltb l)
      else Err ValueError_ambiguous_truth
  end.

(** [pd.concat(series)] *)
Definition pd_concat (l : list Series) : result Series :=
  match l with
  | [] => Err ValueError_no_objects
  | s :: _ => Ok {| se_name := se_name s;
                    se_index := flat_map se_index l;
                    se_data := flat_map se_data l |}
  end.

Definition get_series (dc : DataCollection) (source key : string)
  : result (Series * DataCollection) :=
  dc0 <- _check_field dc source key ;;
  let name := series_name source key in
  '(dc1, seq_series) <-
    (if str_in source (control_sources dc0) then
       segs <- dict_item source (_source_file_mapping dc0) ;;
       loop_series (fun st seg =>
                      s <- control_series source key name seg ;;
                      Ok (fst st, snd st ++ [s])) (dc0, []) segs
     else if str_in source (instrument_sources dc0) then
       segs <- dict_item source (_source_file_mapping dc0) ;;
       loop_series (instrument_series source key name) (dc0, []) segs
     else Err Exception_unknown_source_category) ;;
  keyed <- with_keys first_index seq_series ;;
  sorted <- sort_labels keyed ;;
  s <- pd_concat (map snd sorted) ;;
  Ok (s, dc1).

(** ** Locating a train *)

(** [(trainids == train_id).nonzero()[0]], first element. *)
Fixpoint position_of (x : Z) (l : list Z) : option nat :=
  match l with
  | [] => None
  | y :: r => if y =? x then Some O else option_map S (position_of x r)
  end.

Fixpoint find_in_segments (train_id : Z) (segs : list Segment)
  : option (File * nat) :=
  match segs with
  | [] => None
  | (trainids, f) :: r =>
      match position_of train_id trainids with
      | Some ix => Some (f, ix)
      | None => find_in_segments train_id r
      end
  end.

(** [DataCollection._find_data] *)
Definition _find_data (dc : DataCollection) (source : string) (train_id : Z)
  : result (option (File * nat)) :=
  segs <- dict_item source (_source_file_mapping dc) ;;
  Ok (find_in_segments train_id segs).

(** [a[i]] *)
Definition item {A} (l : list A) (i : nat) : result A :=
  match nth_error l i with Some a => Ok a | None => Err IndexError end.

(** ** _check_data_missing *)

Fixpoint missing_control (dc : DataCollection) (tid : Z) (l : list string)
  : result bool :=
  match l with
  | [] => Ok false
  | source :: r =>
      found <- _find_data dc source tid ;;
      match found with
      | None => Ok true
      | Some _ => missing_control dc tid r
      end
  end.

(** The loop over the groups of one instrument source. *)
Fixpoint missing_groups (dc : DataCollection) (file : File) (pos : nat)
    (source : string) (groups : list string)
  : result (bool * DataCollection) :=
  match groups with
  | [] => Ok (false, dc)
  | group :: r =>
      '((_, counts), dc') <- _get_index dc file source group ;;
      c <- item counts pos ;;
      if c =? 0 then Ok (true, dc')
      else missing_groups dc' file pos source r
  end.

Fixpoint missing_instrument (dc : DataCollection) (tid : Z)
    (l : list string) : result (bool * DataCollection) :=
  match l with
  | [] => Ok (false, dc)
  | source :: r =>
      found <- _find_data dc source tid ;;
      match found with
      | None => Ok (true, dc)
      | Some (file, pos) =>
          '(kv, dc1) <- _keys_for_source dc source ;;
          keys <- keys_iter kv ;;
          let groups := dedup_strings (map (partition_head ".") keys) in
          '(b, dc2) <- missing_groups dc1 file pos source groups ;;
          if b then Ok (true, dc2) else missing_instrument dc2 tid r
      end
  end.

(** The sources are those of the collection when the call starts. *)
Definition _check_data_missing (dc : DataCollection) (tid : Z)
  : result (bool * DataCollection) :=
  b <- missing_control dc tid (control_sources dc) ;;
  if b then Ok (true, dc)
  else missing_instrument dc tid (instrument_sources dc).

(** ** TrainIterator *)

Inductive value : Type :=
| VRow (row : list Z)               (* [ds[pos]] *)
| VBlock (rows : list (list Z)).    (* [ds[first:first+count]] *)

Definition DatasetsCache : Type :=
  list ((string * string) * (list Z * File * Dataset)).

Record TrainIterator : Type := {
  data : DataCollection;
  require_all : bool;
  _datasets_cache : DatasetsCache
}.

Fixpoint dcache_get (k : string * string) (c : DatasetsCache)
  : option (list Z * File * Dataset) :=
  match c with
  | [] => None
  | (k', v) :: r => if pair_eqb k k' then Some v else dcache_get k r
  end.

Fixpoint dcache_set (k : string * string) (v : list Z * File * Dataset)
    (c : DatasetsCache) : DatasetsCache :=
  match c with
  | [] => [(k, v)]
  | (k', v') :: r =>
      if pair_eqb k k' then (k, v) :: r else (k', v') :: dcache_set k v r
  end.

(** The scan of the segments in [TrainIterator._find_data]. *)
Fixpoint scan_segments (path : string) (tid : Z) (segs : list Segment)
  : result (option (list Z * File * nat * Dataset)) :=
  match segs with
  | [] => Ok None
  | (trainids, f) :: r =>
      match position_of tid trainids with
      | Some ix =>
          ds <- dict_item path (f_data f) ;;
          Ok (Some (trainids, f, ix, ds))
      | None => scan_segments path tid r
      end
  end.

(** [TrainIterator._find_data]: file, position and dataset, with the
    dataset cache after the call. *)
Definition iter_find_data (dc : DataCollection) (cache : DatasetsCache)
    (source key : string) (tid : Z)
  : result (option (File * nat * Dataset) * DatasetsCache) :=
  let hit :=
    match dcache_get (source, key) cache with
    | Some (cache_tids, file, ds) =>
        match position_of tid cache_tids with
        | Some ix => Some (file, ix, ds)
        | None => None
        end
    | None => None
    end in
  match hit with
  | Some r => Ok (Some r, cache)
  | None =>
      let section := if str_in source (control_sources dc)
                     then "CONTROL" else "INSTRUMENT" in
      segs <- dict_item source (_source_file_mapping dc) ;;
      found <- scan_segments (data_path section source key) tid segs ;;
      match found with
      | Some (trainids, f, ix, ds) =>
          Ok (Some (f, ix, ds), dcache_set (source, key) (trainids, f, ds) cache)
      | None => Ok (None, cache)
      end
  end.

Definition SourceData : Type := list (string * value).

(** The loop over the keys of one control source. *)
Fixpoint assemble_control_keys (dc : DataCollection) (cache : DatasetsCache)
    (source : string) (tid : Z) (source_data : SourceData)
    (keys : list string) : result (SourceData * DatasetsCache) :=
  match keys with
  | [] => Ok (source_data, cache)
  | key :: r =>
      '(found, cache') <- iter_find_data dc cache source key tid ;;
      match found with
      | None => assemble_control_keys dc cache' source tid source_data r
      | Some (_, pos, ds) =>
          v <- item (ds_rows ds) pos ;;
          assemble_control_keys dc cache' source tid
            (dict_set key (VRow v) source_data) r
      end
  end.

(** The loop over the keys of one instrument source. *)
Fixpoint assemble_instrument_keys (dc : DataCollection)
    (cache : DatasetsCache) (source : string) (tid : Z)
    (source_data : SourceData) (keys : list string)
  : result (SourceData * DataCollection * DatasetsCache) :=
  match keys with
  | [] => Ok (source_data, dc, cache)
  | key :: r =>
      '(found, cache') <- iter_find_data dc cache source key tid ;;
      match found with
      | None =>
          assemble_instrument_keys dc cache' source tid source_data r
      | Some (file, pos, ds) =>
          let group := partition_head "." key in
          '((firsts, counts), dc') <- _get_index dc file source group ;;
          first <- item firsts pos ;;
          count <- item counts pos ;;
          v <- (if count =? 1
                then row <- item (ds_rows ds) (Z.to_nat first) ;;
                     Ok (VRow row)
                else Ok (VBlock (firstn (Z.to_nat count)
                                   (skipn (Z.to_nat first) (ds_rows ds))))) ;;
          assemble_instrument_keys dc' cache' source tid
            (dict_set key v source_data) r
      end
  end.

Definition TrainData : Type := list (string * SourceData).

Fixpoint assemble_control (dc : DataCollection) (cache : DatasetsCache)
    (tid : Z) (res : TrainData) (sources : list string)
  : result (TrainData * DataCollection * DatasetsCache) :=
  match sources with
  | [] => Ok (res, dc, cache)
  | source :: r =>
      '(kv, dc1) <- _keys_for_source dc source ;;
      keys <- keys_iter kv ;;
      '(source_data, cache') <-
        assemble_control_keys dc1 cache source tid [] keys ;;
      assemble_control dc1 cache' tid (dict_set source source_data res) r
  end.

Fixpoint assemble_instrument (dc : DataCollection) (cache : DatasetsCache)
    (tid : Z) (res : TrainData) (sources : list string)
  : result (TrainData * DataCollection * DatasetsCache) :=
  match sources with
  | [] => Ok (res, dc, cache)
  | source :: r =>
      '(kv, dc1) <- _keys_for_source dc source ;;
      keys <- keys_iter kv ;;
      '(source_data, dc2, cache') <-
        assemble_instrument_keys dc1 cache source tid [] keys ;;
      assemble_instrument dc2 cache' tid (dict_set source source_data res) r
  end.

(** [_assemble_data] *)
Definition _assemble_data (it : TrainIterator) (tid : Z)
  : result (TrainData * TrainIterator) :=
  let dc := data it in
  '(res, dc1, cache1) <-
    assemble_control dc (_datasets_cache it) tid [] (control_sources dc) ;;
  '(res, dc2, cache2) <-
    assemble_instrument dc1 cache1 tid res (instrument_sources dc) ;;
  Ok (res, {| data := dc2; require_all := require_all it;
              _datasets_cache := cache2 |}).

(** [__iter__]: the trains yielded, and the exception that ended the
    iteration if there was one. *)
Fixpoint iter_trains (it : TrainIterator) (tids : list Z)
  : list (Z * TrainData) * option error :=
  match tids with
  | [] => ([], None)
  | tid :: r =>
      let checked :=
        if require_all it then
          '(b, dc) <- _check_data_missing (data it) tid ;;
          Ok (b, {| data := dc; require_all := require_all it;
                    _datasets_cache := _datasets_cache it |})
        else Ok (false, it) in
      match checked with
      | Err e => ([], Some e)
      | Ok (true, it') => iter_trains it' r
      | Ok (false, it') =>
          match _assemble_data it' tid with
          | Err e => ([], Some e)
          | Ok (res, it'') =>
              let '(rest, e) := iter_trains it'' r in
              ((tid, res) :: rest, e)
          end
      end
  end.

Definition TrainIterator_iter (it : TrainIterator)
  : list (Z * TrainData) * option error :=
  iter_trains it (train_ids (data it)).

(** [DataCollection.trains] *)
Definition trains (dc : DataCollection)
    (devices : option (selection * string))
    (tr : option train_range) (require_all : bool)
  : result (list (Z * TrainData) * option error) :=
  dc1 <- match devices with
         | Some (sel, key_glob) =>
             '(res, _) <- select dc sel key_glob ;; Ok res
         | None => Ok dc
         end ;;
  dc2 <- match tr with
         | Some r => select_trains dc1 r
         | None => Ok dc1
         end ;;
  Ok (TrainIterator_iter {| data := dc2; require_all := require_all;
                            _datasets_cache := [] |}).

End Reader.


(** ** Specification vocabulary *)

(** The labels [_expand_trainids] is meant to produce: each train ID
    repeated its count times. *)
Fixpoint expand_labels (tids counts : list Z) : list Z :=
  match tids, counts with
  | t :: tids', c :: counts' => repeat t (Z.to_nat c) ++ expand_labels tids' counts'
  | _, _ => []
  end.

(** Per-train counts re-derived from a label sequence: how often each
    train ID occurs in it. *)
Definition rederive_counts (tids labels : list Z) : list Z :=
  map (fun t => Z.of_nat (count_occ Z.eq_dec labels t)) tids.

(** The run-level invariant: the train-ID list is the sorted,
    de-duplicated union of the train IDs of the registry's segments. *)
Definition ids_from_registry (dc : DataCollection) : Prop :=
  train_ids dc = sorted_set (mapping_train_ids (_source_file_mapping dc)).

Definition strictly_increasing (l : list Z) : Prop := StronglySorted Z.lt l.

(** The step of a range descriptor ([None] is Python's default of 1). *)
Definition range_step (tr : train_range) : option Z :=
  match tr with
  | by_id _ _ step => step
  | by_index value => sl_step value
  | OtherRange => None
  end.

Definition declares_a_source (f : File) : Prop :=
  exists s, In s (f_dataSourceId f) /\ s <> "".

(** What the collection answers when asked for the keys of a source or for
    an index, whether from its caches or from the files. *)
Definition known_keys (dc : DataCollection) (source : string)
  : result (option keyval) :=
  r <- _keys_for_source dc source ;; Ok (fst r).

Definition known_index (dc : DataCollection) (file : File)
    (source group : string) : result (list Z * list Z) :=
  r <- _get_index dc file source group ;; Ok (fst r).

(** Two states of a collection that differ at most in what their caches
    have already remembered. *)
Record same_view (dc dc' : DataCollection) : Prop := {
  sv_instrument : instrument_sources dc' = instrument_sources dc;
  sv_control : control_sources dc' = control_sources dc;
  sv_train_ids : train_ids dc' = train_ids dc;
  sv_mapping : _source_file_mapping dc' = _source_file_mapping dc;
  sv_keys : forall s, known_keys dc' s = known_keys dc s;
  sv_index : forall f s g, known_index dc' f s g = known_index dc f s g
}.

(** The keys of a source as a loop over them sees them. *)
Definition source_keys_list (dc : DataCollection) (source : string)
  : result (list string) :=
  kv <- known_keys dc source ;; keys_iter kv.

(** What [_select_glob] requires of a key [k] of the source [s]. *)
Definition key_selected (dc : DataCollection) (key_glob : string)
    (key_re ctrl_key_re : list re_item) (s k : string) : Prop :=
  (key_glob = "*" /\ k = "*") \/
  (key_glob <> "*" /\
   exists keys, source_keys_list dc s = Ok keys /\ In k keys /\
     re_match (if str_in s (control_sources dc) then ctrl_key_re else key_re) k
       = true).

(** The receiver after a call, compared with the receiver before it: the
    same sources, train IDs, registry and index cache, the entries of
    [_source_keys] it had, and the same answers. *)
Record receiver_kept (dc dc' : DataCollection) : Prop := {
  rk_view : same_view dc dc';
  rk_cache : _index_cache dc' = _index_cache dc;
  rk_keys : forall s kv, dict_get s (_source_keys dc) = Some kv ->
                         dict_get s (_source_keys dc') = Some kv
}.

(** The array [get_array] builds for one segment, [dims] being the
    dimension names in use. *)
Definition segment_array (dc : DataCollection) (source key : string)
    (dims : list dim) (seg : Segment) : result DataArray :=
  let '(trainids, f) := seg in
  if str_in source (control_sources dc) then
    data <- read_rows f (data_path "CONTROL" source key) (List.length trainids) ;;
    make_array data dims trainids
  else
    '(firsts, counts) <- known_index dc f source (partition_head "." key) ;;
    if existsb (fun c => c >? 1) counts then Err ValueError_more_than_one
    else
      labels <- _expand_trainids firsts counts trainids ;;
      data <- read_rows f (data_path "INSTRUMENT" source key)
                        (List.length labels) ;;
      make_array data dims labels.

(** The names of the trailing dimensions: those the caller gave, or the
    anonymous ones made up for the first segment. *)
Definition dims_given (extra_dims : option (list dim)) (ed : list dim) : Prop :=
  extra_dims = Some ed \/
  (extra_dims = None /\ ed = map DimAnon (seq 0 (List.length ed))).




(** The body of the segment loop [get_array] runs for a source. *)
Definition segment_body (dc : DataCollection) (source key : string)
  : array_state -> Segment -> result array_state :=
  if str_in source (control_sources dc)
  then control_segment source key else instrument_segment source key.



(** No segment of the source holds the train. *)
Definition source_absent (dc : DataCollection) (source : string) (tid : Z)
  : Prop :=
  exists segs, dict_get source (_source_file_mapping dc) = Some segs /\
               find_in_segments tid segs = None.

Definition control_absent (dc : DataCollection) (tid : Z) : Prop :=
  exists s, In s (control_sources dc) /\ source_absent dc s tid.

Definition instrument_absent (dc : DataCollection) (tid : Z) : Prop :=
  exists s, In s (instrument_sources dc) /\ source_absent dc s tid.

(** The group [g] of the source reports a count of 0 at position [pos] of
    the file. *)
Definition group_zero (dc : DataCollection) (file : File) (pos : nat)
    (source g : string) : Prop :=
  exists firsts counts,
    known_index dc file source g = Ok (firsts, counts) /\
    nth_error counts pos = Some 0.

(** Some group of some instrument source reports a count of 0 for the
    train, in the first segment of the source that holds the train. *)
Definition zero_count (dc : DataCollection) (tid : Z) : Prop :=
  exists s segs file pos keys k,
    In s (instrument_sources dc) /\
    dict_get s (_source_file_mapping dc) = Some segs /\
    find_in_segments tid segs = Some (file, pos) /\
    source_keys_list dc s = Ok keys /\ In k keys /\
    group_zero dc file pos s (partition_head "." k).

(** Some group of the instrument source [s] reports a count of 0 for the
    train. *)
Definition zero_at (dc : DataCollection) (s : string) (tid : Z) : Prop :=
  exists segs file pos keys k,
    dict_get s (_source_file_mapping dc) = Some segs /\
    find_in_segments tid segs = Some (file, pos) /\
    source_keys_list dc s = Ok keys /\ In k keys /\
    group_zero dc file pos s (partition_head "." k).

(** The train lacks data for some source of the collection. *)
Definition data_missing (dc : DataCollection) (tid : Z) : Prop :=
  control_absent dc tid \/ instrument_absent dc tid \/ zero_count dc tid.

(** Every entry of the iterator's dataset cache remembers a segment of its
    source. *)
Definition cache_ok (dc : DataCollection) (cache : DatasetsCache) : Prop :=
  forall s k tids f ds,
    dcache_get (s, k) cache = Some (tids, f, ds) ->
    exists segs, dict_get s (_source_file_mapping dc) = Some segs /\
                 In (tids, f) segs.

(** [dc.trains(require_all=...)] without devices or range: iterating a
    fresh [TrainIterator] over the collection. *)
Definition iterate (dc : DataCollection) (require_all : bool)
  : list (Z * TrainData) * option error :=
  TrainIterator_iter {| data := dc; require_all := require_all;
                        _datasets_cache := [] |}.


(** * The rest of the query engine *)

(** ** files *)

Definition file_in (f : File) (l : list File) : bool :=
  existsb (fun g => if File_eq_dec f g then true else false) l.

Definition file_add (f : File) (l : list File) : list File :=
  if file_in f l then l else l ++ [f].

(** The [files] property: the set of the files of all segments. *)
Definition files (dc : DataCollection) : list File :=
  fold_left
    (fun res e => fold_left (fun res seg => file_add (snd seg) res) (snd e) res)
    (_source_file_mapping dc) [].

(** ** train_from_id and train_from_index *)

(** The loop of [train_from_id] over the keys of a control source found
    at position [pos] of [file]. *)
Fixpoint from_id_control_keys (file : File) (pos : nat) (source : string)
    (source_data : SourceData) (keys : list string) : result SourceData :=
  match keys with
  | [] => Ok source_data
  | key :: r =>
      ds <- dict_item (data_path "CONTROL" source key) (f_data file) ;;
      v <- item (ds_rows ds) pos ;;
      from_id_control_keys file pos source (dict_set key (VRow v) source_data) r
  end.

(** The loop of [train_from_id] over the keys of an instrument source. *)
Fixpoint from_id_instrument_keys (dc : DataCollection) (file : File)
    (pos : nat) (source : string) (source_data : SourceData)
    (keys : list string) : result (SourceData * DataCollection) :=
  match keys with
  | [] => Ok (source_data, dc)
  | key :: r =>
      let group := partition_head "." key in
      '((firsts, counts), dc') <- _get_index dc file source group ;;
      first <- item firsts pos ;;
      count <- item counts pos ;;
      if count =? 0
      then from_id_instrument_keys dc' file pos source source_data r
      else
        ds <- dict_item (data_path "INSTRUMENT" source key) (f_data file) ;;
        v <- (if count =? 1
              then row <- item (ds_rows ds) (Z.to_nat first) ;; Ok (VRow row)
              else Ok (VBlock (firstn (Z.to_nat count)
                                 (skipn (Z.to_nat first) (ds_rows ds))))) ;;
        from_id_instrument_keys dc' file pos source
          (dict_set key v source_data) r
  end.

Fixpoint from_id_control (dc : DataCollection) (train_id : Z)
    (res : TrainData) (sources : list string)
  : result (TrainData * DataCollection) :=
  match sources with
  | [] => Ok (res, dc)
  | source :: r =>
      found <- _find_data dc source train_id ;;
      match found with
      | None => from_id_control dc train_id (dict_set source [] res) r
      | Some (file, pos) =>
          '(kv, dc1) <- _keys_for_source dc source ;;
          keys <- keys_iter kv ;;
          source_data <- from_id_control_keys file pos source [] keys ;;
          from_id_control dc1 train_id (dict_set source source_data res) r
      end
  end.

Fixpoint from_id_instrument (dc : DataCollection) (train_id : Z)
    (res : TrainData) (sources : list string)
  : result (TrainData * DataCollection) :=
  match sources with
  | [] => Ok (res, dc)
  | source :: r =>
      found <- _find_data dc source train_id ;;
      match found with
      | None => from_id_instrument dc train_id (dict_set source [] res) r
      | Some (file, pos) =>
          '(kv, dc1) <- _keys_for_source dc source ;;
          keys <- keys_iter kv ;;
          '(source_data, dc2) <-
            from_id_instrument_keys dc1 file pos source [] keys ;;
          from_id_instrument dc2 train_id (dict_set source source_data res) r
      end
  end.

(** [train_from_id] on the collection itself ([devices=None]); the
    sources are those of the collection when the call starts. *)
Definition train_from_id_all (dc : DataCollection) (train_id : Z)
  : result ((Z * TrainData) * DataCollection) :=
  '(res, dc1) <- from_id_control dc train_id [] (control_sources dc) ;;
  '(res, dc2) <- from_id_instrument dc1 train_id res (instrument_sources dc) ;;
  Ok ((train_id, res), dc2).

(** [l[i]] for a Python list and an integer index. *)
Definition py_index {A} (l : list A) (i : Z) : result A :=
  let n := Z.of_nat (List.length l) in
  let j := if i <? 0 then i + n else i in
  if (j <? 0) || (n <=? j) then Err IndexError
  else item l (Z.to_nat j).

Section MoreReader.

Variable re_class : string -> option (ascii -> bool).

(** [train_from_id]: with [devices] the data is taken from the selected
    collection, which is then dropped; the receiver is returned as [select]
    left it. *)
Definition train_from_id (dc : DataCollection) (train_id : Z)
    (devices : option selection)
  : result ((Z * TrainData) * DataCollection) :=
  match devices with
  | Some sel =>
      '(selected, dc') <- select re_class dc sel "*" ;;
      '(r, _) <- train_from_id_all selected train_id ;;
      Ok (r, dc')
  | None => train_from_id_all dc train_id
  end.

Definition train_from_index (dc : DataCollection) (train_index : Z)
    (devices : option selection)
  : result ((Z * TrainData) * DataCollection) :=
  train_id <- py_index (train_ids dc) train_index ;;
  train_from_id dc train_id devices.

End MoreReader.

(** The segments registered for a source ([[]] when it has no entry). *)
Definition segments_of (sfm : list (string * list Segment)) (source : string)
  : list Segment :=
  match dict_get source sfm with Some l => l | None => [] end.

(** The character does not occur in the string. *)
Definition lacks (c : ascii) (s : string) : Prop :=
  ~ In c (list_ascii_of_string s).

(** What [train_from_id] stores under a key of an instrument source found
    at position [pos] of [file]: nothing when the count is 0, one row when
    it is 1, a block of rows otherwise. *)
Definition instrument_value (dc : DataCollection) (file : File) (pos : nat)
    (source key : string) : result (option value) :=
  '(firsts, counts) <- known_index dc file source (partition_head "." key) ;;
  first <- item firsts pos ;;
  count <- item counts pos ;;
  if count =? 0 then Ok None
  else
    ds <- dict_item (data_path "INSTRUMENT" source key) (f_data file) ;;
    if count =? 1
    then row <- item (ds_rows ds) (Z.to_nat first) ;; Ok (Some (VRow row))
    else Ok (Some (VBlock (firstn (Z.to_nat count)
                             (skipn (Z.to_nat first) (ds_rows ds))))).

(** Every entry of the iterator's dataset cache remembers a segment of its
    source together with the dataset of its key in that segment's file. *)
Definition cache_coherent (dc : DataCollection) (cache : DatasetsCache)
  : Prop :=
  forall s k tids f ds,
    dcache_get (s, k) cache = Some (tids, f, ds) ->
    (exists segs, dict_get s (_source_file_mapping dc) = Some segs /\
                  In (tids, f) segs) /\
    dict_get (data_path (if str_in s (control_sources dc)
                         then "CONTROL" else "INSTRUMENT") s k) (f_data f)
      = Some ds.

(** The keys grouped under a source in [selected_keys] ([defaultdict(set)]:
    a source not yet seen has the empty set). *)
Definition keys_of (d : list (string * list string)) (source : string)
  : list string :=
  match dict_get source d with Some ks => ks | None => [] end.

(** The source an entry of [METADATA/dataSourceId] names: the part after
    [CONTROL/], or the device and channel of an [INSTRUMENT/] entry; an
    empty entry names none. *)
Definition declared_source (entry : string) : option string :=
  if String.eqb entry "" then None
  else
    let category := partition_head "/" entry in
    let h5_source := partition_tail "/" entry in
    if String.eqb category "INSTRUMENT" then
      Some (partition_head ":" h5_source ++ ":"
            ++ partition_head "/" (partition_tail ":" h5_source))%string
    else if String.eqb category "CONTROL" then Some h5_source
    else None.

(** The file declares the source [x], in an entry of the given category. *)
Definition declares_in (category : string) (f : File) (x : string) : Prop :=
  exists entry, In entry (f_dataSourceId f) /\
                partition_head "/" entry = category /\
                declared_source entry = Some x.

Definition declares (f : File) (x : string) : Prop :=
  exists entry, In entry (f_dataSourceId f) /\ declared_source entry = Some x.

(** No source is registered with an empty list of segments. *)
Definition no_empty_entry (dc : DataCollection) : Prop :=
  forall source, dict_get source (_source_file_mapping dc) <> Some [].

(** ** What select may leave in the receiver *)





(** * Example runs

    Small files and collections on which the operations are evaluated. *)

(** The [re] module's reading of the bracket expressions that
    [fnmatch.translate] writes, without flags.  A backslash makes the next
    character literal ([translate] doubles every backslash and escapes a
    leading [^], so no letter or digit follows one); [x-y] is the range
    from [x] to [y], rejected when [y] is below [x], and a [-] that ends
    the expression is literal; a leading [^] negates. *)
Definition is_alnum (c : ascii) : bool :=
  let n := nat_of_ascii c in
  ((48 <=? n) && (n <=? 57) || (65 <=? n) && (n <=? 90)
   || (97 <=? n) && (n <=? 122))%nat.

Definition class_char (s : string) : option (ascii * string) :=
  match s with
  | EmptyString => None
  | String c r =>
      if Ascii.eqb c "\" then
        match r with
        | String d r' => if is_alnum d then None else Some (d, r')
        | EmptyString => None
        end
      else Some (c, r)
  end.

Fixpoint class_set (fuel : nat) (s : string) : option (ascii -> bool) :=
  match s with
  | EmptyString => Some (fun _ => false)
  | String _ _ =>
      match fuel with
      | O => None
      | S fuel' =>
          match class_char s with
          | None => None
          | Some (lo, r) =>
              match r with
              | String dash (String _ _ as r') =>
                  if Ascii.eqb dash "-" then
                    match class_char r' with
                    | None => None
                    | Some (hi, r3) =>
                        if (nat_of_ascii hi <? nat_of_ascii lo)%nat then None
                        else
                          option_map
                            (fun p c =>
                               ((nat_of_ascii lo <=? nat_of_ascii c)
                                && (nat_of_ascii c <=? nat_of_ascii hi))%nat
                               || p c)
                            (class_set fuel' r3)
                    end
                  else option_map (fun p c => Ascii.eqb c lo || p c)
                                  (class_set fuel' r)
              | _ => option_map (fun p c => Ascii.eqb c lo || p c)
                                (class_set fuel' r)
              end
          end
      end
  end.

Definition plain_class (stuff : string) : option (ascii -> bool) :=
  match stuff with
  | String c r =>
      if Ascii.eqb c "^"
      then option_map (fun p c => negb (p c)) (class_set (String.length r) r)
      else class_set (String.length stuff) stuff
  | EmptyString => None
  end.

(** A file with a gap in its train IDs: control source [X] with key
    [val.value], trains 10 and 12. *)
Definition file_gap : File := {|
  fid := 1;
  f_trainId := [10; 12; 0];
  f_dataSourceId := ["CONTROL/X"; ""];
  f_index := [];
  f_groups := [("/CONTROL/X", ["val/value"])];
  f_data := [("/CONTROL/X/val/value",
              {| ds_tail := []; ds_rows := [[7]; [8]; [0]] |})]
|}.

Definition run_gap : DataCollection := {|
  instrument_sources := [];
  control_sources := ["X"];
  train_ids := [10; 12];
  _source_file_mapping := [("X", [([10; 12], file_gap)])];
  _index_cache := [];
  _source_keys := []
|}.

(** Two files of one run, added out of order.  Control source [X] with key
    [val.value]; instrument source [Y:out] with group [image], which has no
    record for any train of either file. *)
Definition file_B : File := {|
  fid := 2;
  f_trainId := [103; 104];
  f_dataSourceId := ["CONTROL/X"; "INSTRUMENT/Y:out/image"];
  f_index := [("/INDEX/Y:out/image",
               {| ix_first := [0; 0]; ix_count := Some [0; 0];
                  ix_last := None; ix_status := None |})];
  f_groups := [("/CONTROL/X", ["val/value"]);
               ("/INSTRUMENT/Y:out", ["image/data"])];
  f_data := [("/CONTROL/X/val/value",
              {| ds_tail := []; ds_rows := [[4]; [5]] |});
             ("/INSTRUMENT/Y:out/image/data",
              {| ds_tail := [2%nat]; ds_rows := [] |})]
|}.

Definition file_A : File := {|
  fid := 3;
  f_trainId := [100; 101; 102];
  f_dataSourceId := ["CONTROL/X"; "INSTRUMENT/Y:out/image"];
  f_index := [("/INDEX/Y:out/image",
               {| ix_first := [0; 0; 0]; ix_count := Some [0; 0; 0];
                  ix_last := None; ix_status := None |})];
  f_groups := [("/CONTROL/X", ["val/value"]);
               ("/INSTRUMENT/Y:out", ["image/data"])];
  f_data := [("/CONTROL/X/val/value",
              {| ds_tail := []; ds_rows := [[1]; [2]; [3]] |});
             ("/INSTRUMENT/Y:out/image/data",
              {| ds_tail := [2%nat]; ds_rows := [] |})]
|}.

(** [file_B] added before [file_A]. *)
Definition run_BA : DataCollection := {|
  instrument_sources := ["Y:out"];
  control_sources := ["X"];
  train_ids := [100; 101; 102; 103; 104];
  _source_file_mapping :=
    [("X", [([103; 104], file_B); ([100; 101; 102], file_A)]);
     ("Y:out", [([103; 104], file_B); ([100; 101; 102], file_A)])];
  _index_cache := [];
  _source_keys := []
|}.

(** A collection whose source [X] has lost all its segments but keeps a
    key restriction. *)
Definition run_no_segments : DataCollection := {|
  instrument_sources := [];
  control_sources := ["X"];
  train_ids := [];
  _source_file_mapping := [("X", [])];
  _index_cache := [];
  _source_keys := [("X", KSet ["val.value"])]
|}.

(** Instrument source [Y:out], group [image]: one record per train in
    [file_single]; none, two and one record for the trains 10, 11 and 12 of
    [file_multi]. *)
Definition file_single : File := {|
  fid := 4;
  f_trainId := [1; 2];
  f_dataSourceId := ["INSTRUMENT/Y:out/image"];
  f_index := [("/INDEX/Y:out/image",
               {| ix_first := [0; 1]; ix_count := Some [1; 1];
                  ix_last := None; ix_status := None |})];
  f_groups := [("/INSTRUMENT/Y:out", ["image/data"; "image/pulseId"])];
  f_data := [("/INSTRUMENT/Y:out/image/data",
              {| ds_tail := [1%nat]; ds_rows := [[21]; [22]] |});
             ("/INSTRUMENT/Y:out/image/pulseId",
              {| ds_tail := [1%nat]; ds_rows := [[0]; [0]] |})]
|}.

Definition file_multi : File := {|
  fid := 5;
  f_trainId := [10; 11; 12];
  f_dataSourceId := ["INSTRUMENT/Y:out/image"];
  f_index := [("/INDEX/Y:out/image",
               {| ix_first := [0; 0; 2]; ix_count := Some [0; 2; 1];
                  ix_last := None; ix_status := None |})];
  f_groups := [("/INSTRUMENT/Y:out", ["image/data"; "image/pulseId"])];
  f_data := [("/INSTRUMENT/Y:out/image/data",
              {| ds_tail := [1%nat]; ds_rows := [[31]; [32]; [33]] |});
             ("/INSTRUMENT/Y:out/image/pulseId",
              {| ds_tail := [1%nat]; ds_rows := [[0]; [1]; [0]] |})]
|}.

Definition run_multi : DataCollection := {|
  instrument_sources := ["Y:out"];
  control_sources := [];
  train_ids := [1; 2; 10; 11; 12];
  _source_file_mapping :=
    [("Y:out", [([1; 2], file_single); ([10; 11; 12], file_multi)])];
  _index_cache := [];
  _source_keys := []
|}.





(** Control source [X] recorded for the trains 1 and 2, instrument source
    [Y:out] only for train 1. *)
Definition file_c : File := {|
  fid := 6;
  f_trainId := [1; 2];
  f_dataSourceId := ["CONTROL/X"];
  f_index := [];
  f_groups := [("/CONTROL/X", ["val/value"])];
  f_data := [("/CONTROL/X/val/value",
              {| ds_tail := []; ds_rows := [[7]; [8]] |})]
|}.

Definition file_i : File := {|
  fid := 7;
  f_trainId := [1];
  f_dataSourceId := ["INSTRUMENT/Y:out/image"];
  f_index := [("/INDEX/Y:out/image",
               {| ix_first := [0]; ix_count := Some [1];
                  ix_last := None; ix_status := None |})];
  f_groups := [("/INSTRUMENT/Y:out", ["image/data"])];
  f_data := [("/INSTRUMENT/Y:out/image/data",
              {| ds_tail := []; ds_rows := [[9]] |})]
|}.

Definition run_skip : DataCollection := {|
  instrument_sources := ["Y:out"];
  control_sources := ["X"];
  train_ids := [1; 2];
  _source_file_mapping := [("X", [([1; 2], file_c)]);
                           ("Y:out", [([1], file_i)])];
  _index_cache := [];
  _source_keys := []
|}.

(** * Further example runs *)

(** An older file: the index of [Y:out]/[image] has no [count] dataset;
    the second train has data on disk but a status of 0. *)
Definition file_old : File := {|
  fid := 8;
  f_trainId := [20; 21; 22];
  f_dataSourceId := ["INSTRUMENT/Y:out/image"];
  f_index := [("/INDEX/Y:out/image",
               {| ix_first := [0; 1; 2]; ix_count := None;
                  ix_last := Some [0; 1; 3]; ix_status := Some [1; 0; 1] |})];
  f_groups := [("/INSTRUMENT/Y:out", ["image/data"])];
  f_data := [("/INSTRUMENT/Y:out/image/data",
              {| ds_tail := []; ds_rows := [[41]; [42]; [43]; [44]] |})]
|}.

(** A file declaring a source of an unknown category after a valid one. *)
Definition file_bad : File := {|
  fid := 9;
  f_trainId := [1];
  f_dataSourceId := ["CONTROL/X"; "RAW/Z"];
  f_index := []; f_groups := []; f_data := []
|}.

(** [run_gap] once the keys of [X] have been restricted to [val.value]. *)
Definition run_gap_keys : DataCollection := {|
  instrument_sources := [];
  control_sources := ["X"];
  train_ids := [10; 12];
  _source_file_mapping := [("X", [([10; 12], file_gap)])];
  _index_cache := [];
  _source_keys := [("X", KSet ["val.value"])]
|}.

Definition run_old : DataCollection := {|
  instrument_sources := ["Y:out"];
  control_sources := [];
  train_ids := [20; 21; 22];
  _source_file_mapping := [("Y:out", [([20; 21; 22], file_old)])];
  _index_cache := [];
  _source_keys := []
|}.











(** Instrument source [Y:out] without a record in either of two files,
    whose datasets differ in their trailing shape; the file with the later
    train was added first. *)
Definition file_late : File := {|
  fid := 12;
  f_trainId := [3];
  f_dataSourceId := ["INSTRUMENT/Y:out/image"];
  f_index := [("/INDEX/Y:out/image",
               {| ix_first := [0]; ix_count := Some [0];
                  ix_last := None; ix_status := None |})];
  f_groups := [("/INSTRUMENT/Y:out", ["image/data"])];
  f_data := [("/INSTRUMENT/Y:out/image/data",
              {| ds_tail := [3%nat]; ds_rows := [] |})]
|}.

Definition file_early : File := {|
  fid := 13;
  f_trainId := [1; 2];
  f_dataSourceId := ["INSTRUMENT/Y:out/image"];
  f_index := [("/INDEX/Y:out/image",
               {| ix_first := [0; 0]; ix_count := Some [0; 0];
                  ix_last := None; ix_status := None |})];
  f_groups := [("/INSTRUMENT/Y:out", ["image/data"])];
  f_data := [("/INSTRUMENT/Y:out/image/data",
              {| ds_tail := [2%nat]; ds_rows := [] |})]
|}.

Definition run_empty : DataCollection := {|
  instrument_sources := ["Y:out"];
  control_sources := [];
  train_ids := [1; 2; 3];
  _source_file_mapping :=
    [("Y:out", [([3], file_late); ([1; 2], file_early)])];
  _index_cache := [];
  _source_keys := []
|}.
(** * Properties *)

(** ** Generic facts about the list models of sets and dictionaries *)

Lemma filter_none {A} (p : A -> bool) (l : list A) :
  (forall x, In x l -> p x = false) -> filter p l = [].
Proof.
  induction l as [|a l IH]; intros H; simpl; [reflexivity|].
  rewrite (H a (or_introl eq_refl)). apply IH. intros x Hx. apply H. now right.
Qed.

Lemma str_in_In (s : string) (l : list string) : str_in s l = true <-> In s l.
Proof.
  unfold str_in. rewrite existsb_exists. split.
  - intros [x [Hx E]]. apply String.eqb_eq in E. now subst.
  - intros H. exists s. split; [assumption|apply String.eqb_refl].
Qed.

Lemma Z_in_In (x : Z) (l : list Z) : Z_in x l = true <-> In x l.
Proof.
  unfold Z_in. rewrite existsb_exists. split.
  - intros [y [Hy E]]. apply Z.eqb_eq in E. now subst.
  - intros H. exists x. split; [assumption|apply Z.eqb_refl].
Qed.

(** ** select with a selection of an undocumented type *)

(** C10: [select] called with a selection that is neither a string, a set,
    a dict nor a list raises nothing: the unknown-type branch of
    [_expand_selection] builds a TypeError without raising it, the
    normalised selection is the empty set, and the collection returned has
    no sources, no registry, no cache, no keys and no train IDs (it is the
    freshly initialised collection); the receiver is left as it was. *)
Theorem select_unknown_type_returns_empty
    (re_class : string -> option (ascii -> bool))
    (dc : DataCollection) (key_glob : string) :
  _expand_selection re_class dc SelOther = Ok ([], dc) /\
  select re_class dc SelOther key_glob = Ok (new_collection, dc).
Proof.
  split; [reflexivity|].
  unfold select, new_collection; simpl.
  unfold set_inter, restrict_cache.
  rewrite !filter_none; try reflexivity; intros x _; try reflexivity.
  destruct x as [[[f s] g] v]; reflexivity.
Qed.

(** ** Train IDs to slice positions *)

Lemma run_gap_built : H5File file_gap = Ok run_gap.
Proof. reflexivity. Qed.

Lemma list_index_spec (x : Z) (l : list Z) (i : Z) :
  list_index x l = Some i ->
  0 <= i < Z.of_nat (List.length l) /\ nth (Z.to_nat i) l 0 = x /\
  forall j, (j < Z.to_nat i)%nat -> nth j l 0 <> x.
Proof.
  revert i. induction l as [|y l IH]; intros i H; simpl in H; [discriminate|].
  destruct (y =? x) eqn:E.
  - inversion H; subst. apply Z.eqb_eq in E. simpl. repeat split; lia.
  - destruct (list_index x l) as [k|]; [|discriminate].
    inversion H; subst. destruct (IH k eq_refl) as [Hr [Hn Hf]].
    apply Z.eqb_neq in E.
    replace (Z.to_nat (Z.succ k)) with (S (Z.to_nat k)) by lia.
    simpl List.length. repeat split; try lia; [exact Hn|].
    intros [|j] Hj; simpl; [exact E|]. apply Hf. lia.
Qed.

Lemma list_index_None (x : Z) (l : list Z) :
  list_index x l = None <-> ~ In x l.
Proof.
  induction l as [|y l IH]; simpl; [tauto|].
  destruct (y =? x) eqn:E.
  - apply Z.eqb_eq in E. split; [discriminate|]. intros H. exfalso. apply H. now left.
  - apply Z.eqb_neq in E. destruct (list_index x l); simpl.
    + split; [discriminate|]. intros H. exfalso.
      assert (Some z = None -> False) by discriminate.
      apply H. right. destruct (in_dec Z.eq_dec x l) as [i|n]; [exact i|].
      exfalso. apply H0. now apply IH.
    + split; [|reflexivity]. intros _ [H|H]; [congruence|]. now apply IH.
Qed.

(** An endpoint that is a known train ID resolves to its position. *)
Lemma tid_present_exact (tid : tid_value) (l : list Z) (stop : bool) :
  In (tid_Z tid) l ->
  exists i, _tid_to_slice_ix (Some tid) l stop = Ok (Some i) /\
            nth (Z.to_nat i) l 0 = tid_Z tid /\
            0 <= i < Z.of_nat (List.length l).
Proof.
  intros H. unfold _tid_to_slice_ix.
  destruct (list_index (tid_Z tid) l) as [i|] eqn:E.
  - exists i. destruct (list_index_spec _ _ _ E) as [Hr [Hn _]]. auto.
  - apply list_index_None in E. contradiction.
Qed.

(** An unknown endpoint below the first train ID: the beginning for a
    start, the "before this run" error for a stop. *)
Lemma tid_below_first (tid : tid_value) (first : Z) (l : list Z) :
  ~ In (tid_Z tid) (first :: l) -> tid_Z tid < first ->
  _tid_to_slice_ix (Some tid) (first :: l) false = Ok None /\
  _tid_to_slice_ix (Some tid) (first :: l) true = Err ValueError_before_run.
Proof.
  intros Hn Hlt. apply list_index_None in Hn. unfold _tid_to_slice_ix.
  rewrite Hn. apply Z.ltb_lt in Hlt. rewrite Hlt. split; reflexivity.
Qed.

(** An unknown endpoint above the last train ID: the end for a stop, the
    "after this run" error for a start. *)
Lemma tid_above_last (tid : tid_value) (first : Z) (l : list Z) :
  ~ In (tid_Z tid) (first :: l) -> first <= tid_Z tid ->
  last (first :: l) first < tid_Z tid ->
  _tid_to_slice_ix (Some tid) (first :: l) true = Ok None /\
  _tid_to_slice_ix (Some tid) (first :: l) false = Err ValueError_after_run.
Proof.
  intros Hn Hge Hlt. apply list_index_None in Hn. unfold _tid_to_slice_ix.
  rewrite Hn. apply Z.ltb_ge in Hge. rewrite Hge.
  assert (E : (tid_Z tid >? last (first :: l) first) = true)
    by (apply Z.gtb_lt; exact Hlt).
  rewrite E. split; reflexivity.
Qed.

Lemma first_greater_spec (x : Z) (l : list Z) (i : Z) :
  first_greater x l = Some i ->
  0 <= i < Z.of_nat (List.length l) /\ x < nth (Z.to_nat i) l 0 /\
  forall j, (j < Z.to_nat i)%nat -> nth j l 0 <= x.
Proof.
  revert i. induction l as [|y l IH]; intros i H; simpl in H; [discriminate|].
  destruct (x <? y) eqn:E.
  - inversion H; subst. apply Z.ltb_lt in E. simpl. repeat split; lia.
  - destruct (first_greater x l) as [k|]; [|discriminate].
    inversion H; subst. destruct (IH k eq_refl) as [Hr [Hn Hf]].
    apply Z.ltb_ge in E.
    replace (Z.to_nat (Z.succ k)) with (S (Z.to_nat k)) by lia.
    simpl List.length. repeat split; try lia; [exact Hn|].
    intros [|j] Hj; simpl; [exact E|]. apply Hf. lia.
Qed.

Lemma first_greater_exists (x : Z) (l : list Z) (d : Z) :
  l <> [] -> x <= last l d -> ~ In x l -> exists i, first_greater x l = Some i.
Proof.
  induction l as [|y l IH]; intros Hne Hle Hn; [congruence|].
  simpl. destruct (x <? y) eqn:E; [eauto|].
  apply Z.ltb_ge in E. destruct l as [|z l].
  - simpl in Hle. exfalso. apply Hn. left. lia.
  - destruct IH as [i Hi]; [discriminate|exact Hle|intros H; apply Hn; now right|].
    rewrite Hi. simpl. eauto.
Qed.

(** A numpy endpoint in a gap resolves to the position of the first train
    ID greater than it. *)
Lemma tid_gap_numpy (z first : Z) (l : list Z) (stop : bool) :
  ~ In z (first :: l) -> first <= z -> z <= last (first :: l) first ->
  exists i, _tid_to_slice_ix (Some (NpInt z)) (first :: l) stop = Ok (Some i) /\
            z < nth (Z.to_nat i) (first :: l) 0 /\
            forall j, (j < Z.to_nat i)%nat -> nth j (first :: l) 0 <= z.
Proof.
  intros Hn Hge Hle.
  destruct (first_greater_exists z (first :: l) first) as [i Hi];
    [discriminate|exact Hle|exact Hn|].
  exists i. destruct (first_greater_spec _ _ _ Hi) as [_ [H1 H2]].
  split; [|split; assumption].
  apply list_index_None in Hn. unfold _tid_to_slice_ix. simpl tid_Z.
  rewrite Hn. apply Z.ltb_ge in Hge. rewrite Hge.
  assert (E : (z >? last (first :: l) first) = false).
  { rewrite Z.gtb_ltb. apply Z.ltb_ge. exact Hle. }
  rewrite E, Hi. reflexivity.
Qed.

(** C2: the endpoint 11 of a by-ID range over the run with train IDs
    [10; 12] lies in a gap and should resolve to position 1, the position
    of train 12.  Given as a Python int, as in [by_id[11:]], the code
    compares the list of train IDs with the integer and raises TypeError,
    for a start and for a stop endpoint alike, and so does [select_trains];
    only a numpy integer resolves to position 1. *)
Theorem tid_gap_python_int_raises :
  _tid_to_slice_ix (Some (PyInt 11)) (train_ids run_gap) false = Err TypeError /\
  _tid_to_slice_ix (Some (PyInt 11)) (train_ids run_gap) true = Err TypeError /\
  select_trains run_gap (by_id (Some (PyInt 11)) None None) = Err TypeError /\
  _tid_to_slice_ix (Some (NpInt 11)) (train_ids run_gap) false = Ok (Some 1) /\
  first_greater 11 (train_ids run_gap) = Some 1.
Proof. repeat split. Qed.

(** ** Expanding train IDs by their counts *)

Lemma firstn_In_full {A} (n : nat) (l : list A) (x : A) :
  In x (firstn n l) -> In x l.
Proof.
  intros H. rewrite <- (firstn_skipn n l). apply in_or_app. now left.
Qed.

Lemma to_intp_small (c : Z) : 0 <= c < 2 ^ 63 -> to_intp c = c.
Proof.
  intros H. unfold to_intp, two64.
  rewrite Z.mod_small by lia.
  destruct (c >=? 2 ^ 63) eqn:E; [|reflexivity].
  apply Z.geb_le in E. lia.
Qed.

Lemma map_to_intp_small (l : list Z) :
  Forall (fun c => 0 <= c < 2 ^ 63) l -> map to_intp l = l.
Proof.
  induction 1 as [|c l Hc _ IH]; simpl; [reflexivity|].
  now rewrite to_intp_small, IH.
Qed.

Lemma np_repeat_nonneg (tids counts : list Z) :
  Forall (fun c => 0 <= c) counts ->
  List.length tids = List.length counts ->
  np_repeat tids counts = Ok (expand_labels tids counts).
Proof.
  revert counts. induction tids as [|t tids IH]; intros [|c counts] HF HL;
    simpl in *; try reflexivity; try discriminate.
  inversion HF; subst.
  destruct (c <? 0) eqn:E; [apply Z.ltb_lt in E; lia|].
  rewrite IH by (auto; lia). reflexivity.
Qed.

Lemma expand_labels_In (tids counts : list Z) (x : Z) :
  In x (expand_labels tids counts) -> In x tids.
Proof.
  revert counts. induction tids as [|t tids IH]; intros [|c counts] H;
    simpl in *; try contradiction.
  apply in_app_or in H. destruct H as [H|H].
  - left. symmetry. eapply repeat_spec; eauto.
  - right. eapply IH; eauto.
Qed.

Lemma count_occ_repeat_other (t x : Z) (n : nat) :
  t <> x -> count_occ Z.eq_dec (repeat t n) x = O.
Proof.
  intros H. induction n; simpl; [reflexivity|].
  destruct (Z.eq_dec t x); [contradiction|assumption].
Qed.

Lemma count_occ_repeat_same (t : Z) (n : nat) :
  count_occ Z.eq_dec (repeat t n) t = n.
Proof.
  induction n; simpl; [reflexivity|].
  destruct (Z.eq_dec t t); [now rewrite IHn|contradiction].
Qed.

Lemma rederive_expand (tids counts : list Z) :
  NoDup tids -> Forall (fun c => 0 <= c) counts ->
  List.length tids = List.length counts ->
  rederive_counts tids (expand_labels tids counts) = counts.
Proof.
  unfold rederive_counts. intros ND. revert counts.
  induction ND as [|t tids Hnot ND IH]; intros [|c counts] HF HL;
    simpl in *; try reflexivity; try discriminate.
  inversion HF; subst. f_equal.
  - rewrite count_occ_app, count_occ_repeat_same.
    rewrite (proj1 (count_occ_not_In Z.eq_dec _ t)); [lia|].
    intros H. apply Hnot. eapply expand_labels_In; eauto.
  - transitivity (map (fun x => Z.of_nat
                   (count_occ Z.eq_dec (expand_labels tids counts) x)) tids).
    + apply map_ext_in. intros x Hx. f_equal.
      rewrite count_occ_app, count_occ_repeat_other; [reflexivity|].
      intros ->. contradiction.
    + apply IH; auto; lia.
Qed.

(** C4 (as stated) fails when a train ID occurs twice: the counts [1; 2]
    and [2; 1] over the train IDs [5; 5] expand to the same labels, so no
    re-derivation from the labels can recover both, and counting the
    occurrences of each train ID gives [3; 3]. *)
Lemma expand_duplicate_ids_not_recoverable :
  _expand_trainids [0; 1] [1; 2] [5; 5] = Ok [5; 5; 5] /\
  _expand_trainids [0; 2] [2; 1] [5; 5] = Ok [5; 5; 5] /\
  rederive_counts [5; 5] [5; 5; 5] <> [1; 2].
Proof. repeat split. discriminate. Qed.

(** C4 (amended): for counts that are non-negative as [np.intp] values and
    train IDs whose retained prefix has no duplicates, [_expand_trainids]
    truncates both arrays to the shorter length [n] and repeats each train
    ID its count times (none for a count of 0); re-deriving the counts from
    the labels gives back the truncated counts. *)
Theorem expand_trainids_recovers_counts (first counts trainIds : list Z) :
  let n := Nat.min (List.length counts) (List.length trainIds) in
  Forall (fun c => 0 <= c < 2 ^ 63) counts ->
  NoDup (firstn n trainIds) ->
  exists labels,
    _expand_trainids first counts trainIds = Ok labels /\
    labels = expand_labels (firstn n trainIds) (firstn n counts) /\
    rederive_counts (firstn n trainIds) labels = firstn n counts.
Proof.
  intros n HF ND.
  assert (HF' : Forall (fun c => 0 <= c) (firstn n counts)).
  { apply Forall_forall. intros c Hc.
    rewrite Forall_forall in HF.
    assert (In c counts) by (eapply firstn_In_full; eauto).
    apply HF in H. lia. }
  assert (HL : List.length (firstn n trainIds) = List.length (firstn n counts)).
  { rewrite !length_firstn. subst n. lia. }
  exists (expand_labels (firstn n trainIds) (firstn n counts)).
  split; [|split; [reflexivity|]].
  - unfold _expand_trainids. fold n.
    rewrite map_to_intp_small by assumption.
    apply np_repeat_nonneg; assumption.
  - apply rederive_expand; assumption.
Qed.

(** The expansion of the trains [10; 11; 12] with counts [0; 2; 1]. *)
Lemma expand_trainids_recovers_counts_witness :
  exists labels,
    _expand_trainids [0; 0; 2] [0; 2; 1] [10; 11; 12] = Ok labels /\
    labels = [11; 11; 12] /\
    rederive_counts [10; 11; 12] labels = [0; 2; 1].
Proof.
  apply (expand_trainids_recovers_counts [0; 0; 2] [0; 2; 1] [10; 11; 12]).
  - repeat constructor; lia.
  - simpl. repeat constructor; simpl; intuition discriminate.
Defined.

(** ** The run-level train-ID list *)

Lemma insert_uniq_In (x y : Z) (l : list Z) :
  In y (insert_uniq x l) <-> y = x \/ In y l.
Proof.
  induction l as [|z l IH]; simpl; [intuition|].
  destruct (x <? z) eqn:E1; [simpl; intuition|].
  destruct (x =? z) eqn:E2.
  - apply Z.eqb_eq in E2. subst. simpl. intuition.
  - simpl. rewrite IH. intuition.
Qed.

Lemma sorted_set_In (y : Z) (l : list Z) : In y (sorted_set l) <-> In y l.
Proof.
  induction l as [|x l IH]; simpl; [tauto|].
  rewrite insert_uniq_In, IH. intuition.
Qed.

Lemma insert_uniq_sorted (x : Z) (l : list Z) :
  strictly_increasing l -> strictly_increasing (insert_uniq x l).
Proof.
  unfold strictly_increasing.
  induction 1 as [|z l Hs IH Hf]; simpl.
  - repeat constructor.
  - destruct (x <? z) eqn:E1.
    + apply Z.ltb_lt in E1. constructor; [constructor; assumption|].
      constructor; [assumption|].
      eapply Forall_impl; [|exact Hf]. simpl. intros; lia.
    + destruct (x =? z) eqn:E2; [constructor; assumption|].
      apply Z.ltb_ge in E1. apply Z.eqb_neq in E2.
      constructor; [assumption|].
      apply Forall_forall. intros y Hy. apply insert_uniq_In in Hy.
      destruct Hy as [->|Hy]; [lia|].
      rewrite Forall_forall in Hf. now apply Hf.
Qed.

Lemma sorted_set_sorted (l : list Z) : strictly_increasing (sorted_set l).
Proof.
  induction l as [|x l IH]; simpl; [constructor|].
  now apply insert_uniq_sorted.
Qed.

Lemma strictly_increasing_NoDup (l : list Z) :
  strictly_increasing l -> NoDup l.
Proof.
  induction 1 as [|z l Hs IH Hf]; constructor; [|assumption].
  intros H. rewrite Forall_forall in Hf. apply Hf in H. lia.
Qed.

(** A strictly increasing list is determined by its elements. *)
Lemma strictly_increasing_unique (l m : list Z) :
  strictly_increasing l -> strictly_increasing m ->
  (forall x, In x l <-> In x m) -> l = m.
Proof.
  intros Hl. revert m. induction Hl as [|a l Hs IH Hf]; intros m Hm Heq.
  - destruct m as [|b m]; [reflexivity|].
    exfalso. apply (Heq b). now left.
  - destruct m as [|b m]; [exfalso; apply (Heq a); now left|].
    inversion Hm as [|? ? Hsm Hfm]; subst.
    rewrite Forall_forall in Hf, Hfm.
    assert (a = b).
    { assert (Ha : In a (b :: m)) by (apply Heq; now left).
      assert (Hb : In b (a :: l)) by (apply Heq; now left).
      destruct Ha as [Ha|Ha]; [congruence|].
      destruct Hb as [Hb|Hb]; [congruence|].
      apply Hf in Hb. apply Hfm in Ha. lia. }
    subst b. f_equal. apply IH; [assumption|].
    intros x. split; intros Hx.
    + assert (Hx' : In x (a :: m)) by (apply Heq; now right).
      destruct Hx' as [->|Hx']; [|assumption].
      apply Hf in Hx. lia.
    + assert (Hx' : In x (a :: l)) by (apply Heq; now right).
      destruct Hx' as [->|Hx']; [|assumption].
      apply Hfm in Hx. lia.
Qed.

Lemma sorted_set_ext (l m : list Z) :
  (forall x, In x l <-> In x m) -> sorted_set l = sorted_set m.
Proof.
  intros H. apply strictly_increasing_unique; try apply sorted_set_sorted.
  intros x. rewrite !sorted_set_In. apply H.
Qed.

Lemma ids_dict_set_new (k : string) (v : list Segment)
    (d : list (string * list Segment)) :
  dict_get k d = None ->
  mapping_train_ids (dict_set k v d) = mapping_train_ids d ++ flat_map fst v.
Proof.
  unfold mapping_train_ids.
  induction d as [|[k' v'] d IH]; simpl; intros H.
  - now rewrite app_nil_r.
  - destruct (String.eqb k k'); [discriminate|].
    simpl. rewrite IH by assumption. now rewrite app_assoc.
Qed.

Lemma ids_dict_set_append (k : string) (old : list Segment) (seg : Segment)
    (d : list (string * list Segment)) (t : Z) :
  dict_get k d = Some old ->
  In t (mapping_train_ids (dict_set k (old ++ [seg]) d)) <->
  In t (mapping_train_ids d) \/ In t (fst seg).
Proof.
  unfold mapping_train_ids.
  induction d as [|[k' v'] d IH]; simpl; intros H; [discriminate|].
  destruct (String.eqb k k').
  - inversion H; subst. simpl. rewrite flat_map_app. simpl.
    rewrite !in_app_iff. simpl. intuition auto.
  - simpl. rewrite !in_app_iff, IH by assumption. tauto.
Qed.

Lemma ids_register_segment (seg : Segment)
    (sfm : list (string * list Segment)) (source : string) (t : Z) :
  In t (mapping_train_ids (register_segment seg sfm source)) <->
  In t (mapping_train_ids sfm) \/ In t (fst seg).
Proof.
  unfold register_segment. destruct (dict_get source sfm) as [old|] eqn:E.
  - now apply ids_dict_set_append.
  - rewrite ids_dict_set_new by assumption. rewrite in_app_iff. simpl.
    rewrite app_nil_r. tauto.
Qed.

Lemma ids_register_all (seg : Segment) (sources : list string)
    (sfm : list (string * list Segment)) (t : Z) :
  In t (mapping_train_ids (fold_left (register_segment seg) sources sfm)) <->
  In t (mapping_train_ids sfm) \/ (sources <> [] /\ In t (fst seg)).
Proof.
  revert sfm. induction sources as [|s r IH]; intros sfm; simpl.
  - intuition congruence.
  - rewrite IH, ids_register_segment. intuition congruence.
Qed.

Lemma set_add_nonempty (s : string) (l : list string) : set_add s l <> [].
Proof.
  unfold set_add. destruct (str_in s l) eqn:E.
  - intros ->. discriminate.
  - destruct l; discriminate.
Qed.

Lemma add_source_sources (st st' : add_state) (s : string) :
  add_source st s = Ok st' ->
  (as_sources st <> [] \/ s <> "") -> as_sources st' <> [].
Proof.
  unfold add_source. intros H Hne.
  destruct (String.eqb s "") eqn:E.
  - inversion H; subst. apply String.eqb_eq in E.
    destruct Hne; [assumption|contradiction].
  - destruct (partition "/" s) as [[category found] h5_source].
    destruct (String.eqb category "INSTRUMENT").
    + destruct (partition ":" h5_source) as [[device f2] chan_grp].
      destruct (partition "/" chan_grp) as [[chan f3] group].
      inversion H; subst. simpl. apply set_add_nonempty.
    + destruct (String.eqb category "CONTROL"); [|discriminate].
      inversion H; subst. simpl. apply set_add_nonempty.
Qed.

Lemma add_sources_sources (l : list string) (st st' : add_state) :
  add_sources st l = Ok st' ->
  (as_sources st <> [] \/ exists s, In s l /\ s <> "") ->
  as_sources st' <> [].
Proof.
  revert st. induction l as [|s r IH]; intros st H Hne; simpl in H.
  - inversion H; subst. destruct Hne as [?|[s [[] _]]]. assumption.
  - destruct (add_source st s) as [st1|] eqn:E; [|discriminate]. simpl in H.
    apply (IH st1 H).
    destruct Hne as [Hne|[x [[->|Hx] Hx']]].
    + left. eapply add_source_sources; eauto.
    + left. eapply add_source_sources; eauto.
    + right. eauto.
Qed.

(** [add_file] always leaves a strictly increasing train-ID list, and keeps
    it equal to the union of the registry when the file declares a source. *)
Lemma add_file_train_ids (dc dc' : DataCollection) (f : File) :
  add_file dc f = Ok dc' ->
  strictly_increasing (train_ids dc') /\
  (ids_from_registry dc -> declares_a_source f -> ids_from_registry dc').
Proof.
  unfold add_file. intros H.
  destruct (add_sources _ (f_dataSourceId f)) as [st|] eqn:E; [|discriminate].
  simpl in H. inversion H; subst; clear H. simpl. split.
  - apply sorted_set_sorted.
  - unfold ids_from_registry. simpl. intros Hinv Hdecl.
    apply sorted_set_ext. intros x.
    rewrite ids_register_all, in_app_iff, Hinv, sorted_set_In. simpl.
    assert (as_sources st <> []).
    { eapply add_sources_sources; [exact E|]. right. exact Hdecl. }
    tauto.
Qed.

(** Inverting one [bind] of a successful computation. *)
Ltac bind_ok H :=
  match type of H with
  | bind ?c _ = Ok _ =>
      let E := fresh "E" in
      destruct c eqn:E; cbn [bind] in H; [|discriminate H]
  end.

(** Whatever the receiver, the collection [select] returns has the train
    IDs of its own registry. *)
Lemma select_train_ids (re_class : string -> option (ascii -> bool))
    (dc res dc' : DataCollection) (sel : selection) (key_glob : string) :
  select re_class dc sel key_glob = Ok (res, dc') ->
  ids_from_registry res /\ strictly_increasing (train_ids res).
Proof.
  unfold select. intros H.
  bind_ok H. destruct a as [s1 dc1].
  cbn [_expand_selection bind] in H.
  bind_ok H. inversion H; subst; clear H.
  unfold ids_from_registry. simpl. split; [reflexivity|apply sorted_set_sorted].
Qed.

(** *** Slices *)

Lemma adjust_bound_range (len step b : Z) :
  0 <= len ->
  (0 < step -> 0 <= adjust_bound len step b <= len) /\
  (step < 0 -> -1 <= adjust_bound len step b <= len - 1).
Proof.
  intros Hlen. unfold adjust_bound.
  destruct (b <? 0) eqn:E1; [apply Z.ltb_lt in E1|apply Z.ltb_ge in E1].
  - destruct (b + len <? 0) eqn:E2;
      [apply Z.ltb_lt in E2|apply Z.ltb_ge in E2];
      destruct (step <? 0) eqn:E3;
      try apply Z.ltb_lt in E3; try apply Z.ltb_ge in E3; lia.
  - destruct (b >=? len) eqn:E2.
    + apply Z.geb_le in E2.
      destruct (step <? 0) eqn:E3;
        try apply Z.ltb_lt in E3; try apply Z.ltb_ge in E3; lia.
    + rewrite Z.geb_leb in E2. apply Z.leb_gt in E2. lia.
Qed.

(** Every position a slice visits is a position of the list. *)
Lemma slice_indices_in_range (sl : pyslice) (len start step n : Z) :
  0 <= len ->
  slice_indices sl len = Ok (start, step, n) ->
  step <> 0 /\ (sl_step sl = None -> step = 1) /\
  (forall s, sl_step sl = Some s -> step = s) /\
  forall k, 0 <= k < n -> 0 <= start + k * step < len.
Proof.
  intros Hlen. unfold slice_indices.
  set (st := match sl_step sl with Some s => s | None => 1 end).
  destruct (st =? 0) eqn:E0; [discriminate|]. apply Z.eqb_neq in E0.
  intros H. inversion H as [[Hs Hst Hn]]; clear H.
  assert (Hst' : st = step) by exact Hst.
  split; [congruence|]. split; [|split].
  - intros Hnone. subst st. rewrite Hnone in Hst'. congruence.
  - intros s Hsome. subst st. rewrite Hsome in Hst'. congruence.
  - clear Hst'. rewrite Hst in *. clear Hst.
    set (a := match sl_start sl with
              | Some s => adjust_bound len step s
              | None => if step <? 0 then len - 1 else 0 end) in *.
    set (b := match sl_stop sl with
              | Some s => adjust_bound len step s
              | None => if step <? 0 then -1 else len end) in *.
    subst start.
    destruct (step <? 0) eqn:E; [apply Z.ltb_lt in E|apply Z.ltb_ge in E].
    + assert (Ha : -1 <= a <= len - 1).
      { subst a. destruct (sl_start sl); [|lia].
        now apply adjust_bound_range. }
      assert (Hb : -1 <= b <= len - 1).
      { subst b. destruct (sl_stop sl); [|lia].
        now apply adjust_bound_range. }
      destruct (b <? a) eqn:E2; [apply Z.ltb_lt in E2|intros; lia].
      intros k Hk. subst n.
      assert (Hd := Z.mul_div_le (a - b - 1) (- step) ltac:(lia)).
      assert (0 <= (a - b - 1) / - step) by (apply Z.div_pos; lia).
      nia.
    + assert (0 < step) by lia.
      assert (Ha : 0 <= a <= len).
      { subst a. destruct (sl_start sl); [|lia].
        now apply adjust_bound_range. }
      assert (Hb : 0 <= b <= len).
      { subst b. destruct (sl_stop sl); [|lia].
        now apply adjust_bound_range. }
      destruct (a <? b) eqn:E2; [apply Z.ltb_lt in E2|intros; lia].
      intros k Hk. subst n.
      assert (Hd := Z.mul_div_le (b - a - 1) step ltac:(lia)).
      assert (0 <= (b - a - 1) / step) by (apply Z.div_pos; lia).
      nia.
Qed.

(** A slice of a list only holds elements of the list. *)
Lemma list_slice_In (l r : list Z) (sl : pyslice) (t : Z) :
  list_slice l sl = Ok r -> In t r -> In t l.
Proof.
  unfold list_slice. intros H Ht. bind_ok H. destruct a as [[start step] n].
  inversion H; subst; clear H.
  apply in_map_iff in Ht. destruct Ht as [k [<- Hk]]. apply in_seq in Hk.
  destruct (slice_indices_in_range _ _ _ _ _ (Nat2Z.is_nonneg _) E)
    as [_ [_ [_ Hr]]].
  apply nth_In. specialize (Hr (Z.of_nat k)). lia.
Qed.

Lemma strictly_increasing_nth (l : list Z) (i j : nat) :
  strictly_increasing l -> (i < j)%nat -> (j < List.length l)%nat ->
  nth i l 0 < nth j l 0.
Proof.
  intros Hs. revert i j. induction Hs as [|a l Hs IH Hf]; intros i j Hij Hj.
  - simpl in Hj. lia.
  - destruct j as [|j]; [lia|]. simpl in Hj. destruct i as [|i]; simpl.
    + rewrite Forall_forall in Hf. apply Hf. apply nth_In. lia.
    + apply IH; lia.
Qed.

Lemma map_seq_increasing (f : nat -> Z) (n s : nat) :
  (forall i j, (s <= i < j)%nat -> (j < s + n)%nat -> f i < f j) ->
  strictly_increasing (map f (seq s n)).
Proof.
  revert s. induction n as [|n IH]; intros s H; simpl; [constructor|].
  constructor.
  - apply IH. intros i j Hij Hj. apply H; lia.
  - apply Forall_forall. intros y Hy. apply in_map_iff in Hy.
    destruct Hy as [k [<- Hk]]. apply in_seq in Hk. apply H; lia.
Qed.

(** With a positive step a slice of a strictly increasing list is strictly
    increasing. *)
Lemma list_slice_increasing (l r : list Z) (sl : pyslice) :
  strictly_increasing l ->
  match sl_step sl with Some s => 0 < s | None => True end ->
  list_slice l sl = Ok r -> strictly_increasing r.
Proof.
  unfold list_slice. intros Hs Hstep H. bind_ok H.
  destruct a as [[start step] n]. inversion H; subst; clear H.
  destruct (slice_indices_in_range _ _ _ _ _ (Nat2Z.is_nonneg _) E)
    as [_ [Hnone [Hsome Hr]]].
  assert (Hpos : 0 < step).
  { destruct (sl_step sl) as [s|]; [rewrite (Hsome s eq_refl)|rewrite Hnone];
      auto; lia. }
  apply map_seq_increasing. intros i j Hij Hj.
  assert (Hi := Hr (Z.of_nat i) ltac:(lia)).
  assert (Hj' := Hr (Z.of_nat j) ltac:(lia)).
  apply strictly_increasing_nth; [assumption| |lia].
  apply Z2Nat.inj_lt; nia.
Qed.

(** *** The registry after select_trains *)

Lemma mapping_train_ids_In (sfm : list (string * list Segment)) (t : Z) :
  In t (mapping_train_ids sfm) <->
  exists source segs seg,
    In (source, segs) sfm /\ In seg segs /\ In t (fst seg).
Proof.
  unfold mapping_train_ids. rewrite in_flat_map. split.
  - intros [[source segs] [He Ht]]. simpl in Ht. apply in_flat_map in Ht.
    destruct Ht as [seg [Hseg Ht]]. eauto 6.
  - intros [source [segs [seg [He [Hseg Ht]]]]].
    exists (source, segs). split; [assumption|]. simpl.
    apply in_flat_map. eauto.
Qed.

Lemma retain_segments_In (new_ids : list Z)
    (sfm : list (string * list Segment)) (source : string)
    (segs : list Segment) :
  In (source, segs) (retain_segments new_ids sfm) <->
  exists all, In (source, all) sfm /\ segs <> [] /\
              segs = filter (fun seg => intersects (fst seg) new_ids) all.
Proof.
  unfold retain_segments. rewrite in_flat_map. split.
  - intros [[s all] [He H]]. simpl in H.
    destruct (filter _ all) as [|x r] eqn:E; [contradiction|].
    destruct H as [H|[]]. inversion H; subst. exists all.
    split; [assumption|]. split; [discriminate|symmetry; exact E].
  - intros [all [He [Hne ->]]]. exists (source, all). split; [assumption|].
    simpl.
    destruct (filter (fun seg => intersects (fst seg) new_ids) all)
      as [|x r] eqn:E; [exfalso; apply Hne; try exact E; reflexivity|].
    now left.
Qed.

Lemma intersects_true (a b : list Z) (t : Z) :
  In t a -> In t b -> intersects a b = true.
Proof.
  intros Ha Hb. unfold intersects. apply existsb_exists. exists t.
  split; [assumption|]. now apply Z_in_In.
Qed.

Lemma intersects_common (a b : list Z) :
  intersects a b = true <-> exists t, In t a /\ In t b.
Proof.
  unfold intersects. rewrite existsb_exists.
  split; intros [t [Ha Hb]]; exists t; (split; [assumption|]);
    now apply Z_in_In.
Qed.

(** The segments [select_trains] retains are segments of the receiver, and
    every new train ID found in the receiver's registry is in one of them. *)
Lemma retain_segments_ids (new_ids : list Z)
    (sfm : list (string * list Segment)) (t : Z) :
  (In t (mapping_train_ids (retain_segments new_ids sfm)) ->
   In t (mapping_train_ids sfm)) /\
  (In t new_ids -> In t (mapping_train_ids sfm) ->
   In t (mapping_train_ids (retain_segments new_ids sfm))).
Proof.
  rewrite !mapping_train_ids_In. split.
  - intros [source [segs [seg [He [Hseg Ht]]]]].
    apply retain_segments_In in He. destruct He as [all [Hall [_ ->]]].
    apply filter_In in Hseg. destruct Hseg as [Hseg _]. eauto 6.
  - intros Hnew [source [all [seg [He [Hseg Ht]]]]].
    assert (Hf : In seg (filter (fun s => intersects (fst s) new_ids) all)).
    { apply filter_In. split; [assumption|].
      eapply intersects_true; eauto. }
    exists source, (filter (fun s => intersects (fst s) new_ids) all), seg.
    split; [|split; assumption].
    apply retain_segments_In. exists all. split; [assumption|].
    split; [|reflexivity]. intros Hnil. rewrite Hnil in Hf. contradiction.
Qed.

Lemma select_trains_fields (dc res : DataCollection) (tr : train_range) :
  select_trains dc tr = Ok res ->
  exists sl,
    match tr with
    | by_id start stop step =>
        exists a b,
          _tid_to_slice_ix start (train_ids dc) false = Ok a /\
          _tid_to_slice_ix stop (train_ids dc) true = Ok b /\
          sl = {| sl_start := a; sl_stop := b; sl_step := step |}
    | by_index value => sl = value
    | OtherRange => False
    end /\
    list_slice (train_ids dc) sl = Ok (train_ids res) /\
    sl_step sl = range_step tr /\
    _source_file_mapping res =
      retain_segments (train_ids res) (_source_file_mapping dc).
Proof.
  unfold select_trains. intros H. bind_ok H. bind_ok H. bind_ok H.
  inversion H; subst; clear H. simpl. exists a.
  assert (Hr : match tr with
               | by_id start stop step =>
                   exists x y,
                     _tid_to_slice_ix start (train_ids dc) false = Ok x /\
                     _tid_to_slice_ix stop (train_ids dc) true = Ok y /\
                     a = {| sl_start := x; sl_stop := y; sl_step := step |}
               | by_index value => a = value
               | OtherRange => False
               end /\ sl_step a = range_step tr).
  { destruct tr as [start stop step|value|]; simpl in *.
    - destruct (_tid_to_slice_ix start (train_ids dc) false) as [x|] eqn:Ex;
        [|discriminate].
      destruct (_tid_to_slice_ix stop (train_ids dc) true) as [y|] eqn:Ey;
        [|discriminate].
      cbn [bind] in E. inversion E; subst. split; [|reflexivity].
      exists x, y. auto.
    - inversion E; subst. auto.
    - discriminate. }
  destruct Hr as [Hr Hstep]. auto.
Qed.

Lemma add_files_train_ids (fs : list File) (dc dc' : DataCollection) :
  add_files dc fs = Ok dc' ->
  ids_from_registry dc -> strictly_increasing (train_ids dc) ->
  Forall declares_a_source fs ->
  ids_from_registry dc' /\ strictly_increasing (train_ids dc').
Proof.
  revert dc. induction fs as [|f r IH]; intros dc H Hinv Hs HF; simpl in H.
  - inversion H; subst. auto.
  - bind_ok H. inversion HF; subst.
    destruct (add_file_train_ids _ _ _ E) as [Hs' Hinv'].
    apply (IH a H); auto.
Qed.

(** C1 (as stated) fails for [select_trains]: taking the first train of the
    run with train IDs [10; 12] leaves the train-ID list [10] although the
    one retained segment holds 10 and 12, and a step of -1 gives the
    decreasing list [12; 10]. *)
Lemma select_trains_ids_not_registry_union :
  ids_from_registry run_gap /\ strictly_increasing (train_ids run_gap) /\
  (exists res,
     select_trains run_gap
       (by_index {| sl_start := None; sl_stop := Some 1; sl_step := None |})
       = Ok res /\
     train_ids res = [10] /\
     sorted_set (mapping_train_ids (_source_file_mapping res)) = [10; 12] /\
     ~ ids_from_registry res) /\
  (exists res,
     select_trains run_gap
       (by_index {| sl_start := None; sl_stop := None; sl_step := Some (-1) |})
       = Ok res /\
     train_ids res = [12; 10] /\
     ~ strictly_increasing (train_ids res)).
Proof.
  split; [reflexivity|]. split; [repeat constructor|]. split.
  - eexists. split; [reflexivity|]. repeat split. discriminate.
  - eexists. split; [reflexivity|]. split; [reflexivity|].
    simpl. intros H. inversion H as [|? ? _ HF]; subst.
    inversion HF as [|? ? Hlt _]; subst. lia.
Qed.

(** C1 (amended): a collection built by [add_file] calls from files that
    each declare a source, and every collection returned by [select], has a
    strictly increasing train-ID list equal to the sorted, de-duplicated
    union of the train IDs of the segments in its registry.  The list
    returned by [select_trains] is the requested slice of the receiver's
    list: the slice given by position, or the one from the positions that
    [_tid_to_slice_ix] finds for the two train IDs given.  A segment is
    retained for a source exactly when it is a segment of the receiver for
    that source and shares a train ID with the list.  So the IDs of the
    list are IDs of the receiver, each of them lies in a retained segment
    when the receiver's list is the union of its registry, the train IDs
    of the retained segments are train IDs of the receiver's segments, and
    the list is strictly increasing when the receiver's is and the step is
    positive. *)
Theorem train_ids_invariant (re_class : string -> option (ascii -> bool)) :
  (forall fs dc, RunDirectory fs = Ok dc -> Forall declares_a_source fs ->
                 ids_from_registry dc /\ strictly_increasing (train_ids dc)) /\
  (forall dc f dc', add_file dc f = Ok dc' ->
                    strictly_increasing (train_ids dc') /\
                    (ids_from_registry dc -> declares_a_source f ->
                     ids_from_registry dc')) /\
  (forall dc sel key_glob res dc',
      select re_class dc sel key_glob = Ok (res, dc') ->
      ids_from_registry res /\ strictly_increasing (train_ids res)) /\
  (forall dc tr res,
      select_trains dc tr = Ok res ->
      (exists sl,
         match tr with
         | by_id start stop step =>
             exists a b,
               _tid_to_slice_ix start (train_ids dc) false = Ok a /\
               _tid_to_slice_ix stop (train_ids dc) true = Ok b /\
               sl = {| sl_start := a; sl_stop := b; sl_step := step |}
         | by_index value => sl = value
         | OtherRange => False
         end /\
         list_slice (train_ids dc) sl = Ok (train_ids res)) /\
      (forall s seg,
         (exists segs, In (s, segs) (_source_file_mapping res) /\
                       In seg segs) <->
         (exists all, In (s, all) (_source_file_mapping dc) /\ In seg all) /\
         exists t, In t (fst seg) /\ In t (train_ids res)) /\
      (forall t, In t (train_ids res) -> In t (train_ids dc)) /\
      (ids_from_registry dc ->
       forall t, In t (train_ids res) ->
                 In t (mapping_train_ids (_source_file_mapping res))) /\
      (forall t, In t (mapping_train_ids (_source_file_mapping res)) ->
                 In t (mapping_train_ids (_source_file_mapping dc))) /\
      (strictly_increasing (train_ids dc) ->
       match range_step tr with Some s => 0 < s | None => True end ->
       strictly_increasing (train_ids res))).
Proof.
  split; [|split; [|split]].
  - intros fs dc H HF. unfold RunDirectory in H.
    apply (add_files_train_ids fs new_collection dc H); auto.
    + reflexivity.
    + constructor.
  - intros dc f dc' H. now apply add_file_train_ids.
  - intros dc sel key_glob res dc' H. eapply select_train_ids; eauto.
  - intros dc tr res H.
    destruct (select_trains_fields _ _ _ H)
      as [sl [Hrange [Hsl [Hstep Hsfm]]]].
    split; [|split; [|split; [|split; [|split]]]].
    + exists sl. split; assumption.
    + intros s seg. rewrite Hsfm. split.
      * intros [segs [He Hseg]]. apply retain_segments_In in He.
        destruct He as [all [Hall [_ ->]]]. apply filter_In in Hseg.
        destruct Hseg as [Hseg Hint]. split; [eauto|].
        now apply intersects_common.
      * intros [[all [Hall Hseg]] Ht].
        exists (filter (fun x => intersects (fst x) (train_ids res)) all).
        assert (Hf : In seg (filter (fun x => intersects (fst x)
                                                (train_ids res)) all)).
        { apply filter_In. split; [assumption|].
          now apply intersects_common. }
        split; [|exact Hf]. apply retain_segments_In. exists all.
        split; [assumption|]. split; [|reflexivity].
        intros Hnil. rewrite Hnil in Hf. contradiction.
    + intros t Ht. eapply list_slice_In; eauto.
    + intros Hinv t Ht. rewrite Hsfm.
      apply retain_segments_ids; [assumption|].
      assert (Hin : In t (train_ids dc)) by (eapply list_slice_In; eauto).
      unfold ids_from_registry in Hinv. rewrite Hinv in Hin.
      exact (proj1 (sorted_set_In _ _) Hin).
    + intros t Ht. rewrite Hsfm in Ht.
      now apply retain_segments_ids in Ht.
    + intros Hs Hpos. eapply list_slice_increasing; eauto.
      now rewrite Hstep.
Qed.

(** The run with the train IDs [10; 12], opened from its one file, and its
    first train selected by position: the list is the slice [10], and the
    one segment of the run is retained with both its trains. *)
Lemma train_ids_invariant_witness :
  (ids_from_registry run_gap /\ strictly_increasing (train_ids run_gap)) /\
  exists res,
    select_trains run_gap
      (by_index {| sl_start := None; sl_stop := Some 1; sl_step := None |})
      = Ok res /\
    list_slice (train_ids run_gap)
      {| sl_start := None; sl_stop := Some 1; sl_step := None |}
      = Ok (train_ids res) /\
    (exists segs, In ("X", segs) (_source_file_mapping res) /\
                  In ([10; 12], file_gap) segs) /\
    strictly_increasing (train_ids res) /\
    forall t, In t (train_ids res) ->
              In t (mapping_train_ids (_source_file_mapping res)).
Proof.
  destruct (train_ids_invariant plain_class) as [Hrun [_ [_ Hsel]]].
  assert (Hdecl : Forall declares_a_source [file_gap]).
  { constructor; [|constructor]. exists "CONTROL/X". split.
    - simpl. now left.
    - discriminate. }
  pose proof (Hrun [file_gap] run_gap eq_refl Hdecl) as Hgap.
  split; [exact Hgap|].
  destruct (select_trains run_gap
              (by_index {| sl_start := None; sl_stop := Some 1;
                           sl_step := None |})) as [res|] eqn:Hres;
    [|discriminate Hres].
  exists res. split; [reflexivity|].
  destruct (Hsel _ _ _ Hres) as [[sl [Hr Hsl]] [Hseg [_ [Hin [_ Hinc]]]]].
  simpl in Hr. subst sl. destruct Hgap as [Hinv Hs].
  split; [exact Hsl|]. split.
  - apply (proj2 (Hseg "X" ([10; 12], file_gap))). split.
    + exists [([10; 12], file_gap)]. split; now left.
    + exists 10. split; [now left|].
      inversion Hres; subst. now left.
  - split; [apply Hinc; [exact Hs|exact I]|apply Hin; exact Hinv].
Defined.

(** ** The example runs *)

Lemma run_BA_built : RunDirectory [file_B; file_A] = Ok run_BA.
Proof. reflexivity. Qed.

(** ** The caches do not change what a collection answers *)

Lemma dict_get_set_same {V} (k : string) (v : V) (d : list (string * V)) :
  dict_get k (dict_set k v d) = Some v.
Proof.
  induction d as [|[k' v'] d IH]; simpl.
  - now rewrite String.eqb_refl.
  - destruct (String.eqb k k') eqn:E; simpl.
    + now rewrite String.eqb_refl.
    + now rewrite E.
Qed.

Lemma dict_get_set_other {V} (k k' : string) (v : V) (d : list (string * V)) :
  k' <> k -> dict_get k' (dict_set k v d) = dict_get k' d.
Proof.
  intros Hne. induction d as [|[k0 v0] d IH]; simpl.
  - destruct (String.eqb k' k) eqn:E; [|reflexivity].
    apply String.eqb_eq in E. contradiction.
  - destruct (String.eqb k k0) eqn:E; simpl.
    + apply String.eqb_eq in E. subst k0.
      destruct (String.eqb k' k) eqn:E'; [|reflexivity].
      apply String.eqb_eq in E'. contradiction.
    + now rewrite IH.
Qed.

Lemma cache_key_eqb_eq (a b : CacheKey) : cache_key_eqb a b = true <-> a = b.
Proof.
  destruct a as [[f1 s1] g1], b as [[f2 s2] g2]. unfold cache_key_eqb.
  rewrite !andb_true_iff, !String.eqb_eq.
  destruct (File_eq_dec f1 f2) as [->|Hne]; split.
  - intros [[_ ->] ->]. reflexivity.
  - intros H. inversion H. auto.
  - intros [[H _] _]. discriminate.
  - intros H. inversion H. contradiction.
Qed.

Lemma cache_get_app (k k' : CacheKey) (v : list Z * list Z)
    (c : list (CacheKey * (list Z * list Z))) :
  cache_get k (c ++ [(k', v)]) =
  match cache_get k c with
  | Some x => Some x
  | None => if cache_key_eqb k k' then Some v else None
  end.
Proof.
  induction c as [|[k0 v0] c IH]; simpl; [reflexivity|].
  destruct (cache_key_eqb k k0); [reflexivity|assumption].
Qed.

Lemma same_view_refl (dc : DataCollection) : same_view dc dc.
Proof. constructor; reflexivity. Qed.

Lemma same_view_trans (a b c : DataCollection) :
  same_view a b -> same_view b c -> same_view a c.
Proof.
  intros [] []. constructor; intros; congruence.
Qed.

(** [_keys_for_source] at most remembers the keys it returns. *)
Lemma keys_for_source_view (dc dc' : DataCollection) (source : string)
    (v : option keyval) :
  _keys_for_source dc source = Ok (v, dc') ->
  same_view dc dc' /\ _index_cache dc' = _index_cache dc /\
  (forall s kv, dict_get s (_source_keys dc) = Some kv ->
                dict_get s (_source_keys dc') = Some kv).
Proof.
  unfold _keys_for_source. intros H.
  destruct (negb (str_in source (all_sources dc))) eqn:Hall; [discriminate|].
  destruct (dict_get source (_source_keys dc)) as [kv|] eqn:Hk.
  - inversion H; subst. split; [apply same_view_refl|]. auto.
  - bind_ok H. destruct a as [|[tids f] r].
    + inversion H; subst. split; [apply same_view_refl|]. auto.
    + bind_ok H. inversion H; subst; clear H. split; [|split].
      * constructor; try reflexivity.
        -- intros s. unfold known_keys, _keys_for_source, all_sources.
           cbn [instrument_sources control_sources train_ids
                _source_file_mapping _index_cache _source_keys].
           fold (all_sources dc).
           destruct (String.eqb s source) eqn:Es.
           ++ apply String.eqb_eq in Es. subst s.
              rewrite Hall, Hk, dict_get_set_same, E.
              cbn [bind]. rewrite E0. reflexivity.
           ++ apply String.eqb_neq in Es.
              rewrite dict_get_set_other by assumption.
              destruct (negb (str_in s (all_sources dc))); [reflexivity|].
              destruct (dict_get s (_source_keys dc)); [reflexivity|].
              destruct (dict_item s (_source_file_mapping dc))
                as [[|[t1 f1] r1]|]; cbn [bind fst]; try reflexivity.
              destruct (file_keys f1 _); reflexivity.
        -- intros f0 s g. unfold known_index, _get_index.
           cbn [_index_cache].
           destruct (cache_get (f0, s, g) (_index_cache dc)); [reflexivity|].
           destruct (_read_index f0 s g); reflexivity.
      * reflexivity.
      * simpl. intros s kv Hs.
        destruct (String.eqb s source) eqn:Es.
        -- apply String.eqb_eq in Es. subst s. congruence.
        -- apply String.eqb_neq in Es.
           now rewrite dict_get_set_other by assumption.
Qed.

(** [_get_index] at most remembers the index it returns. *)
Lemma get_index_view (dc dc' : DataCollection) (file : File)
    (source group : string) (ix : list Z * list Z) :
  _get_index dc file source group = Ok (ix, dc') ->
  same_view dc dc' /\ _source_keys dc' = _source_keys dc.
Proof.
  unfold _get_index. intros H.
  destruct (cache_get (file, source, group) (_index_cache dc)) as [x|] eqn:Hc.
  - inversion H; subst. split; [apply same_view_refl|reflexivity].
  - bind_ok H. inversion H; subst; clear H. split; [|reflexivity].
    constructor; try reflexivity.
    { intros s. unfold known_keys, _keys_for_source, all_sources, with_cache.
      cbn [instrument_sources control_sources train_ids
           _source_file_mapping _index_cache _source_keys].
      destruct (negb _); [reflexivity|].
      destruct (dict_get s (_source_keys dc)); [reflexivity|].
      destruct (dict_item s (_source_file_mapping dc))
        as [[|[t1 f1] r1]|]; cbn [bind fst]; try reflexivity.
      destruct (file_keys f1 _); reflexivity. }
    intros f s g. unfold known_index, _get_index. simpl.
    rewrite cache_get_app.
    destruct (cache_get (f, s, g) (_index_cache dc)) as [x|] eqn:Hf;
      [reflexivity|].
    destruct (cache_key_eqb (f, s, g) (file, source, group)) eqn:Ek.
    + apply cache_key_eqb_eq in Ek. inversion Ek; subst.
      rewrite E. reflexivity.
    + destruct (_read_index f s g); reflexivity.
Qed.

Lemma set_add_In (x s : string) (l : list string) :
  In s (set_add x l) <-> s = x \/ In s l.
Proof.
  unfold set_add. destruct (str_in x l) eqn:E.
  - apply str_in_In in E. split; [auto|]. intros [->|H]; assumption.
  - rewrite in_app_iff. simpl. intuition.
Qed.

Lemma set_union_In (a b : list string) (s : string) :
  In s (set_union a b) <-> In s a \/ In s b.
Proof.
  unfold set_union. revert a. induction b as [|x b IH]; intros a; simpl.
  - tauto.
  - rewrite IH, set_add_In. intuition.
Qed.

Lemma all_sources_split (dc : DataCollection) (s : string) :
  str_in s (all_sources dc) = true ->
  str_in s (control_sources dc) = true \/
  str_in s (instrument_sources dc) = true.
Proof.
  rewrite !str_in_In. unfold all_sources. rewrite set_union_In. tauto.
Qed.

(** [_check_field] changes nothing but what the key cache remembers. *)
Lemma check_field_view (dc dc0 : DataCollection) (source key : string) :
  _check_field dc source key = Ok dc0 ->
  same_view dc dc0 /\ _index_cache dc0 = _index_cache dc /\
  str_in source (all_sources dc) = true.
Proof.
  unfold _check_field. intros H.
  destruct (str_in source (all_sources dc)) eqn:Hall; [|discriminate].
  simpl in H. bind_ok H. destruct a as [kv dc1]. bind_ok H.
  destruct a; [|discriminate]. inversion H; subst.
  destruct (keys_for_source_view _ _ _ _ E) as [Hv [Hc _]]. auto.
Qed.

(** ** get_array on instrument data with several records per train *)





Lemma known_index_get (dc : DataCollection) (f : File) (s g : string)
    (ix : list Z * list Z) :
  known_index dc f s g = Ok ix ->
  exists dc', _get_index dc f s g = Ok (ix, dc').
Proof.
  unfold known_index. intros H. bind_ok H. destruct a as [ix' dc'].
  inversion H; subst. eauto.
Qed.



Lemma run_multi_built : RunDirectory [file_single; file_multi] = Ok run_multi.
Proof. reflexivity. Qed.


(** ** Matching of patterns *)

Lemma re_match_star (r : list re_item) (s : string) :
  re_match (ReStar :: r) s =
  re_match r s ||
  match s with
  | EmptyString => false
  | String _ t => re_match (ReStar :: r) t
  end.
Proof. destruct s; reflexivity. Qed.

Lemma re_match_star_spec (r : list re_item) (s : string) :
  re_match (ReStar :: r) s = true <->
  exists p t, s = (p ++ t)%string /\ re_match r t = true.
Proof.
  induction s as [|c s IH]; rewrite re_match_star, orb_true_iff.
  - split.
    + intros [H|H]; [|discriminate]. exists "", "". auto.
    + intros [p [t [Hs Ht]]]. left.
      destruct p; simpl in Hs; [now subst|discriminate].
  - rewrite IH. split.
    + intros [H|[p [t [Hs Ht]]]].
      * exists "", (String c s). auto.
      * exists (String c p), t. simpl. now subst.
    + intros [[|d p] [t [Hs Ht]]]; simpl in Hs.
      * left. now subst.
      * right. inversion Hs; subst. eauto.
Qed.

Lemma strip_prefix_spec (p s t : string) :
  strip_prefix p s = Some t <-> s = (p ++ t)%string.
Proof.
  revert s. induction p as [|a p IH]; intros s; simpl.
  - split; [intros H; now inversion H|intros ->; reflexivity].
  - destruct s as [|b s]; [split; discriminate|].
    destruct (Ascii.eqb a b) eqn:E.
    + apply Ascii.eqb_eq in E. subst b. rewrite IH.
      split; [intros ->; reflexivity|intros H; now inversion H].
    + apply Ascii.eqb_neq in E. split; [discriminate|].
      intros H. inversion H. congruence.
Qed.

Lemma string_app_assoc (a b c : string) :
  ((a ++ b) ++ c = a ++ (b ++ c))%string.
Proof. induction a; simpl; [reflexivity|now rewrite IHa]. Qed.

(** A pattern followed by another matches the strings that split into a
    match of each. *)
Lemma re_match_app (r q : list re_item) (s : string) :
  re_match (r ++ q) s = true <->
  exists s1 s2, s = (s1 ++ s2)%string /\
                re_match r s1 = true /\ re_match q s2 = true.
Proof.
  revert s. induction r as [|i r IH]; intros s.
  - simpl. split.
    + intros H. exists "", s. auto.
    + intros [s1 [s2 [Hs [H1 H2]]]]. apply String.eqb_eq in H1. now subst.
  - destruct i as [| |c|p|lit]; cbn [app].
    + rewrite re_match_star_spec. split.
      * intros [p [t [Hs Ht]]]. apply IH in Ht.
        destruct Ht as [s1 [s2 [Ht [H1 H2]]]].
        exists (p ++ s1)%string, s2. subst. rewrite string_app_assoc.
        split; [reflexivity|]. split; [|assumption].
        apply re_match_star_spec. eauto.
      * intros [s1 [s2 [Hs [H1 H2]]]]. apply re_match_star_spec in H1.
        destruct H1 as [p [t [H1 Ht]]]. exists p, (t ++ s2)%string.
        subst. rewrite string_app_assoc. split; [reflexivity|].
        apply IH. eauto.
    + simpl. destruct s as [|d s].
      * split; [discriminate|]. intros [[|? ?] [s2 [Hs [H1 H2]]]];
          simpl in *; discriminate.
      * rewrite IH. split.
        -- intros [s1 [s2 [Hs [H1 H2]]]]. exists (String d s1), s2.
           subst. auto.
        -- intros [[|e s1] [s2 [Hs [H1 H2]]]]; simpl in *; [discriminate|].
           inversion Hs; subst. exists s1, s2. auto.
    + simpl. destruct s as [|d s].
      * split; [discriminate|]. intros [[|? ?] [s2 [Hs [H1 H2]]]];
          simpl in *; discriminate.
      * rewrite andb_true_iff, IH. split.
        -- intros [Hc [s1 [s2 [Hs [H1 H2]]]]]. exists (String d s1), s2.
           subst. simpl. rewrite Hc. auto.
        -- intros [[|e s1] [s2 [Hs [H1 H2]]]]; simpl in *; [discriminate|].
           inversion Hs; subst. apply andb_true_iff in H1.
           destruct H1. split; [assumption|]. exists s1, s2. auto.
    + simpl. destruct s as [|d s].
      * split; [discriminate|]. intros [[|? ?] [s2 [Hs [H1 H2]]]];
          simpl in *; discriminate.
      * rewrite andb_true_iff, IH. split.
        -- intros [Hc [s1 [s2 [Hs [H1 H2]]]]]. exists (String d s1), s2.
           subst. simpl. rewrite Hc. auto.
        -- intros [[|e s1] [s2 [Hs [H1 H2]]]]; simpl in *; [discriminate|].
           inversion Hs; subst. apply andb_true_iff in H1.
           destruct H1. split; [assumption|]. exists s1, s2. auto.
    + simpl. rewrite orb_true_iff. split.
      * intros [H|H].
        -- apply IH in H. destruct H as [s1 [s2 [Hs [H1 H2]]]].
           exists s1, s2. rewrite H1. auto.
        -- destruct (strip_prefix lit s) as [t|] eqn:E; [|discriminate].
           apply strip_prefix_spec in E. apply IH in H.
           destruct H as [s1 [s2 [Hs [H1 H2]]]].
           exists (lit ++ s1)%string, s2. subst.
           rewrite string_app_assoc. split; [reflexivity|].
           split; [|assumption]. apply orb_true_iff. right.
           rewrite (proj2 (strip_prefix_spec lit _ s1) eq_refl). assumption.
      * intros [s1 [s2 [Hs [H1 H2]]]]. apply orb_true_iff in H1.
        destruct H1 as [H1|H1].
        -- left. apply IH. eauto.
        -- right. destruct (strip_prefix lit s1) as [t|] eqn:E; [|discriminate].
           apply strip_prefix_spec in E. subst.
           rewrite string_app_assoc.
           rewrite (proj2 (strip_prefix_spec lit _ (t ++ s2)%string) eq_refl).
           apply IH. eauto.
Qed.

(** The pattern for the keys of control sources of a glob that ends
    neither in [.value] nor in [*]: the keys the glob matches, and those
    keys followed by [.value]. *)
Lemma ctrl_key_pattern_spec (key_glob : string) (key_re : list re_item)
    (key : string) :
  endswith key_glob ".value" || endswith key_glob "*" = false ->
  (re_match (ctrl_key_pattern key_glob key_re) key = true <->
   re_match key_re key = true \/
   exists k, key = (k ++ ".value")%string /\ re_match key_re k = true).
Proof.
  intros He. unfold ctrl_key_pattern. rewrite He, re_match_app. split.
  - intros [s1 [s2 [Hs [H1 H2]]]]. cbn [re_match] in H2.
    apply orb_true_iff in H2. destruct H2 as [H2|H2].
    + apply String.eqb_eq in H2. subst. left.
      replace (s1 ++ "")%string with s1; [assumption|].
      clear. induction s1; simpl; congruence.
    + right. exists s1. split; [|assumption]. subst. f_equal.
      destruct (strip_prefix ".value" s2) as [t|] eqn:E; [|discriminate].
      apply strip_prefix_spec in E. apply String.eqb_eq in H2. now subst.
  - intros [H|[k [Hk H]]].
    + exists key, "". split; [|auto].
      clear. induction key; simpl; congruence.
    + exists k, ".value". auto.
Qed.

(** ** Glob selection *)

Lemma pair_eqb_eq (a b : string * string) : pair_eqb a b = true <-> a = b.
Proof.
  destruct a as [a1 a2], b as [b1 b2]. unfold pair_eqb. simpl.
  rewrite andb_true_iff, !String.eqb_eq. split.
  - intros [-> ->]. reflexivity.
  - intros H. inversion H. auto.
Qed.

Lemma pair_in_In (a : string * string) (l : list (string * string)) :
  pair_in a l = true <-> In a l.
Proof.
  unfold pair_in. rewrite existsb_exists. split.
  - intros [x [Hx E]]. apply pair_eqb_eq in E. now subst.
  - intros H. exists a. split; [assumption|]. now apply pair_eqb_eq.
Qed.

Lemma pair_add_In (a p : string * string) (l : list (string * string)) :
  In p (pair_add a l) <-> p = a \/ In p l.
Proof.
  unfold pair_add. destruct (pair_in a l) eqn:E.
  - apply pair_in_In in E. split; [auto|]. intros [->|H]; assumption.
  - rewrite in_app_iff. simpl. intuition.
Qed.

Lemma fold_pair_add_In (s : string) (keys : list string)
    (l : list (string * string)) (p : string * string) :
  In p (fold_left (fun acc key => pair_add (s, key) acc) keys l) <->
  In p l \/ (fst p = s /\ In (snd p) keys).
Proof.
  revert l. induction keys as [|k keys IH]; intros l; simpl.
  - intuition.
  - rewrite IH, pair_add_In. destruct p as [p1 p2]. simpl. split.
    + intros [[H|H]|H]; [inversion H; subst; auto|auto|intuition].
    + intros [H|[H1 [H2|H2]]]; subst; auto.
Qed.

Lemma known_keys_get (dc dc' : DataCollection) (s : string)
    (kv : option keyval) :
  _keys_for_source dc s = Ok (kv, dc') -> known_keys dc s = Ok kv.
Proof. unfold known_keys. intros ->. reflexivity. Qed.

Lemma glob_source_spec (dc cur dc' : DataCollection)
    (source_re key_re ctrl_key_re : list re_item) (key_glob s : string)
    (m m' : list (string * string)) :
  same_view dc cur ->
  glob_source source_re key_re ctrl_key_re key_glob (m, cur) s = Ok (m', dc') ->
  same_view dc dc' /\ _index_cache dc' = _index_cache cur /\
  (forall x kv, dict_get x (_source_keys cur) = Some kv ->
                dict_get x (_source_keys dc') = Some kv) /\
  forall p, In p m' <->
            In p m \/
            (fst p = s /\ re_match source_re s = true /\
             key_selected dc key_glob key_re ctrl_key_re s (snd p)).
Proof.
  intros Hv H. unfold glob_source in H.
  destruct (re_match source_re s) eqn:Hs; simpl in H.
  - destruct (String.eqb key_glob "*") eqn:Hk.
    + inversion H; subst; clear H. apply String.eqb_eq in Hk.
      split; [assumption|]. split; [reflexivity|]. split; [auto|].
      intros p. rewrite pair_add_In. unfold key_selected. split.
      * intros [->|Hp]; [right|left; assumption]. simpl. auto.
      * intros [Hp|[H1 [_ [[_ H2]|[H2 _]]]]]; [auto| |contradiction].
        left. destruct p; simpl in *; subst. reflexivity.
    + apply String.eqb_neq in Hk. bind_ok H. destruct a as [kv dc1].
      bind_ok H. inversion H; subst; clear H.
      destruct (keys_for_source_view _ _ _ _ E) as [Hv1 [Hc1 Hk1]].
      split; [eapply same_view_trans; eauto|]. split; [assumption|].
      split; [assumption|].
      assert (Hlist : source_keys_list dc s = Ok a).
      { unfold source_keys_list. rewrite <- (sv_keys _ _ Hv).
        rewrite (known_keys_get _ _ _ _ E). exact E0. }
      intros p. rewrite fold_pair_add_In, filter_In.
      rewrite (sv_control _ _ Hv). unfold key_selected. split.
      * intros [Hp|[H1 [H2 H3]]]; [auto|]. right.
        split; [assumption|]. split; [reflexivity|]. right.
        split; [assumption|]. exists a. auto.
      * intros [Hp|[H1 [_ [[H2 _]|[_ [keys [Hkeys [H3 H4]]]]]]]];
          [auto|contradiction|].
        right. split; [assumption|].
        rewrite Hlist in Hkeys. inversion Hkeys; subst. auto.
  - inversion H; subst; clear H. split; [assumption|].
    split; [reflexivity|]. split; [auto|].
    intros p. split; [auto|]. intros [Hp|[_ [Hf _]]]; [assumption|discriminate].
Qed.

Lemma glob_sources_spec (dc : DataCollection)
    (source_re key_re ctrl_key_re : list re_item) (key_glob : string)
    (l : list string) (cur dc' : DataCollection)
    (m m' : list (string * string)) :
  same_view dc cur ->
  glob_sources source_re key_re ctrl_key_re key_glob (m, cur) l = Ok (m', dc') ->
  same_view dc dc' /\ _index_cache dc' = _index_cache cur /\
  (forall x kv, dict_get x (_source_keys cur) = Some kv ->
                dict_get x (_source_keys dc') = Some kv) /\
  forall p, In p m' <->
            In p m \/
            (In (fst p) l /\ re_match source_re (fst p) = true /\
             key_selected dc key_glob key_re ctrl_key_re (fst p) (snd p)).
Proof.
  revert cur m. induction l as [|s l IH]; intros cur m Hv H; simpl in H.
  - inversion H; subst. split; [assumption|]. split; [reflexivity|].
    split; [auto|]. intros p. simpl. tauto.
  - bind_ok H. destruct a as [m1 dc1].
    destruct (glob_source_spec _ _ _ _ _ _ _ _ _ _ Hv E) as [Hv1 [Hc1 [Hk1 Hm1]]].
    destruct (IH _ _ Hv1 H) as [Hv2 [Hc2 [Hk2 Hm2]]].
    split; [assumption|]. split; [congruence|]. split; [auto|].
    intros p. rewrite Hm2, Hm1. simpl. split.
    + intros [[Hp|[H1 [H2 H3]]]|[H1 [H2 H3]]]; auto.
      right. rewrite H1. auto.
    + intros [Hp|[[H1|H1] [H2 H3]]]; auto.
      left. right. subst s. auto.
Qed.

(** C8 (as stated) fails: the glob [val.value.valu?] ends neither in
    [.value] nor in [*] and matches the key [val.value] of control source
    [X] with [.value] appended, yet the pattern used for control sources
    does not accept [val.value] and the selection raises "No matches". *)
Lemma glob_not_matched_against_key_plus_value :
  source_keys_list run_gap "X" = Ok ["val.value"] /\
  endswith "val.value.valu?" ".value" || endswith "val.value.valu?" "*" = false /\
  (exists key_re,
     re_compile plain_class (translate "val.value.valu?") = Ok key_re /\
     re_match key_re ("val.value" ++ ".value")%string = true /\
     re_match (ctrl_key_pattern "val.value.valu?" key_re) "val.value" = false) /\
  _select_glob plain_class run_gap "X" "val.value.valu?"
    = Err ValueError_no_matches.
Proof.
  split; [reflexivity|]. split; [reflexivity|]. split; [|reflexivity].
  eexists. split; [reflexivity|]. split; reflexivity.
Qed.

(** C8 (amended): the pairs [_select_glob] returns are exactly the pairs
    (source, key) with the source known to the collection and matched by
    the source glob, and: for the key glob [*], the key [*] whatever the
    source; otherwise a key of the source which, for a control source and a
    glob that ends neither in [.value] nor in [*], the glob matches either
    as it is or once a final [.value] is taken off the key (that is, the
    glob with [.value] appended matches the key), and which in every other
    case (instrument sources, other globs) the translated glob matches. *)
Theorem select_glob_matches (re_class : string -> option (ascii -> bool))
    (dc dc' : DataCollection) (source_glob key_glob : string)
    (matched : list (string * string)) :
  _select_glob re_class dc source_glob key_glob = Ok (matched, dc') ->
  exists source_re key_re,
    re_compile re_class (translate source_glob) = Ok source_re /\
    re_compile re_class (translate key_glob) = Ok key_re /\
    forall s k,
      In (s, k) matched <->
      In s (all_sources dc) /\ re_match source_re s = true /\
      ((key_glob = "*" /\ k = "*") \/
       (key_glob <> "*" /\
        exists keys, source_keys_list dc s = Ok keys /\ In k keys /\
          if str_in s (control_sources dc) then
            if endswith key_glob ".value" || endswith key_glob "*"
            then re_match key_re k = true
            else re_match key_re k = true \/
                 exists k', k = (k' ++ ".value")%string /\
                            re_match key_re k' = true
          else re_match key_re k = true)).
Proof.
  unfold _select_glob. intros H. bind_ok H. bind_ok H. bind_ok H.
  destruct a1 as [m dc1].
  destruct (glob_sources_spec dc a a0 (ctrl_key_pattern key_glob a0) key_glob
              _ _ _ _ _ (same_view_refl dc) E1) as [_ [_ [_ Hm]]].
  exists a, a0. split; [reflexivity|]. split; [reflexivity|].
  assert (matched = m) by (destruct m; [discriminate|now inversion H]).
  subst m. clear H. intros s k. rewrite Hm. simpl. unfold key_selected.
  split.
  - intros [[]|[H1 [H2 [H3|[H3 [keys [H4 [H5 H6]]]]]]]]; auto.
    split; [assumption|]. split; [assumption|]. right.
    split; [assumption|]. exists keys. split; [assumption|].
    split; [assumption|].
    destruct (str_in s (control_sources dc)); [|assumption].
    destruct (endswith key_glob ".value" || endswith key_glob "*") eqn:He.
    + unfold ctrl_key_pattern in H6. now rewrite He in H6.
    + now apply ctrl_key_pattern_spec in H6.
  - intros [H1 [H2 [H3|[H3 [keys [H4 [H5 H6]]]]]]]; right; auto.
    split; [assumption|]. split; [assumption|]. right.
    split; [assumption|]. exists keys. split; [assumption|].
    split; [assumption|].
    destruct (str_in s (control_sources dc)); [|assumption].
    destruct (endswith key_glob ".value" || endswith key_glob "*") eqn:He.
    + unfold ctrl_key_pattern. now rewrite He.
    + now apply ctrl_key_pattern_spec.
Qed.

(** The glob [val] selects the key [val.value] of the control source [X],
    and the glob [*] selects [X] with the key [*]. *)
Lemma select_glob_matches_witness :
  (exists m dc', _select_glob plain_class run_gap "X*" "val" = Ok (m, dc') /\
                 In ("X", "val.value") m) /\
  (exists m dc', _select_glob plain_class run_gap "?" "*" = Ok (m, dc') /\
                 forall s k, In (s, k) m <-> s = "X" /\ k = "*").
Proof.
  split.
  - destruct (_select_glob plain_class run_gap "X*" "val")
      as [[m dc']|] eqn:E; [|discriminate E].
    exists m, dc'. split; [reflexivity|].
    destruct (select_glob_matches plain_class run_gap dc' "X*" "val" m E)
      as [sre [kre [Hs [Hk Hm]]]].
    apply Hm. inversion Hs; subst. inversion Hk; subst. clear Hs Hk Hm.
    split; [simpl; auto|]. split; [reflexivity|]. right.
    split; [discriminate|]. exists ["val.value"].
    split; [reflexivity|]. split; [simpl; auto|].
    simpl. right. exists "val". split; reflexivity.
  - destruct (_select_glob plain_class run_gap "?" "*")
      as [[m dc']|] eqn:E; [|discriminate E].
    exists m, dc'. split; [reflexivity|].
    destruct (select_glob_matches plain_class run_gap dc' "?" "*" m E)
      as [sre [kre [Hs [Hk Hm]]]].
    intros s k. rewrite Hm. inversion Hs; subst. clear Hs Hk Hm. split.
    + intros [[H1|[]] [_ [[_ H3]|[H3 _]]]]; [auto|contradiction].
    + intros [-> ->]. split; [simpl; auto|]. split; [reflexivity|auto].
Defined.

(** ** What select does to its receiver *)

Lemma receiver_kept_refl (dc : DataCollection) : receiver_kept dc dc.
Proof. constructor; auto using same_view_refl. Qed.

Lemma receiver_kept_trans (a b c : DataCollection) :
  receiver_kept a b -> receiver_kept b c -> receiver_kept a c.
Proof.
  intros [] []. constructor.
  - eapply same_view_trans; eauto.
  - congruence.
  - auto.
Qed.

Lemma select_glob_receiver (re_class : string -> option (ascii -> bool))
    (dc dc' : DataCollection) (source_glob key_glob : string)
    (m : list (string * string)) :
  _select_glob re_class dc source_glob key_glob = Ok (m, dc') ->
  receiver_kept dc dc'.
Proof.
  unfold _select_glob. intros H. bind_ok H. bind_ok H. bind_ok H.
  destruct a1 as [m1 dc1].
  destruct (glob_sources_spec dc a a0 (ctrl_key_pattern key_glob a0) key_glob
              _ _ _ _ _ (same_view_refl dc) E1) as [Hv [Hc [Hk _]]].
  destruct m1; [discriminate|]. inversion H; subst.
  constructor; assumption.
Qed.

Lemma expand_list_receiver (re_class : string -> option (ascii -> bool))
    (l : list (string * string)) (dc dc' : DataCollection)
    (res res' : list (string * string)) :
  expand_list re_class (res, dc) l = Ok (res', dc') -> receiver_kept dc dc'.
Proof.
  revert res dc. induction l as [|[sg kg] l IH]; intros res dc H; simpl in H.
  - inversion H; subst. apply receiver_kept_refl.
  - bind_ok H. destruct a as [m dc1]. destruct m as [|p m]; [discriminate|].
    eapply receiver_kept_trans.
    + eapply select_glob_receiver; eauto.
    + eapply IH; eauto.
Qed.

Lemma expand_selection_receiver (re_class : string -> option (ascii -> bool))
    (dc dc' : DataCollection) (sel : selection)
    (res : list (string * string)) :
  _expand_selection re_class dc sel = Ok (res, dc') -> receiver_kept dc dc'.
Proof.
  destruct sel as [g|pairs|d|globs|]; simpl; intros H.
  - inversion H; subst. apply receiver_kept_refl.
  - inversion H; subst. apply receiver_kept_refl.
  - bind_ok H. inversion H; subst. apply receiver_kept_refl.
  - eapply expand_list_receiver; eauto.
  - inversion H; subst. apply receiver_kept_refl.
Qed.

(** ** Sorting *)




(** ** The segment loop of get_array *)

Lemma make_array_ok (d : Dataset) (dims : list dim) (tids : list Z)
    (a : DataArray) :
  make_array d dims tids = Ok a ->
  List.length dims = S (List.length (ds_tail d)) /\
  List.length tids = List.length (ds_rows d) /\
  a = {| da_dims := dims; da_labels := tids;
         da_rows := ds_rows d; da_tail := ds_tail d |}.
Proof.
  unfold make_array. intros H.
  destruct (List.length dims =? S (List.length (ds_tail d)))%nat eqn:E1;
    [|discriminate].
  destruct (List.length tids =? List.length (ds_rows d))%nat eqn:E2;
    [|discriminate].
  apply Nat.eqb_eq in E1, E2. inversion H. auto.
Qed.

Lemma push_array_step (st : array_state) (dc' : DataCollection)
    (d : Dataset) (tids : list Z) (ed : list dim) (a : DataArray) :
  dims_given (st_extra_dims st) ed ->
  make_array d (DimTrainId :: ed) tids = Ok a ->
  push_array st dc' d tids =
    Ok {| st_extra_dims := Some ed; st_dc := dc';
          st_arrays := st_arrays st ++ [a] |}.
Proof.
  intros Hd Ha. unfold push_array.
  assert (Hed : match st_extra_dims st with
                | Some d0 => d0
                | None => map DimAnon (seq 0 (List.length (ds_tail d)))
                end = ed).
  { destruct Hd as [->|[-> Hc]]; [reflexivity|].
    destruct (make_array_ok _ _ _ _ Ha) as [Hl _]. simpl in Hl.
    assert (Hl' : List.length (ds_tail d) = List.length ed) by lia.
    rewrite Hl'. symmetry. exact Hc. }
  rewrite Hed, Ha. reflexivity.
Qed.

Lemma segment_body_step (dc : DataCollection) (source key : string)
    (st : array_state) (seg : Segment) (ed : list dim) (a : DataArray) :
  same_view dc (st_dc st) ->
  dims_given (st_extra_dims st) ed ->
  segment_array dc source key (DimTrainId :: ed) seg = Ok a ->
  exists dc', segment_body dc source key st seg =
                Ok {| st_extra_dims := Some ed; st_dc := dc';
                      st_arrays := st_arrays st ++ [a] |} /\
              same_view dc dc'.
Proof.
  intros Hv Hd Ha. destruct seg as [tids f].
  unfold segment_array in Ha. unfold segment_body.
  destruct (str_in source (control_sources dc)).
  - bind_ok Ha. exists (st_dc st). split; [|assumption].
    unfold control_segment. rewrite E. cbn [bind].
    now apply push_array_step.
  - bind_ok Ha. destruct a0 as [firsts counts].
    destruct (existsb (fun c => c >? 1) counts) eqn:Hex; [discriminate|].
    bind_ok Ha. bind_ok Ha.
    rewrite <- (sv_index _ _ Hv) in E.
    destruct (known_index_get _ _ _ _ _ E) as [dc' Hg].
    exists dc'. split.
    + unfold instrument_segment. rewrite Hg. cbn [bind].
      rewrite Hex, E0. cbn [bind]. rewrite E1. cbn [bind].
      now apply push_array_step.
    + eapply same_view_trans; [exact Hv|].
      now destruct (get_index_view _ _ _ _ _ _ Hg).
Qed.

Lemma segment_loop (dc : DataCollection) (source key : string)
    (ed : list dim) (segs : list Segment) (arrays : list DataArray)
    (st : array_state) :
  same_view dc (st_dc st) ->
  dims_given (st_extra_dims st) ed ->
  Forall2 (fun seg a => segment_array dc source key (DimTrainId :: ed) seg
                        = Ok a) segs arrays ->
  exists st', loop_segments (segment_body dc source key) st segs = Ok st' /\
              st_arrays st' = st_arrays st ++ arrays /\
              same_view dc (st_dc st').
Proof.
  intros Hv Hd HF. revert st Hv Hd.
  induction HF as [|seg a segs arrays Ha _ IH]; intros st Hv Hd; simpl.
  - exists st. rewrite app_nil_r. auto.
  - destruct (segment_body_step _ _ _ _ _ _ _ Hv Hd Ha) as [dc' [Hb Hv']].
    rewrite Hb. cbn [bind].
    destruct (IH {| st_extra_dims := Some ed; st_dc := dc';
                    st_arrays := st_arrays st ++ [a] |} Hv')
      as [st' [Hl [Harr Hv'']]]; [now left|].
    exists st'. split; [assumption|]. split; [|assumption].
    rewrite Harr. simpl. now rewrite <- app_assoc.
Qed.






Lemma filter_all {A} (p : A -> bool) (l : list A) :
  (forall x, In x l -> p x = true) -> filter p l = l.
Proof.
  induction l as [|a l IH]; intros H; simpl; [reflexivity|].
  rewrite (H a (or_introl eq_refl)). f_equal. apply IH.
  intros x Hx. apply H. now right.
Qed.



Lemma collect_arrays_body (dc dc0 : DataCollection) (source key : string)
    (extra_dims : option (list dim)) (segs : list Segment) :
  same_view dc dc0 ->
  str_in source (all_sources dc) = true ->
  dict_get source (_source_file_mapping dc) = Some segs ->
  collect_arrays dc0 source key extra_dims =
  loop_segments (segment_body dc source key)
    {| st_extra_dims := extra_dims; st_dc := dc0; st_arrays := [] |} segs.
Proof.
  intros Hv Hall Hsegs. unfold collect_arrays, segment_body, dict_item.
  rewrite (sv_mapping _ _ Hv), (sv_control _ _ Hv), (sv_instrument _ _ Hv),
          Hsegs.
  destruct (str_in source (control_sources dc)) eqn:Hc; [reflexivity|].
  destruct (all_sources_split _ _ Hall) as [H|H]; [congruence|].
  rewrite H. reflexivity.
Qed.




(** ** The segment loop of get_series *)











(** ** Trains with missing data *)

Lemma dedup_strings_In (l : list string) (x : string) :
  In x (dedup_strings l) <-> In x l.
Proof.
  unfold dedup_strings.
  assert (H : forall acc, In x (fold_left (fun a s => set_add s a) l acc) <->
                          In x acc \/ In x l).
  { induction l as [|y l IH]; intros acc; simpl; [tauto|].
    rewrite IH, set_add_In. intuition. }
  rewrite H. simpl. tauto.
Qed.

Lemma missing_control_spec (dc : DataCollection) (tid : Z) (l : list string)
    (b : bool) :
  missing_control dc tid l = Ok b ->
  (b = true <-> exists s, In s l /\ source_absent dc s tid).
Proof.
  revert b. induction l as [|s l IH]; intros b H; simpl in H.
  - inversion H; subst. split; [discriminate|]. intros [s [[] _]].
  - bind_ok H. unfold _find_data, dict_item in E.
    destruct (dict_get s (_source_file_mapping dc)) as [segs|] eqn:Hs;
      [|discriminate]. simpl in E. inversion E; subst; clear E.
    destruct (find_in_segments tid segs) as [[f pos]|] eqn:Hf.
    + rewrite (IH b H). split.
      * intros [x [Hx Ha]]. exists x. split; [now right|assumption].
      * intros [x [[<-|Hx] Ha]]; [|eauto].
        destruct Ha as [segs' [Hs' Hn]]. congruence.
    + inversion H; subst. split; [|reflexivity]. intros _.
      exists s. split; [now left|]. exists segs. auto.
Qed.

Lemma item_nth_error {A} (l : list A) (i : nat) (a : A) :
  item l i = Ok a <-> nth_error l i = Some a.
Proof.
  unfold item. destruct (nth_error l i); split; intros H;
    inversion H; reflexivity.
Qed.

Lemma group_zero_view (dc dc' : DataCollection) (file : File) (pos : nat)
    (source g : string) :
  same_view dc dc' ->
  (group_zero dc' file pos source g <-> group_zero dc file pos source g).
Proof.
  intros Hv. unfold group_zero. now rewrite (sv_index _ _ Hv).
Qed.

Lemma missing_groups_spec (dc : DataCollection) (file : File) (pos : nat)
    (source : string) (groups : list string) (cur dc' : DataCollection)
    (b : bool) :
  same_view dc cur ->
  missing_groups cur file pos source groups = Ok (b, dc') ->
  same_view dc dc' /\
  (b = true <-> exists g, In g groups /\ group_zero dc file pos source g).
Proof.
  revert cur b. induction groups as [|g groups IH]; intros cur b Hv H;
    simpl in H.
  - inversion H; subst. split; [assumption|].
    split; [discriminate|]. intros [g [[] _]].
  - bind_ok H. destruct a as [[firsts counts] dc1]. bind_ok H.
    destruct (get_index_view _ _ _ _ _ _ E) as [Hv1 _].
    assert (Hk : known_index dc file source g = Ok (firsts, counts)).
    { rewrite <- (sv_index _ _ Hv). unfold known_index. now rewrite E. }
    apply item_nth_error in E0.
    destruct (a =? 0) eqn:Ez.
    + apply Z.eqb_eq in Ez. subst a. inversion H; subst; clear H.
      split; [eapply same_view_trans; eauto|].
      split; [|reflexivity]. intros _. exists g. split; [now left|].
      exists firsts, counts. auto.
    + apply Z.eqb_neq in Ez.
      destruct (IH dc1 b (same_view_trans _ _ _ Hv Hv1) H) as [Hv2 Hb].
      split; [assumption|]. rewrite Hb. split.
      * intros [x [Hx Hz]]. exists x. split; [now right|assumption].
      * intros [x [[<-|Hx] Hz]]; [|eauto].
        destruct Hz as [f' [c' [Hk' Hn']]]. rewrite Hk in Hk'.
        inversion Hk'; subst. congruence.
Qed.

Lemma missing_instrument_spec (dc : DataCollection) (tid : Z)
    (l : list string) (cur dc' : DataCollection) (b : bool) :
  same_view dc cur ->
  missing_instrument cur tid l = Ok (b, dc') ->
  same_view dc dc' /\
  (b = true <->
   exists s, In s l /\ (source_absent dc s tid \/ zero_at dc s tid)).
Proof.
  revert cur b. induction l as [|s l IH]; intros cur b Hv H; simpl in H.
  - inversion H; subst. split; [assumption|].
    split; [discriminate|]. intros [s [[] _]].
  - bind_ok H. unfold _find_data, dict_item in E.
    rewrite (sv_mapping _ _ Hv) in E.
    destruct (dict_get s (_source_file_mapping dc)) as [segs|] eqn:Hs;
      [|discriminate]. simpl in E. inversion E; subst; clear E.
    destruct (find_in_segments tid segs) as [[file pos]|] eqn:Hf.
    + bind_ok H. destruct a as [kv dc1]. bind_ok H. bind_ok H.
      destruct a0 as [b' dc2].
      destruct (keys_for_source_view _ _ _ _ E) as [Hv1 _].
      assert (Hkeys : source_keys_list dc s = Ok a).
      { unfold source_keys_list. rewrite <- (sv_keys _ _ Hv).
        rewrite (known_keys_get _ _ _ _ E). exact E0. }
      destruct (missing_groups_spec dc file pos s _ dc1 dc2 b'
                  (same_view_trans _ _ _ Hv Hv1) E1) as [Hv2 Hb'].
      assert (Hzero : b' = true <-> zero_at dc s tid).
      { rewrite Hb'. split.
        - intros [g [Hg Hz]]. apply (proj1 (dedup_strings_In _ _)) in Hg.
          apply in_map_iff in Hg. destruct Hg as [k [<- Hk]].
          exists segs, file, pos, a, k. auto.
        - intros [segs' [f' [p' [keys' [k [H1 [H2 [H3 [H4 H5]]]]]]]]].
          assert (segs' = segs) by congruence. subst segs'.
          assert (Heq : Some (f', p') = Some (file, pos)) by congruence.
          inversion Heq; subst.
          assert (keys' = a) by congruence. subst keys'.
          exists (partition_head "." k). split; [|assumption].
          apply dedup_strings_In. now apply in_map. }
      destruct b'.
      * inversion H; subst. split; [assumption|].
        split; [|reflexivity]. intros _. exists s. split; [now left|].
        right. now apply Hzero.
      * destruct (IH dc2 b Hv2 H) as [Hv3 Hb]. split; [assumption|].
        rewrite Hb. split.
        -- intros [x [Hx Hc]]. exists x. split; [now right|assumption].
        -- intros [x [[<-|Hx] Hc]]; [|eauto].
           destruct Hc as [[segs' [Hs' Hn]]|Hz].
           ++ congruence.
           ++ apply Hzero in Hz. discriminate.
    + inversion H; subst. split; [assumption|].
      split; [|reflexivity]. intros _. exists s. split; [now left|].
      left. exists segs. auto.
Qed.

(** [_check_data_missing] answers [true] exactly for the trains that lack
    data, and changes nothing but the caches. *)
Lemma check_data_missing_spec (dc dc' : DataCollection) (tid : Z) (b : bool) :
  _check_data_missing dc tid = Ok (b, dc') ->
  same_view dc dc' /\ (b = true <-> data_missing dc tid).
Proof.
  unfold _check_data_missing. intros H. bind_ok H.
  pose proof (missing_control_spec _ _ _ _ E) as Hc.
  assert (Hinst : (exists s, In s (instrument_sources dc) /\
                     (source_absent dc s tid \/ zero_at dc s tid)) <->
                  instrument_absent dc tid \/ zero_count dc tid).
  { unfold instrument_absent, zero_count, zero_at. split.
    - intros [s [Hs [Ha|Hz]]]; [left; eauto|right].
      destruct Hz as [segs [f [p [keys [k Hz]]]]].
      exists s, segs, f, p, keys, k. tauto.
    - intros [[s [Hs Ha]]|[s [segs [f [p [keys [k [Hs Hz]]]]]]]].
      + exists s. auto.
      + exists s. split; [assumption|]. right. exists segs, f, p, keys, k.
        assumption. }
  unfold data_missing. destruct a.
  - inversion H; subst. split; [apply same_view_refl|].
    split; [|reflexivity]. intros _. left. now apply Hc.
  - destruct (missing_instrument_spec dc tid _ dc dc' b (same_view_refl dc) H)
      as [Hv Hb].
    split; [assumption|]. rewrite Hb, Hinst. split; [auto|].
    intros [Ha|Hi]; [|assumption].
    apply Hc in Ha. discriminate.
Qed.

(** ** Assembling the data of a train *)

Lemma source_absent_view (dc dc' : DataCollection) (s : string) (tid : Z) :
  same_view dc dc' -> (source_absent dc' s tid <-> source_absent dc s tid).
Proof. intros Hv. unfold source_absent. now rewrite (sv_mapping _ _ Hv). Qed.

Lemma cache_ok_view (dc dc' : DataCollection) (cache : DatasetsCache) :
  same_view dc dc' -> (cache_ok dc' cache <-> cache_ok dc cache).
Proof. intros Hv. unfold cache_ok. now rewrite (sv_mapping _ _ Hv). Qed.

Lemma dcache_get_set (k k0 : string * string)
    (v : list Z * File * Dataset) (c : DatasetsCache) :
  dcache_get k (dcache_set k0 v c) =
  if pair_eqb k k0 then Some v else dcache_get k c.
Proof.
  induction c as [|[k1 v1] c IH]; simpl.
  - reflexivity.
  - destruct (pair_eqb k0 k1) eqn:E01; simpl.
    + apply pair_eqb_eq in E01. subst k1.
      destruct (pair_eqb k k0); reflexivity.
    + destruct (pair_eqb k k1) eqn:E1.
      * apply pair_eqb_eq in E1. subst k1.
        destruct (pair_eqb k k0) eqn:E0; [|reflexivity].
        apply pair_eqb_eq in E0. subst k0.
        assert (pair_eqb k k = true) by now apply pair_eqb_eq. congruence.
      * exact IH.
Qed.

Lemma find_none_position (tid : Z) (segs : list Segment) (tids : list Z)
    (f : File) :
  find_in_segments tid segs = None -> In (tids, f) segs ->
  position_of tid tids = None.
Proof.
  induction segs as [|[t g] segs IH]; simpl; intros H Hin; [contradiction|].
  destruct (position_of tid t) eqn:E; [discriminate|].
  destruct Hin as [Heq|Hin]; [inversion Heq; subst; assumption|auto].
Qed.

Lemma scan_segments_spec (path : string) (tid : Z) (segs : list Segment)
    (found : option (list Z * File * nat * Dataset)) :
  scan_segments path tid segs = Ok found ->
  match found with
  | Some (tids, f, ix, ds) => In (tids, f) segs
  | None => True
  end /\
  (find_in_segments tid segs = None -> found = None).
Proof.
  induction segs as [|[t g] segs IH]; simpl; intros H.
  - inversion H; subst. auto.
  - destruct (position_of tid t) eqn:E.
    + bind_ok H. inversion H; subst. split; [now left|discriminate].
    + destruct (IH H) as [H1 H2]. split; [|assumption].
      destruct found as [[[[tids f] ix] ds]|]; [now right|exact I].
Qed.

Lemma iter_find_data_spec (dc : DataCollection) (cache cache' : DatasetsCache)
    (source key : string) (tid : Z)
    (found : option (File * nat * Dataset)) :
  cache_ok dc cache ->
  iter_find_data dc cache source key tid = Ok (found, cache') ->
  cache_ok dc cache' /\ (source_absent dc source tid -> found = None).
Proof.
  intros Hok H. unfold iter_find_data in H.
  destruct (dcache_get (source, key) cache) as [[[ct file] ds]|] eqn:Hc.
  - destruct (position_of tid ct) as [ix|] eqn:Hp.
    + inversion H; subst. split; [assumption|].
      intros [segs [Hs Hn]]. destruct (Hok _ _ _ _ _ Hc) as [segs' [Hs' Hin]].
      assert (segs' = segs) by congruence. subst.
      rewrite (find_none_position _ _ _ _ Hn Hin) in Hp. discriminate.
    + bind_ok H. bind_ok H. unfold dict_item in E.
      destruct (dict_get source (_source_file_mapping dc)) as [segs|] eqn:Hs;
        [|discriminate]. inversion E; subst; clear E.
      destruct (scan_segments_spec _ _ _ _ E0) as [Hin Hnone].
      destruct a0 as [[[[tids f] ix] ds']|]; inversion H; subst; clear H.
      * split.
        -- intros s k t g d Hg. rewrite dcache_get_set in Hg.
           destruct (pair_eqb (s, k) (source, key)) eqn:Ek; [|eauto].
           apply pair_eqb_eq in Ek. inversion Ek; subst.
           inversion Hg; subst. eauto.
        -- intros [segs' [Hs' Hn]]. rewrite Hs in Hs'. inversion Hs'; subst.
           specialize (Hnone Hn). discriminate.
      * auto.
  - bind_ok H. bind_ok H. unfold dict_item in E.
    destruct (dict_get source (_source_file_mapping dc)) as [segs|] eqn:Hs;
      [|discriminate]. inversion E; subst; clear E.
    destruct (scan_segments_spec _ _ _ _ E0) as [Hin Hnone].
    destruct a0 as [[[[tids f] ix] ds']|]; inversion H; subst; clear H.
    + split.
      * intros s k t g d Hg. rewrite dcache_get_set in Hg.
        destruct (pair_eqb (s, k) (source, key)) eqn:Ek; [|eauto].
        apply pair_eqb_eq in Ek. inversion Ek; subst.
        inversion Hg; subst. eauto.
      * intros [segs' [Hs' Hn]]. rewrite Hs in Hs'. inversion Hs'; subst.
           specialize (Hnone Hn). discriminate.
    + auto.
Qed.

Lemma assemble_control_keys_spec (dc : DataCollection) (source : string)
    (tid : Z) (keys : list string) (cache cache' : DatasetsCache)
    (sd sd' : SourceData) :
  cache_ok dc cache ->
  assemble_control_keys dc cache source tid sd keys = Ok (sd', cache') ->
  cache_ok dc cache' /\ (source_absent dc source tid -> sd' = sd).
Proof.
  revert cache sd. induction keys as [|key keys IH]; intros cache sd Hok H;
    simpl in H.
  - inversion H; subst. auto.
  - bind_ok H. destruct a as [found cache1].
    destruct (iter_find_data_spec _ _ _ _ _ _ _ Hok E) as [Hok1 Hnone].
    destruct found as [[[f pos] ds]|].
    + bind_ok H. destruct (IH _ _ Hok1 H) as [Hok2 _].
      split; [assumption|]. intros Ha. specialize (Hnone Ha). discriminate.
    + exact (IH _ _ Hok1 H).
Qed.

Lemma assemble_instrument_keys_spec (dc0 : DataCollection) (source : string)
    (tid : Z) (keys : list string) (dc dc' : DataCollection)
    (cache cache' : DatasetsCache) (sd sd' : SourceData) :
  same_view dc0 dc -> cache_ok dc0 cache ->
  assemble_instrument_keys dc cache source tid sd keys = Ok (sd', dc', cache') ->
  same_view dc0 dc' /\ cache_ok dc0 cache' /\
  (source_absent dc0 source tid -> sd' = sd).
Proof.
  revert dc cache sd. induction keys as [|key keys IH];
    intros dc cache sd Hv Hok H; simpl in H.
  - inversion H; subst. auto.
  - bind_ok H. destruct a as [found cache1].
    assert (Hok' : cache_ok dc cache) by now apply (cache_ok_view dc0 dc).
    destruct (iter_find_data_spec _ _ _ _ _ _ _ Hok' E) as [Hok1 Hnone].
    apply (cache_ok_view dc0 dc) in Hok1; [|assumption].
    destruct found as [[[f pos] ds]|].
    + bind_ok H. destruct a as [[firsts counts] dc1].
      bind_ok H. bind_ok H. bind_ok H.
      destruct (get_index_view _ _ _ _ _ _ E0) as [Hv1 _].
      destruct (IH _ _ _ (same_view_trans _ _ _ Hv Hv1) Hok1 H)
        as [Hv2 [Hok2 _]].
      split; [assumption|]. split; [assumption|].
      intros Ha. apply (source_absent_view dc0 dc) in Ha; [|assumption].
      specialize (Hnone Ha). discriminate.
    + exact (IH _ _ _ Hv Hok1 H).
Qed.

Lemma assemble_control_spec (dc0 : DataCollection) (tid : Z)
    (sources : list string) (dc dc' : DataCollection)
    (cache cache' : DatasetsCache) (res res' : TrainData) :
  same_view dc0 dc -> cache_ok dc0 cache ->
  assemble_control dc cache tid res sources = Ok (res', dc', cache') ->
  same_view dc0 dc' /\ cache_ok dc0 cache' /\
  forall s, source_absent dc0 s tid ->
            dict_get s res = Some [] \/ In s sources ->
            dict_get s res' = Some [].
Proof.
  revert dc cache res. induction sources as [|source sources IH];
    intros dc cache res Hv Hok H; simpl in H.
  - inversion H; subst. split; [assumption|]. split; [assumption|].
    intros s _ [Hs|[]]. assumption.
  - bind_ok H. destruct a as [kv dc1]. bind_ok H. bind_ok H.
    destruct a0 as [sd cache1].
    destruct (keys_for_source_view _ _ _ _ E) as [Hv1 _].
    assert (Hv01 : same_view dc0 dc1) by (eapply same_view_trans; eauto).
    assert (Hok' : cache_ok dc1 cache) by now apply (cache_ok_view dc0 dc1).
    destruct (assemble_control_keys_spec _ _ _ _ _ _ _ _ Hok' E1)
      as [Hok1 Hsd].
    apply (cache_ok_view dc0 dc1) in Hok1; [|assumption].
    destruct (IH _ _ _ Hv01 Hok1 H) as [Hv2 [Hok2 Hres]].
    split; [assumption|]. split; [assumption|].
    intros s Ha Hs. apply Hres; [assumption|].
    destruct (string_dec s source) as [->|Hne].
    + left. rewrite dict_get_set_same. f_equal. apply Hsd.
      now apply (source_absent_view dc0 dc1).
    + rewrite dict_get_set_other by assumption.
      destruct Hs as [Hs|[Hs|Hs]]; [now left|congruence|now right].
Qed.

Lemma assemble_instrument_spec (dc0 : DataCollection) (tid : Z)
    (sources : list string) (dc dc' : DataCollection)
    (cache cache' : DatasetsCache) (res res' : TrainData) :
  same_view dc0 dc -> cache_ok dc0 cache ->
  assemble_instrument dc cache tid res sources = Ok (res', dc', cache') ->
  same_view dc0 dc' /\ cache_ok dc0 cache' /\
  forall s, source_absent dc0 s tid ->
            dict_get s res = Some [] \/ In s sources ->
            dict_get s res' = Some [].
Proof.
  revert dc cache res. induction sources as [|source sources IH];
    intros dc cache res Hv Hok H; simpl in H.
  - inversion H; subst. split; [assumption|]. split; [assumption|].
    intros s _ [Hs|[]]. assumption.
  - bind_ok H. destruct a as [kv dc1]. bind_ok H. bind_ok H.
    destruct a0 as [[sd dc2] cache1].
    destruct (keys_for_source_view _ _ _ _ E) as [Hv1 _].
    assert (Hv01 : same_view dc0 dc1) by (eapply same_view_trans; eauto).
    destruct (assemble_instrument_keys_spec dc0 _ _ _ _ _ _ _ _ _ Hv01 Hok E1)
      as [Hv02 [Hok1 Hsd]].
    destruct (IH _ _ _ Hv02 Hok1 H) as [Hv2 [Hok2 Hres]].
    split; [assumption|]. split; [assumption|].
    intros s Ha Hs. apply Hres; [assumption|].
    destruct (string_dec s source) as [->|Hne].
    + left. rewrite dict_get_set_same. f_equal. now apply Hsd.
    + rewrite dict_get_set_other by assumption.
      destruct Hs as [Hs|[Hs|Hs]]; [now left|congruence|now right].
Qed.

(** [_assemble_data] gives an empty mapping to every source of the
    collection that has no segment with the train. *)
Lemma assemble_data_spec (dc0 : DataCollection) (it it' : TrainIterator)
    (tid : Z) (res : TrainData) :
  same_view dc0 (data it) -> cache_ok dc0 (_datasets_cache it) ->
  _assemble_data it tid = Ok (res, it') ->
  same_view dc0 (data it') /\ cache_ok dc0 (_datasets_cache it') /\
  require_all it' = require_all it /\
  forall s, In s (control_sources dc0) \/ In s (instrument_sources dc0) ->
            source_absent dc0 s tid -> dict_get s res = Some [].
Proof.
  intros Hv Hok H. unfold _assemble_data in H.
  bind_ok H. destruct a as [[res1 dc1] cache1]. bind_ok H.
  destruct a as [[res2 dc2] cache2]. inversion H; subst; clear H. simpl.
  destruct (assemble_control_spec dc0 _ _ _ _ _ _ _ _ Hv Hok E)
    as [Hv1 [Hok1 Hres1]].
  destruct (assemble_instrument_spec dc0 _ _ _ _ _ _ _ _ Hv1 Hok1 E0)
    as [Hv2 [Hok2 Hres2]].
  split; [assumption|]. split; [assumption|]. split; [reflexivity|].
  intros s Hs Ha. apply Hres2; [assumption|].
  rewrite (sv_control _ _ Hv) in Hres1. rewrite (sv_instrument _ _ Hv).
  destruct Hs as [Hs|Hs]; [left|now right].
  apply Hres1; [assumption|now right].
Qed.

Lemma data_missing_view (dc dc' : DataCollection) (tid : Z) :
  same_view dc dc' -> (data_missing dc' tid <-> data_missing dc tid).
Proof.
  intros Hv.
  assert (Ha : forall s, source_absent dc' s tid <-> source_absent dc s tid)
    by (intros s; now apply source_absent_view).
  unfold data_missing, control_absent, instrument_absent, zero_count,
    source_keys_list, group_zero.
  rewrite (sv_control _ _ Hv), (sv_instrument _ _ Hv), (sv_mapping _ _ Hv).
  setoid_rewrite Ha. setoid_rewrite (sv_keys _ _ Hv).
  setoid_rewrite (sv_index _ _ Hv). reflexivity.
Qed.

Lemma iter_trains_spec (dc0 : DataCollection) (tids : list Z)
    (it : TrainIterator) (out : list (Z * TrainData)) :
  same_view dc0 (data it) -> cache_ok dc0 (_datasets_cache it) ->
  iter_trains it tids = (out, None) ->
  (require_all it = true ->
   forall tid, In tid (map fst out) <->
               In tid tids /\ ~ data_missing dc0 tid) /\
  (require_all it = false -> map fst out = tids) /\
  (forall tid res, In (tid, res) out ->
     forall s, In s (control_sources dc0) \/ In s (instrument_sources dc0) ->
               source_absent dc0 s tid -> dict_get s res = Some []).
Proof.
  revert it out. induction tids as [|tid tids IH]; intros it out Hv Hok H;
    simpl in H.
  - inversion H; subst. simpl. split; [|split].
    + intros _ t. tauto.
    + reflexivity.
    + intros t res [].
  - destruct (require_all it) eqn:Hreq.
    + destruct (_check_data_missing (data it) tid) as [[b dc]|e] eqn:Hchk;
        simpl in H; [|discriminate].
      destruct (check_data_missing_spec _ _ _ _ Hchk) as [Hv1 Hb].
      rewrite (data_missing_view dc0 (data it) tid Hv) in Hb.
      assert (Hv' : same_view dc0 dc) by (eapply same_view_trans; eauto).
      destruct b.
      * match type of H with
        | iter_trains ?i _ = _ =>
            destruct (IH i _ Hv' Hok H) as [Hall [_ Hemp]]
        end.
        split; [|split; [discriminate|assumption]].
        intros _ t. rewrite (Hall eq_refl t). simpl. split.
        -- intros [Ht Hn]. auto.
        -- intros [[<-|Ht] Hn]; [|auto].
           exfalso. apply Hn. now apply Hb.
      * destruct (_assemble_data _ tid) as [[res it2]|e] eqn:Hasm;
          [|discriminate].
        destruct (iter_trains it2 tids) as [rest e] eqn:Hrest.
        inversion H; subst; clear H.
        match type of Hasm with
        | _assemble_data ?i _ = _ =>
            destruct (assemble_data_spec dc0 i _ _ _ Hv' Hok Hasm)
              as [Hv2 [Hok2 [Hreq2 Hres]]]
        end.
        destruct (IH _ _ Hv2 Hok2 Hrest) as [Hall [_ Hemp]].
        split; [|split; [discriminate|]].
        -- intros _ t. simpl. rewrite (Hall Hreq2 t). split.
           ++ intros [<-|[Ht Hn]]; [|auto]. split; [now left|].
              intros Hm. apply Hb in Hm. discriminate.
           ++ intros [[<-|Ht] Hn]; auto.
        -- intros t r [Heq|Hin]; [|eauto].
           inversion Heq; subst. exact Hres.
    + simpl in H.
      destruct (_assemble_data it tid) as [[res it2]|e] eqn:Hasm;
        [|discriminate].
      destruct (iter_trains it2 tids) as [rest e] eqn:Hrest.
      inversion H; subst; clear H.
      destruct (assemble_data_spec dc0 _ _ _ _ Hv Hok Hasm)
        as [Hv2 [Hok2 [Hreq2 Hres]]].
      destruct (IH _ _ Hv2 Hok2 Hrest) as [_ [Hall Hemp]].
      split; [discriminate|]. split.
      * intros _. simpl. f_equal. apply Hall. congruence.
      * intros t r [Heq|Hin]; [|eauto].
        inversion Heq; subst. exact Hres.
Qed.

(** ** Iterating over trains *)

Lemma run_skip_built : RunDirectory [file_c; file_i] = Ok run_skip.
Proof. reflexivity. Qed.

(** C6 (as stated) fails: in [run_skip] train 2 is skipped with
    [require_all=True] although the control source has a segment with
    train 2 and no group of the instrument source reports a count of 0 for
    it: the instrument source simply has no segment with train 2. *)
Lemma train_skipped_without_zero_count :
  map fst (fst (iterate run_skip true)) = [1] /\
  snd (iterate run_skip true) = None /\
  In 2 (train_ids run_skip) /\
  ~ control_absent run_skip 2 /\ ~ zero_count run_skip 2 /\
  instrument_absent run_skip 2.
Proof.
  split; [reflexivity|]. split; [reflexivity|].
  split; [simpl; auto|]. split; [|split].
  - intros [s [Hs [segs [Hd Hf]]]]. simpl in Hs. destruct Hs as [<-|[]].
    inversion Hd; subst. discriminate Hf.
  - intros [s [segs [f [pos [keys [k [Hs [Hd [Hf _]]]]]]]]].
    simpl in Hs. destruct Hs as [<-|[]].
    inversion Hd; subst. discriminate Hf.
  - exists "Y:out". split; [simpl; auto|]. eexists. split; reflexivity.
Qed.

(** C6 (amended): iterating with [require_all=True] skips a train ID
    exactly when some retained control source has no segment containing it,
    or some retained instrument source has no segment containing it, or
    some group of a retained instrument source reports a count of 0 for
    it; that is what [_check_data_missing] answers.  With
    [require_all=False] every selected train ID is yielded, in order.  In
    both modes a yielded train has an empty mapping for every source
    without a segment containing it.  (An iteration that raises yields the
    trains before the exception; the statement is about iterations that do
    not.) *)
Theorem train_iteration_skips (dc : DataCollection) (require_all : bool)
    (out : list (Z * TrainData)) :
  iterate dc require_all = (out, None) ->
  (forall tid b dc', _check_data_missing dc tid = Ok (b, dc') ->
                     (b = true <-> data_missing dc tid)) /\
  (require_all = true ->
   forall tid, In tid (map fst out) <->
               In tid (train_ids dc) /\
               ~ (control_absent dc tid \/ instrument_absent dc tid \/
                  zero_count dc tid)) /\
  (require_all = false -> map fst out = train_ids dc) /\
  (forall tid res, In (tid, res) out ->
     forall s, In s (control_sources dc) \/ In s (instrument_sources dc) ->
               source_absent dc s tid -> dict_get s res = Some []).
Proof.
  unfold iterate, TrainIterator_iter. simpl. intros H. split.
  - intros tid b dc' Hc. now destruct (check_data_missing_spec _ _ _ _ Hc).
  - assert (Hok : cache_ok dc []) by (intros s k t f ds Hg; discriminate Hg).
    exact (iter_trains_spec dc (train_ids dc)
             {| data := dc; require_all := require_all;
                _datasets_cache := [] |} out (same_view_refl dc) Hok H).
Qed.

(** In [run_skip] train 1 has data for both sources and train 2 lacks the
    instrument source. *)
Lemma train_iteration_skips_witness :
  (forall tid, In tid (map fst (fst (iterate run_skip true))) <->
               In tid [1; 2] /\
               ~ (control_absent run_skip tid \/
                  instrument_absent run_skip tid \/ zero_count run_skip tid)) /\
  map fst (fst (iterate run_skip false)) = [1; 2] /\
  (forall res, In (2, res) (fst (iterate run_skip false)) ->
               dict_get "Y:out" res = Some []).
Proof.
  destruct (train_iteration_skips run_skip true
              (fst (iterate run_skip true)) eq_refl) as [_ [Htrue _]].
  destruct (train_iteration_skips run_skip false
              (fst (iterate run_skip false)) eq_refl) as [_ [_ [Hfalse Hemp]]].
  split; [exact (Htrue eq_refl)|]. split; [exact (Hfalse eq_refl)|].
  intros res Hres. apply (Hemp 2 res Hres "Y:out").
  - right. simpl. auto.
  - eexists. split; reflexivity.
Defined.

(** * Further properties of the query engine *)

(** ** The caches *)

Lemma cache_key_eqb_refl (k : CacheKey) : cache_key_eqb k k = true.
Proof. now apply cache_key_eqb_eq. Qed.

(** X1: [_get_index] memoises.  After a successful call the index it
    returned is stored in [_index_cache] under (file, source, group), and
    the same call on the resulting collection returns that index and
    changes nothing.  An index that was cached before is returned without
    any change to the collection; one that was not is the index
    [_read_index] reads from the file, and the cache is the old one with
    that one entry more, at its end.  No earlier cache entry is lost or
    replaced, and nothing but the index cache changes. *)
Theorem get_index_memoised (dc dc' : DataCollection) (file : File)
    (source group : string) (ix : list Z * list Z) :
  _get_index dc file source group = Ok (ix, dc') ->
  cache_get (file, source, group) (_index_cache dc') = Some ix /\
  _get_index dc' file source group = Ok (ix, dc') /\
  (forall old, cache_get (file, source, group) (_index_cache dc) = Some old ->
               ix = old /\ dc' = dc) /\
  (cache_get (file, source, group) (_index_cache dc) = None ->
   _read_index file source group = Ok ix /\
   _index_cache dc' = _index_cache dc ++ [((file, source, group), ix)]) /\
  (forall k v, cache_get k (_index_cache dc) = Some v ->
               cache_get k (_index_cache dc') = Some v) /\
  instrument_sources dc' = instrument_sources dc /\
  control_sources dc' = control_sources dc /\
  train_ids dc' = train_ids dc /\
  _source_file_mapping dc' = _source_file_mapping dc /\
  _source_keys dc' = _source_keys dc.
Proof.
  unfold _get_index. intros H.
  destruct (cache_get (file, source, group) (_index_cache dc)) as [x|] eqn:Hc.
  - inversion H; subst; clear H. rewrite Hc.
    split; [reflexivity|]. split; [reflexivity|].
    split; [intros old Ho; inversion Ho; auto|].
    split; [discriminate|]. repeat split; auto.
  - bind_ok H. inversion H; subst; clear H. unfold with_cache. simpl.
    rewrite cache_get_app, Hc, cache_key_eqb_refl.
    split; [reflexivity|]. split; [reflexivity|].
    split; [discriminate|]. split; [auto|]. split; [|repeat split].
    intros k v Hk. rewrite cache_get_app, Hk. reflexivity.
Qed.

(** The index of [Y:out]/[image] in [file_multi], first read and then
    served from the cache. *)
Lemma get_index_memoised_witness :
  exists dc',
    _get_index run_multi file_multi "Y:out" "image"
      = Ok (([0; 0; 2], [0; 2; 1]), dc') /\
    cache_get (file_multi, "Y:out", "image") (_index_cache run_multi) = None /\
    cache_get (file_multi, "Y:out", "image") (_index_cache dc')
      = Some ([0; 0; 2], [0; 2; 1]) /\
    _get_index dc' file_multi "Y:out" "image"
      = Ok (([0; 0; 2], [0; 2; 1]), dc').
Proof.
  eexists. split; [reflexivity|]. split; [reflexivity|].
  destruct (get_index_memoised run_multi _ file_multi "Y:out" "image"
              ([0; 0; 2], [0; 2; 1]) eq_refl) as [Hstored [Hagain _]].
  split; [exact Hstored|exact Hagain].
Defined.

(** X2: [_keys_for_source] memoises.  When it returns a key set, that set
    is afterwards stored under the source in [_source_keys], and the same
    call on the resulting collection returns it again and changes
    nothing. *)
Theorem keys_for_source_memoised (dc dc' : DataCollection) (source : string)
    (kv : keyval) :
  _keys_for_source dc source = Ok (Some kv, dc') ->
  dict_get source (_source_keys dc') = Some kv /\
  _keys_for_source dc' source = Ok (Some kv, dc').
Proof.
  intros H.
  assert (Hd : dict_get source (_source_keys dc') = Some kv /\
               all_sources dc' = all_sources dc).
  { unfold _keys_for_source in H.
    destruct (negb (str_in source (all_sources dc))); [discriminate|].
    destruct (dict_get source (_source_keys dc)) as [kv0|] eqn:Hk.
    - inversion H; subst. auto.
    - bind_ok H. destruct a as [|[tids f] r]; [discriminate|].
      bind_ok H. inversion H; subst; clear H. simpl.
      split; [apply dict_get_set_same|reflexivity]. }
  destruct Hd as [Hd Hall]. split; [exact Hd|].
  assert (Hin : negb (str_in source (all_sources dc)) = false).
  { unfold _keys_for_source in H.
    destruct (negb (str_in source (all_sources dc))); [discriminate|reflexivity]. }
  unfold _keys_for_source. rewrite Hall, Hin, Hd. reflexivity.
Qed.

(** The keys of [X] in [run_gap], read from the file once. *)
Lemma keys_for_source_memoised_witness :
  exists dc',
    _keys_for_source run_gap "X" = Ok (Some (KSet ["val.value"]), dc') /\
    _source_keys dc' = [("X", KSet ["val.value"])] /\
    _keys_for_source dc' "X" = Ok (Some (KSet ["val.value"]), dc').
Proof.
  eexists. split; [reflexivity|]. split; [reflexivity|].
  apply (keys_for_source_memoised run_gap _ "X" (KSet ["val.value"]) eq_refl).
Defined.

(** ** Reading an index *)

Lemma nth_error_combine {A B} (l : list A) (m : list B) (i : nat)
    (a : A) (b : B) :
  nth_error l i = Some a -> nth_error m i = Some b ->
  nth_error (combine l m) i = Some (a, b).
Proof.
  revert m i. induction l as [|x l IH]; intros [|y m] [|i] Ha Hb;
    simpl in *; try discriminate.
  - congruence.
  - now apply IH.
Qed.

Lemma broadcast2_same_length (op : Z -> Z -> Z) (a b : list Z) :
  List.length a = List.length b ->
  broadcast2 op a b = Ok (map (fun p => op (fst p) (snd p)) (combine a b)).
Proof.
  intros H. unfold broadcast2. rewrite H, Nat.eqb_refl. reflexivity.
Qed.

(** X3: [_read_index] returns the [count] dataset when the index group
    has one.  Otherwise, for [first], [last] and [status] arrays of one
    length, it returns as many counts, the count of train [i] being
    [(last[i] - first[i] + 1) * status[i]] modulo [2^64]; so a train whose
    status is 0 has the count 0 whatever [first] and [last] say. *)
Theorem read_index_counts (file : File) (source group : string)
    (g : IndexGroup) :
  dict_get ("/INDEX/" ++ source ++ "/" ++ group)%string (f_index file)
    = Some g ->
  (forall counts, ix_count g = Some counts ->
                  _read_index file source group = Ok (ix_first g, counts)) /\
  (forall lasts status,
      ix_count g = None -> ix_last g = Some lasts ->
      ix_status g = Some status ->
      List.length lasts = List.length (ix_first g) ->
      List.length status = List.length (ix_first g) ->
      exists counts,
        _read_index file source group = Ok (ix_first g, counts) /\
        List.length counts = List.length (ix_first g) /\
        (forall i f l s,
            nth_error (ix_first g) i = Some f ->
            nth_error lasts i = Some l ->
            nth_error status i = Some s ->
            nth_error counts i = Some (((l - f + 1) * s) mod two64)) /\
        (forall i, nth_error status i = Some 0 ->
                   nth_error counts i = Some 0)).
Proof.
  intros Hg. split.
  - intros counts Hc. unfold _read_index, dict_item. rewrite Hg. cbn [bind].
    rewrite Hc. reflexivity.
  - intros lasts status Hc Hl Hs Hll Hsl.
    set (d := map (fun p => fst p - snd p + 1) (combine lasts (ix_first g))).
    assert (Hd : List.length d = List.length status).
    { subst d. rewrite length_map, length_combine. lia. }
    set (c := map (fun p => fst p * snd p) (combine d status)).
    assert (Hformula : forall i f l s,
              nth_error (ix_first g) i = Some f ->
              nth_error lasts i = Some l ->
              nth_error status i = Some s ->
              nth_error (map (fun x => x mod two64) c) i
                = Some (((l - f + 1) * s) mod two64)).
    { intros i f l s Hf Hla Hst.
      assert (Hdi : nth_error d i = Some (l - f + 1)).
      { subst d. rewrite nth_error_map.
        rewrite (nth_error_combine _ _ _ _ _ Hla Hf). reflexivity. }
      subst c. rewrite !nth_error_map.
      rewrite (nth_error_combine _ _ _ _ _ Hdi Hst). reflexivity. }
    exists (map (fun x => x mod two64) c). split; [|split; [|split]].
    + unfold _read_index, dict_item. rewrite Hg. cbn [bind].
      rewrite Hc, Hs, Hl. cbn [option_item bind].
      rewrite (broadcast2_same_length _ lasts (ix_first g) Hll). cbn [bind].
      fold d. rewrite (broadcast2_same_length _ d status Hd). reflexivity.
    + subst c. rewrite !length_map, length_combine. lia.
    + exact Hformula.
    + intros i Hst.
      assert (Hi : (i < List.length status)%nat)
        by (apply nth_error_Some; congruence).
      destruct (nth_error (ix_first g) i) as [f|] eqn:Hf;
        [|apply nth_error_None in Hf; lia].
      destruct (nth_error lasts i) as [l|] eqn:Hla;
        [|apply nth_error_None in Hla; lia].
      rewrite (Hformula i f l 0 Hf Hla Hst).
      rewrite Z.mul_0_r. reflexivity.
Qed.

(** The index of [file_old]: counts [1; 0; 2]. *)
Lemma read_index_counts_witness :
  _read_index file_old "Y:out" "image" = Ok ([0; 1; 2], [1; 0; 2]) /\
  exists counts,
    _read_index file_old "Y:out" "image" = Ok ([0; 1; 2], counts) /\
    nth_error counts 1 = Some 0.
Proof.
  split; [reflexivity|].
  destruct (read_index_counts file_old "Y:out" "image"
              {| ix_first := [0; 1; 2]; ix_count := None;
                 ix_last := Some [0; 1; 3]; ix_status := Some [1; 0; 1] |}
              eq_refl) as [_ Hderived].
  destruct (Hderived [0; 1; 3] [1; 0; 1] eq_refl eq_refl eq_refl
              eq_refl eq_refl) as [counts [Hr [_ [_ Hzero]]]].
  exists counts. split; [exact Hr|]. apply Hzero. reflexivity.
Defined.

(** ** Building a collection from files *)

Lemma file_train_ids_In (f : File) (t : Z) :
  In t (file_train_ids f) <-> t <> 0 /\ In t (f_trainId f).
Proof.
  unfold file_train_ids. rewrite filter_In, negb_true_iff, Z.eqb_neq. tauto.
Qed.

Lemma add_file_ids (dc dc' : DataCollection) (f : File) (t : Z) :
  add_file dc f = Ok dc' ->
  (In t (train_ids dc') <->
   In t (train_ids dc) \/ (t <> 0 /\ In t (f_trainId f))).
Proof.
  unfold add_file. intros H. bind_ok H. inversion H; subst; clear H. simpl.
  rewrite sorted_set_In, in_app_iff, file_train_ids_In. reflexivity.
Qed.

Lemma add_files_ids (fs : list File) (dc dc' : DataCollection) (t : Z) :
  add_files dc fs = Ok dc' ->
  (In t (train_ids dc') <->
   In t (train_ids dc) \/
   (t <> 0 /\ exists f, In f fs /\ In t (f_trainId f))).
Proof.
  revert dc. induction fs as [|f fs IH]; intros dc H; simpl in H.
  - inversion H; subst. split; [auto|]. intros [Ht|[_ [f [[] _]]]]. exact Ht.
  - bind_ok H. rewrite (IH _ H), (add_file_ids _ _ _ t E). split.
    + intros [[Ht|[Hz Ht]]|[Hz [g [Hg Ht]]]]; auto.
      * right. split; [assumption|]. exists f. split; [now left|assumption].
      * right. split; [assumption|]. exists g. split; [now right|assumption].
    + intros [Ht|[Hz [g [[<-|Hg] Ht]]]]; auto.
      right. split; [assumption|]. eauto.
Qed.

Lemma add_files_sorted (fs : list File) (dc dc' : DataCollection) :
  add_files dc fs = Ok dc' -> strictly_increasing (train_ids dc) ->
  strictly_increasing (train_ids dc').
Proof.
  revert dc. induction fs as [|f fs IH]; intros dc H Hs; simpl in H.
  - inversion H; subst. exact Hs.
  - bind_ok H. apply (IH _ H). now destruct (add_file_train_ids _ _ _ E).
Qed.

(** X4: the train IDs of a collection opened with [RunDirectory] (or
    [H5File]) are exactly the non-zero entries of the [INDEX/trainId]
    arrays of its files: the sentinel 0 never appears, nothing else is
    dropped, and the list is strictly increasing. *)
Theorem run_directory_train_ids (fs : list File) (dc : DataCollection) :
  RunDirectory fs = Ok dc ->
  strictly_increasing (train_ids dc) /\ ~ In 0 (train_ids dc) /\
  forall t, In t (train_ids dc) <->
            t <> 0 /\ exists f, In f fs /\ In t (f_trainId f).
Proof.
  unfold RunDirectory. intros H.
  assert (Hin : forall t, In t (train_ids dc) <->
                  t <> 0 /\ exists f, In f fs /\ In t (f_trainId f)).
  { intros t. rewrite (add_files_ids fs new_collection dc t H). simpl. tauto. }
  split; [|split; [|exact Hin]].
  - apply (add_files_sorted fs new_collection dc H). constructor.
  - intros H0. apply Hin in H0. destruct H0 as [Hne _]. now apply Hne.
Qed.

(** [file_gap] has the [INDEX/trainId] array [10; 12; 0]. *)
Lemma run_directory_train_ids_witness :
  ~ In 0 (train_ids run_gap) /\
  (In 12 (train_ids run_gap) <->
   12 <> 0 /\ exists f, In f [file_gap] /\ In 12 (f_trainId f)).
Proof.
  destruct (run_directory_train_ids [file_gap] run_gap eq_refl)
    as [_ [Hzero Hin]].
  split; [exact Hzero|apply Hin].
Defined.

Lemma add_source_total (st st' st2 : add_state) (s : string) :
  add_source st s = Ok st' -> exists st2', add_source st2 s = Ok st2'.
Proof.
  unfold add_source. destruct (String.eqb s ""); [eauto|].
  destruct (partition "/" s) as [[category found] h5_source].
  destruct (String.eqb category "INSTRUMENT").
  - destruct (partition ":" h5_source) as [[device f2] chan_grp].
    destruct (partition "/" chan_grp) as [[chan f3] group]. eauto.
  - destruct (String.eqb category "CONTROL"); [eauto|discriminate].
Qed.

Lemma add_sources_total (l : list string) (st st' st2 : add_state) :
  add_sources st l = Ok st' -> exists st2', add_sources st2 l = Ok st2'.
Proof.
  revert st st2. induction l as [|s l IH]; intros st st2 H; simpl in *.
  - eauto.
  - bind_ok H. destruct (add_source_total _ _ st2 _ E) as [st3 E3].
    rewrite E3. cbn [bind]. eapply IH; eauto.
Qed.

Lemma add_file_total (dc dc' dc2 : DataCollection) (f : File) :
  add_file dc f = Ok dc' -> exists dc2', add_file dc2 f = Ok dc2'.
Proof.
  unfold add_file. intros H. bind_ok H.
  destruct (add_sources_total _ _ _
              {| as_instrument := instrument_sources dc2;
                 as_control := control_sources dc2; as_sources := [] |} E)
    as [st2 E2].
  rewrite E2. cbn [bind]. eauto.
Qed.

(** Whether the files can be added depends on each file alone. *)
Lemma add_files_total (fs : list File) (dc dc' : DataCollection) :
  add_files dc fs = Ok dc' ->
  forall gs dc2, (forall g, In g gs -> In g fs) ->
                 exists dc2', add_files dc2 gs = Ok dc2'.
Proof.
  intros H gs. induction gs as [|g gs IH]; intros dc2 Hsub; simpl.
  - eauto.
  - assert (Hg : exists d d', add_file d g = Ok d').
    { assert (Hin : In g fs) by (apply Hsub; now left).
      clear -H Hin. revert dc H. induction fs as [|f fs IHf]; intros dc H;
        [contradiction|].
      simpl in H. bind_ok H. destruct Hin as [->|Hin]; [eauto|].
      eapply IHf; eauto. }
    destruct Hg as [d [d' Hd]].
    destruct (add_file_total _ _ dc2 _ Hd) as [dc3 E3]. rewrite E3.
    cbn [bind]. apply IH. intros x Hx. apply Hsub. now right.
Qed.

(** X5: the order in which the files of a run are added does not matter
    for the train IDs: if [RunDirectory] succeeds on a list of files, it
    succeeds on every permutation of it, with the same [train_ids]. *)
Theorem run_directory_file_order (fs gs : list File) (dc : DataCollection) :
  Permutation fs gs -> RunDirectory fs = Ok dc ->
  exists dc', RunDirectory gs = Ok dc' /\ train_ids dc' = train_ids dc.
Proof.
  unfold RunDirectory. intros HP H.
  destruct (add_files_total fs new_collection dc H gs new_collection)
    as [dc' H'].
  { intros g Hg. eapply Permutation_in; [apply Permutation_sym|]; eauto. }
  exists dc'. split; [exact H'|].
  apply strictly_increasing_unique.
  - apply (add_files_sorted gs new_collection dc' H'). constructor.
  - apply (add_files_sorted fs new_collection dc H). constructor.
  - intros t. rewrite (add_files_ids gs new_collection dc' t H').
    rewrite (add_files_ids fs new_collection dc t H). simpl.
    split; intros [[]|[Hz [f [Hf Ht]]]]; right; (split; [assumption|]);
      exists f; (split; [|assumption]).
    + eapply Permutation_in; [apply Permutation_sym|]; eauto.
    + eapply Permutation_in; eauto.
Qed.

(** [file_A] and [file_B] in either order. *)
Lemma run_directory_file_order_witness :
  exists dc', RunDirectory [file_A; file_B] = Ok dc' /\
              train_ids dc' = [100; 101; 102; 103; 104].
Proof.
  apply (run_directory_file_order [file_B; file_A] [file_A; file_B] run_BA).
  - apply perm_swap.
  - reflexivity.
Defined.

(** ** Registering the sources of a file *)

Lemma set_add_NoDup (s : string) (l : list string) :
  NoDup l -> NoDup (set_add s l).
Proof.
  intros H. unfold set_add. destruct (str_in s l) eqn:E; [assumption|].
  apply NoDup_app; [assumption|repeat constructor; auto|].
  intros x Hx [<-|[]]. apply str_in_In in Hx. congruence.
Qed.

Lemma add_source_inv (st st' : add_state) (s : string) :
  add_source st s = Ok st' ->
  (NoDup (as_sources st) -> NoDup (as_sources st')) /\
  (forall x, In x (as_sources st) -> In x (as_sources st')) /\
  (forall x, In x (as_control st) -> In x (as_control st')) /\
  (forall x, In x (as_instrument st) -> In x (as_instrument st')) /\
  (forall x, In x (as_sources st') ->
             In x (as_sources st) \/
             In x (as_control st') \/ In x (as_instrument st')).
Proof.
  unfold add_source. intros H. destruct (String.eqb s "").
  { inversion H; subst. repeat split; auto. }
  destruct (partition "/" s) as [[category found] h5_source].
  destruct (String.eqb category "INSTRUMENT").
  - destruct (partition ":" h5_source) as [[device f2] chan_grp].
    destruct (partition "/" chan_grp) as [[chan f3] group].
    inversion H; subst; clear H. simpl.
    repeat split; auto using set_add_NoDup; intros x Hx;
      try (apply set_add_In; now right).
    apply set_add_In in Hx. destruct Hx as [->|Hx]; [|now left].
    right. right. apply set_add_In. now left.
  - destruct (String.eqb category "CONTROL"); [|discriminate].
    inversion H; subst; clear H. simpl.
    repeat split; auto using set_add_NoDup; intros x Hx;
      try (apply set_add_In; now right).
    apply set_add_In in Hx. destruct Hx as [->|Hx]; [|now left].
    right. left. apply set_add_In. now left.
Qed.

Lemma add_sources_inv (l : list string) (st st' : add_state) :
  add_sources st l = Ok st' ->
  (NoDup (as_sources st) -> NoDup (as_sources st')) /\
  (forall x, In x (as_sources st) -> In x (as_sources st')) /\
  (forall x, In x (as_control st) -> In x (as_control st')) /\
  (forall x, In x (as_instrument st) -> In x (as_instrument st')) /\
  (forall x, In x (as_sources st') ->
             In x (as_sources st) \/
             In x (as_control st') \/ In x (as_instrument st')).
Proof.
  revert st. induction l as [|s l IH]; intros st H; simpl in H.
  - inversion H; subst. repeat split; auto.
  - bind_ok H. destruct (add_source_inv _ _ _ E) as [H1 [H2 [H3 [H4 H5]]]].
    destruct (IH _ H) as [I1 [I2 [I3 [I4 I5]]]].
    repeat split; auto.
    intros x Hx. destruct (I5 x Hx) as [Hs|Hs]; [|now right].
    destruct (H5 x Hs) as [Hs'|[Hs'|Hs']]; auto.
Qed.

Lemma dict_get_register_same (seg : Segment)
    (sfm : list (string * list Segment)) (s : string) :
  dict_get s (register_segment seg sfm s) = Some (segments_of sfm s ++ [seg]).
Proof.
  unfold register_segment, segments_of.
  destruct (dict_get s sfm); apply dict_get_set_same.
Qed.

Lemma dict_get_register_other (seg : Segment)
    (sfm : list (string * list Segment)) (s x : string) :
  x <> s -> dict_get x (register_segment seg sfm s) = dict_get x sfm.
Proof.
  intros H. unfold register_segment.
  destruct (dict_get s sfm); now apply dict_get_set_other.
Qed.

Lemma register_all (seg : Segment) (sources : list string)
    (sfm : list (string * list Segment)) (x : string) :
  NoDup sources ->
  dict_get x (fold_left (register_segment seg) sources sfm) =
  if str_in x sources then Some (segments_of sfm x ++ [seg])
  else dict_get x sfm.
Proof.
  intros ND. revert sfm. induction ND as [|s l Hn ND IH]; intros sfm; simpl.
  - reflexivity.
  - rewrite IH. destruct (String.eqb x s) eqn:E.
    + apply String.eqb_eq in E. subst x. simpl.
      destruct (str_in s l) eqn:Hs; [apply str_in_In in Hs; contradiction|].
      apply dict_get_register_same.
    + apply String.eqb_neq in E. simpl.
      unfold segments_of. rewrite (dict_get_register_other _ _ _ _ E).
      reflexivity.
Qed.

(** What one [add_file] does, in terms of the sources it found. *)
Lemma add_file_registry (dc dc' : DataCollection) (f : File) :
  add_file dc f = Ok dc' ->
  exists st,
    add_sources {| as_instrument := instrument_sources dc;
                   as_control := control_sources dc; as_sources := [] |}
                (f_dataSourceId f) = Ok st /\
    control_sources dc' = as_control st /\
    instrument_sources dc' = as_instrument st /\
    forall x,
      dict_get x (_source_file_mapping dc') =
      if str_in x (as_sources st)
      then Some (segments_of (_source_file_mapping dc) x
                   ++ [(file_train_ids f, f)])
      else dict_get x (_source_file_mapping dc).
Proof.
  unfold add_file. intros H. bind_ok H. inversion H; subst; clear H.
  exists a. simpl. repeat split. intros x. apply register_all.
  destruct (add_sources_inv _ _ _ E) as [HN _]. apply HN. constructor.
Qed.

Lemma add_source_declared (st st' : add_state) (e : string) :
  add_source st e = Ok st' ->
  (forall x, In x (as_sources st') <->
             In x (as_sources st) \/ declared_source e = Some x) /\
  (forall x, In x (as_control st') <->
             In x (as_control st) \/
             (partition_head "/" e = "CONTROL" /\ declared_source e = Some x)) /\
  (forall x, In x (as_instrument st') <->
             In x (as_instrument st) \/
             (partition_head "/" e = "INSTRUMENT" /\
              declared_source e = Some x)).
Proof.
  unfold add_source, declared_source, partition_head, partition_tail.
  intros H. destruct (String.eqb e "").
  { inversion H; subst. split; [|split]; intros x; (split; [auto|]).
    - intros [Hx|Hx]; [assumption|discriminate Hx].
    - intros [Hx|[_ Hx]]; [assumption|discriminate Hx].
    - intros [Hx|[_ Hx]]; [assumption|discriminate Hx]. }
  destruct (partition "/" e) as [[category found] h5_source]. cbn [fst snd].
  destruct (String.eqb category "INSTRUMENT") eqn:Ei.
  - apply String.eqb_eq in Ei. subst category.
    destruct (partition ":" h5_source) as [[device f2] chan_grp].
    cbn [fst snd].
    destruct (partition "/" chan_grp) as [[chan f3] group]. cbn [fst snd].
    inversion H; subst; clear H. cbn [as_sources as_control as_instrument].
    split; [|split]; intros x; rewrite ?set_add_In; split.
    + intros [->|Hx]; auto.
    + intros [Hx|Hx]; [auto|]. inversion Hx. auto.
    + auto.
    + intros [Hx|[Hx _]]; [assumption|discriminate Hx].
    + intros [->|Hx]; auto.
    + intros [Hx|[_ Hx]]; [auto|]. inversion Hx. auto.
  - destruct (String.eqb category "CONTROL") eqn:Ec; [|discriminate].
    apply String.eqb_eq in Ec. subst category.
    inversion H; subst; clear H. cbn [as_sources as_control as_instrument].
    split; [|split]; intros x; rewrite ?set_add_In; split.
    + intros [->|Hx]; auto.
    + intros [Hx|Hx]; [auto|]. inversion Hx. auto.
    + intros [->|Hx]; auto.
    + intros [Hx|[_ Hx]]; [auto|]. inversion Hx. auto.
    + auto.
    + intros [Hx|[Hx _]]; [assumption|discriminate Hx].
Qed.

Lemma add_sources_declared (l : list string) (st st' : add_state) :
  add_sources st l = Ok st' ->
  (forall x, In x (as_sources st') <->
             In x (as_sources st) \/
             exists e, In e l /\ declared_source e = Some x) /\
  (forall x, In x (as_control st') <->
             In x (as_control st) \/
             exists e, In e l /\ partition_head "/" e = "CONTROL" /\
                       declared_source e = Some x) /\
  (forall x, In x (as_instrument st') <->
             In x (as_instrument st) \/
             exists e, In e l /\ partition_head "/" e = "INSTRUMENT" /\
                       declared_source e = Some x).
Proof.
  revert st. induction l as [|e l IH]; intros st H; simpl in H.
  - inversion H; subst.
    split; [|split]; intros x; (split; [auto|]);
      intros [Hx|[e [[] _]]]; assumption.
  - bind_ok H. destruct (add_source_declared _ _ _ E) as [S1 [S2 S3]].
    destruct (IH _ H) as [I1 [I2 I3]].
    split; [|split]; intros x.
    + rewrite I1, S1. split.
      * intros [[Hx|Hx]|[e' [He Hx]]]; eauto.
        -- right. exists e. split; [now left|assumption].
        -- right. exists e'. split; [now right|assumption].
      * intros [Hx|[e' [[<-|He] Hx]]]; eauto.
    + rewrite I2, S2. split.
      * intros [[Hx|Hx]|[e' [He Hx]]]; eauto.
        -- right. exists e. split; [now left|assumption].
        -- right. exists e'. split; [now right|assumption].
      * intros [Hx|[e' [[<-|He] Hx]]]; eauto.
    + rewrite I3, S3. split.
      * intros [[Hx|Hx]|[e' [He Hx]]]; eauto.
        -- right. exists e. split; [now left|assumption].
        -- right. exists e'. split; [now right|assumption].
      * intros [Hx|[e' [[<-|He] Hx]]]; eauto.
Qed.

(** X6: [add_file] appends the file's segment, exactly once and at the
    end, to the registry entry of every source the file declares in
    [METADATA/dataSourceId], and leaves the entry of every other source as
    it is.  The control sources afterwards are those known before and
    those the file declares in a [CONTROL] entry, the instrument sources
    those known before and those it declares in an [INSTRUMENT] entry.
    The index cache and the key restrictions are untouched. *)
Theorem add_file_appends_segment (dc dc' : DataCollection) (f : File) :
  add_file dc f = Ok dc' ->
  (forall x, declares f x ->
     dict_get x (_source_file_mapping dc') =
       Some (segments_of (_source_file_mapping dc) x
               ++ [(file_train_ids f, f)])) /\
  (forall x, ~ declares f x ->
     dict_get x (_source_file_mapping dc') =
     dict_get x (_source_file_mapping dc)) /\
  (forall x, In x (control_sources dc') <->
             In x (control_sources dc) \/ declares_in "CONTROL" f x) /\
  (forall x, In x (instrument_sources dc') <->
             In x (instrument_sources dc) \/ declares_in "INSTRUMENT" f x) /\
  _index_cache dc' = _index_cache dc /\ _source_keys dc' = _source_keys dc.
Proof.
  intros H. destruct (add_file_registry _ _ _ H) as [st [Hst [Hc [Hi Hreg]]]].
  destruct (add_sources_declared _ _ _ Hst) as [D1 [D2 D3]].
  cbn [as_sources as_control as_instrument] in D1, D2, D3.
  assert (Hd : forall x, In x (as_sources st) <-> declares f x).
  { intros x. rewrite D1. unfold declares. split; [|auto].
    now intros [[]|Hx]. }
  rewrite Hc, Hi. split; [|split; [|split; [|split]]].
  - intros x Hx. rewrite Hreg.
    now rewrite (proj2 (str_in_In x _) (proj2 (Hd x) Hx)).
  - intros x Hx. rewrite Hreg.
    destruct (str_in x (as_sources st)) eqn:E; [|reflexivity].
    apply str_in_In, Hd in E. contradiction.
  - exact D2.
  - exact D3.
  - unfold add_file in H. rewrite Hst in H. inversion H; subst. auto.
Qed.

(** Adding [file_A], which declares the control source [X], to the
    collection that holds [file_B]. *)
Lemma add_file_appends_segment_witness :
  exists dc0,
    H5File file_B = Ok dc0 /\ add_file dc0 file_A = Ok run_BA /\
    declares file_A "X" /\
    dict_get "X" (_source_file_mapping run_BA) =
      Some (segments_of (_source_file_mapping dc0) "X"
              ++ [([100; 101; 102], file_A)]).
Proof.
  eexists. split; [reflexivity|]. split; [reflexivity|].
  assert (Hd : declares file_A "X").
  { exists "CONTROL/X". split; [now left|reflexivity]. }
  split; [exact Hd|].
  match goal with
  | |- dict_get _ _ = Some (segments_of (_source_file_mapping ?d) _ ++ _) =>
      exact (proj1 (add_file_appends_segment d run_BA file_A eq_refl) "X" Hd)
  end.
Defined.

Lemma partition_found (sep : ascii) (a b : string) :
  lacks sep a ->
  partition sep (a ++ String sep b) = (a, true, b).
Proof.
  unfold lacks. induction a as [|c a IH]; simpl; intros H.
  - now rewrite Ascii.eqb_refl.
  - destruct (Ascii.eqb c sep) eqn:E.
    + apply Ascii.eqb_eq in E. exfalso. apply H. now left.
    + rewrite IH; [reflexivity|]. intros Hin. apply H. now right.
Qed.

Lemma add_sources_step (l : list string) (e : string) (st st' : add_state) :
  In e l -> add_sources st l = Ok st' ->
  exists st1 st2,
    add_source st1 e = Ok st2 /\
    (forall x, In x (as_sources st2) -> In x (as_sources st')) /\
    (forall x, In x (as_control st2) -> In x (as_control st')) /\
    (forall x, In x (as_instrument st2) -> In x (as_instrument st')).
Proof.
  revert st. induction l as [|s l IH]; intros st Hin H; [contradiction|].
  simpl in H. bind_ok H. destruct Hin as [->|Hin].
  - exists st, a. split; [assumption|].
    destruct (add_sources_inv _ _ _ H) as [_ [H2 [H3 [H4 _]]]]. auto.
  - eapply IH; eauto.
Qed.

Lemma add_source_control (st : add_state) (x : string) :
  exists st', add_source st ("CONTROL/" ++ x) = Ok st' /\
              In x (as_control st') /\ In x (as_sources st').
Proof.
  eexists. split; [reflexivity|]. simpl. split; apply set_add_In; now left.
Qed.

Lemma add_source_instrument (st : add_state) (dev chan grp : string) :
  lacks ":" dev -> lacks "/" chan ->
  exists st',
    add_source st ("INSTRUMENT/" ++ dev ++ ":" ++ chan ++ "/" ++ grp) = Ok st' /\
    In (dev ++ ":" ++ chan)%string (as_instrument st') /\
    In (dev ++ ":" ++ chan)%string (as_sources st').
Proof.
  intros Hd Hc. unfold add_source.
  change (String.eqb ("INSTRUMENT/" ++ dev ++ ":" ++ chan ++ "/" ++ grp) "")
    with false.
  change (partition "/" ("INSTRUMENT/" ++ dev ++ ":" ++ chan ++ "/" ++ grp))
    with ("INSTRUMENT", true, (dev ++ ":" ++ chan ++ "/" ++ grp)%string).
  cbn [String.eqb Ascii.eqb Bool.eqb].
  change (dev ++ ":" ++ chan ++ "/" ++ grp)%string
    with (dev ++ String ":" (chan ++ "/" ++ grp))%string.
  rewrite (partition_found ":" dev _ Hd).
  change (chan ++ "/" ++ grp)%string with (chan ++ String "/" grp)%string.
  rewrite (partition_found "/" chan _ Hc).
  eexists. split; [reflexivity|]. simpl. split; apply set_add_In; now left.
Qed.

(** X7: how [add_file] names sources.  An entry [CONTROL/<x>] registers
    the control source [<x>]; an entry [INSTRUMENT/<dev>:<chan>/<group>]
    (no [:] in [<dev>], no [/] in [<chan>]) registers the instrument source
    [<dev>:<chan>], the group being dropped.  In both cases the file's
    segment ends up last in the source's registry entry. *)
Theorem add_file_source_names (dc dc' : DataCollection) (f : File) :
  add_file dc f = Ok dc' ->
  (forall x, In ("CONTROL/" ++ x)%string (f_dataSourceId f) ->
     In x (control_sources dc') /\
     dict_get x (_source_file_mapping dc') =
       Some (segments_of (_source_file_mapping dc) x
               ++ [(file_train_ids f, f)])) /\
  (forall dev chan grp,
     lacks ":" dev -> lacks "/" chan ->
     In ("INSTRUMENT/" ++ dev ++ ":" ++ chan ++ "/" ++ grp)%string
        (f_dataSourceId f) ->
     In (dev ++ ":" ++ chan)%string (instrument_sources dc') /\
     dict_get (dev ++ ":" ++ chan)%string (_source_file_mapping dc') =
       Some (segments_of (_source_file_mapping dc) (dev ++ ":" ++ chan)
               ++ [(file_train_ids f, f)])).
Proof.
  intros H. destruct (add_file_registry _ _ _ H) as [st [Hst [Hc [Hi Hreg]]]].
  split.
  - intros x Hx.
    destruct (add_sources_step _ _ _ _ Hx Hst) as [st1 [st2 [H12 [Hs [Hcm _]]]]].
    destruct (add_source_control st1 x) as [st2' [H12' [Hx1 Hx2]]].
    assert (st2' = st2) by congruence. subst st2'.
    rewrite Hc, Hreg. split; [auto|].
    now rewrite (proj2 (str_in_In x _) (Hs x Hx2)).
  - intros dev chan grp Hd Hch Hx.
    destruct (add_sources_step _ _ _ _ Hx Hst) as [st1 [st2 [H12 [Hs [_ Him]]]]].
    destruct (add_source_instrument st1 dev chan grp Hd Hch)
      as [st2' [H12' [Hx1 Hx2]]].
    assert (st2' = st2) by congruence. subst st2'.
    rewrite Hi, Hreg. split; [auto|].
    now rewrite (proj2 (str_in_In _ _) (Hs _ Hx2)).
Qed.

(** [file_B] declares [CONTROL/X] and [INSTRUMENT/Y:out/image]. *)
Lemma add_file_source_names_witness :
  exists dc0,
    H5File file_B = Ok dc0 /\
    In "X" (control_sources dc0) /\ In "Y:out" (instrument_sources dc0) /\
    dict_get "Y:out" (_source_file_mapping dc0) = Some [([103; 104], file_B)].
Proof.
  destruct (H5File file_B) as [dc0|] eqn:E; [|discriminate E].
  exists dc0. split; [reflexivity|].
  destruct (add_file_source_names new_collection dc0 file_B E) as [Hc Hi].
  destruct (Hc "X") as [Hx _]; [simpl; auto|].
  destruct (Hi "Y" "out" "image") as [Hy Hreg].
  - intros [H|[]]. discriminate H.
  - intros [H|[H|[H|[]]]]; discriminate H.
  - simpl. auto.
  - split; [exact Hx|]. split; [exact Hy|exact Hreg].
Defined.

Lemma add_source_error (st : add_state) (e : string) :
  e <> "" -> partition_head "/" e <> "INSTRUMENT" ->
  partition_head "/" e <> "CONTROL" ->
  add_source st e = Err ValueError_unknown_category.
Proof.
  unfold add_source, partition_head. intros H0 H1 H2.
  destruct (String.eqb e "") eqn:E0; [apply String.eqb_eq in E0; contradiction|].
  destruct (partition "/" e) as [[category found] h5_source]. simpl in H1, H2.
  destruct (String.eqb category "INSTRUMENT") eqn:E1;
    [apply String.eqb_eq in E1; contradiction|].
  destruct (String.eqb category "CONTROL") eqn:E2;
    [apply String.eqb_eq in E2; contradiction|].
  reflexivity.
Qed.

Lemma add_source_errors (st : add_state) (s : string) (e : error) :
  add_source st s = Err e -> e = ValueError_unknown_category.
Proof.
  unfold add_source. destruct (String.eqb s ""); [discriminate|].
  destruct (partition "/" s) as [[category found] h5_source].
  destruct (String.eqb category "INSTRUMENT").
  - destruct (partition ":" h5_source) as [[device f2] chan_grp].
    destruct (partition "/" chan_grp) as [[chan f3] group]. discriminate.
  - destruct (String.eqb category "CONTROL"); [discriminate|].
    intros H. inversion H. reflexivity.
Qed.

(** X8: a file that declares a non-empty source identifier whose category
    (the part before the first [/]) is neither [INSTRUMENT] nor [CONTROL]
    cannot be added to any collection: [add_file] raises the "Unknown data
    category" ValueError, wherever the identifier stands in the list. *)
Theorem add_file_unknown_category (dc : DataCollection) (f : File)
    (e : string) :
  In e (f_dataSourceId f) -> e <> "" ->
  partition_head "/" e <> "INSTRUMENT" -> partition_head "/" e <> "CONTROL" ->
  add_file dc f = Err ValueError_unknown_category.
Proof.
  intros Hin H0 H1 H2. unfold add_file.
  assert (Hs : forall l st, In e l ->
                 add_sources st l = Err ValueError_unknown_category).
  { induction l as [|s l IH]; intros st Hl; [contradiction|]. simpl.
    destruct (add_source st s) as [st1|err] eqn:E; simpl.
    - destruct Hl as [->|Hl]; [|auto].
      rewrite (add_source_error st e H0 H1 H2) in E. discriminate.
    - now rewrite (add_source_errors _ _ _ E). }
  rewrite Hs by assumption. reflexivity.
Qed.

Lemma add_file_unknown_category_witness :
  add_file run_gap file_bad = Err ValueError_unknown_category.
Proof.
  apply (add_file_unknown_category run_gap file_bad "RAW/Z").
  - simpl. auto.
  - discriminate.
  - discriminate.
  - discriminate.
Defined.

(** ** Locating a train in the registry *)

Lemma position_of_Some (x : Z) (l : list Z) (i : nat) :
  position_of x l = Some i ->
  nth_error l i = Some x /\ forall j, (j < i)%nat -> nth_error l j <> Some x.
Proof.
  revert i. induction l as [|y l IH]; intros i H; simpl in H; [discriminate|].
  destruct (y =? x) eqn:E.
  - inversion H; subst. apply Z.eqb_eq in E. subst. split; [reflexivity|].
    intros j Hj. lia.
  - destruct (position_of x l) as [k|]; [|discriminate]. inversion H; subst.
    destruct (IH k eq_refl) as [Hn Hf]. split; [exact Hn|].
    apply Z.eqb_neq in E. intros [|j] Hj; simpl.
    + congruence.
    + apply Hf. lia.
Qed.

Lemma position_of_None (x : Z) (l : list Z) :
  position_of x l = None <-> ~ In x l.
Proof.
  induction l as [|y l IH]; simpl; [tauto|].
  destruct (y =? x) eqn:E.
  - apply Z.eqb_eq in E. split; [discriminate|]. intros H. exfalso. auto.
  - apply Z.eqb_neq in E. destruct (position_of x l) as [k|].
    + split; [discriminate|]. intros H. exfalso.
      assert (Hn : ~ In x l) by (intros Hx; apply H; now right).
      apply IH in Hn. discriminate.
    + split; [|reflexivity]. intros _ [H|H]; [congruence|].
      now apply (proj1 IH).
Qed.

Lemma find_in_segments_Some (tid : Z) (segs : list Segment) (f : File)
    (pos : nat) :
  find_in_segments tid segs = Some (f, pos) ->
  exists pre tids post,
    segs = pre ++ (tids, f) :: post /\
    position_of tid tids = Some pos /\
    forall seg, In seg pre -> ~ In tid (fst seg).
Proof.
  induction segs as [|[t g] segs IH]; simpl; intros H; [discriminate|].
  destruct (position_of tid t) as [ix|] eqn:E.
  - inversion H; subst. exists [], t, segs. simpl. auto.
  - destruct (IH H) as [pre [tids [post [-> [Hp Hpre]]]]].
    exists ((t, g) :: pre), tids, post. split; [reflexivity|].
    split; [assumption|]. intros seg [<-|Hs]; [|auto].
    now apply position_of_None.
Qed.

Lemma find_in_segments_None (tid : Z) (segs : list Segment) :
  find_in_segments tid segs = None <->
  forall seg, In seg segs -> ~ In tid (fst seg).
Proof.
  induction segs as [|[t g] segs IH]; simpl.
  - split; [intros _ seg []|reflexivity].
  - destruct (position_of tid t) as [ix|] eqn:E.
    + split; [discriminate|]. intros H. exfalso.
      assert (Hn : ~ In tid t) by (apply (H (t, g)); now left).
      apply position_of_None in Hn. congruence.
    + rewrite IH. apply position_of_None in E. split.
      * intros H seg [<-|Hs]; auto.
      * intros H seg Hs. apply H. now right.
Qed.

(** X9: [_find_data] scans the segments of a source in registry order.
    When it returns a file and a position, that file's segment is the
    first one holding the train, and the position is that of the train's
    first occurrence in the segment's train IDs; it returns [None, None]
    exactly when the source is registered and no segment holds the train;
    and it raises KeyError exactly when the source has no registry
    entry. *)
Theorem find_data_first_segment (dc : DataCollection) (source : string)
    (tid : Z) :
  (forall f pos,
      _find_data dc source tid = Ok (Some (f, pos)) ->
      exists pre tids post,
        dict_get source (_source_file_mapping dc)
          = Some (pre ++ (tids, f) :: post) /\
        nth_error tids pos = Some tid /\
        (forall j, (j < pos)%nat -> nth_error tids j <> Some tid) /\
        (forall seg, In seg pre -> ~ In tid (fst seg))) /\
  (_find_data dc source tid = Ok None <->
   exists segs, dict_get source (_source_file_mapping dc) = Some segs /\
                forall seg, In seg segs -> ~ In tid (fst seg)) /\
  (forall e, _find_data dc source tid = Err e <->
             e = KeyError /\
             dict_get source (_source_file_mapping dc) = None).
Proof.
  unfold _find_data, dict_item.
  destruct (dict_get source (_source_file_mapping dc)) as [segs|];
    cbn [bind].
  - split; [|split].
    + intros f pos H. inversion H as [Hf].
      destruct (find_in_segments_Some _ _ _ _ Hf)
        as [pre [tids [post [-> [Hp Hpre]]]]].
      destruct (position_of_Some _ _ _ Hp) as [Hn Hfirst].
      exists pre, tids, post. auto.
    + split.
      * intros H. inversion H as [Hf]. exists segs. split; [reflexivity|].
        now apply find_in_segments_None.
      * intros [segs' [Heq Hn]]. inversion Heq; subst.
        f_equal. now apply find_in_segments_None.
    + intros e. split; [discriminate|]. intros [_ H]. discriminate.
  - split; [|split].
    + intros f pos H. discriminate.
    + split; [discriminate|]. intros [segs [H _]]. discriminate.
    + intros e. split.
      * intros H. inversion H. auto.
      * intros [-> _]. reflexivity.
Qed.

(** Train 101 of [X] in [run_BA] is in the second segment, at position 1. *)
Lemma find_data_first_segment_witness :
  exists pre tids post,
    dict_get "X" (_source_file_mapping run_BA)
      = Some (pre ++ (tids, file_A) :: post) /\
    nth_error tids 1 = Some 101 /\
    (forall seg, In seg pre -> ~ In 101 (fst seg)).
Proof.
  destruct (find_data_first_segment run_BA "X" 101) as [Hsome _].
  destruct (Hsome file_A 1%nat eq_refl) as [pre [tids [post [H1 [H2 [_ H4]]]]]].
  exists pre, tids, post. auto.
Defined.

(** ** Restricting a collection to a range of trains *)

Lemma dict_get_In {V} (k : string) (v : V) (d : list (string * V)) :
  dict_get k d = Some v -> In (k, v) d.
Proof.
  induction d as [|[k' v'] d IH]; simpl; [discriminate|].
  destruct (String.eqb k k') eqn:E.
  - apply String.eqb_eq in E. intros H. inversion H; subst. now left.
  - intros H. right. auto.
Qed.

Lemma dict_mem_true {V} (k : string) (d : list (string * V)) :
  dict_mem k d = true <-> dict_get k d <> None.
Proof.
  unfold dict_mem. destruct (dict_get k d); split; congruence.
Qed.

Lemma select_trains_result (dc res : DataCollection) (tr : train_range) :
  select_trains dc tr = Ok res ->
  _source_file_mapping res =
    retain_segments (train_ids res) (_source_file_mapping dc) /\
  control_sources res =
    filter (fun s => dict_mem s (_source_file_mapping res))
           (control_sources dc) /\
  instrument_sources res =
    filter (fun s => dict_mem s (_source_file_mapping res))
           (instrument_sources dc) /\
  _index_cache res =
    restrict_cache (fun s => dict_mem s (_source_file_mapping res))
                   (_index_cache dc) /\
  exists names, unpack_source_keys (_source_file_mapping res) []
                  (map fst (_source_keys dc)) = Ok names.
Proof.
  unfold select_trains. intros H. bind_ok H. bind_ok H. bind_ok H.
  inversion H; subst; clear H. simpl. repeat split. eauto.
Qed.

(** X10: in the collection [select_trains] returns, nothing is left of a
    source or segment that does not meet the selected trains: every
    registry entry is a non-empty list of segments of the receiver's entry
    for that source, each sharing a train ID with the new [train_ids]; the
    control and instrument sources are those of the receiver that still
    have a registry entry; and the index cache keeps exactly the entries of
    such sources. *)
Theorem select_trains_drops_unused (dc res : DataCollection)
    (tr : train_range) :
  select_trains dc tr = Ok res ->
  (forall s segs,
      dict_get s (_source_file_mapping res) = Some segs ->
      segs <> [] /\
      (forall seg, In seg segs ->
                   exists t, In t (fst seg) /\ In t (train_ids res)) /\
      exists all, In (s, all) (_source_file_mapping dc) /\
                  forall seg, In seg segs -> In seg all) /\
  (forall s, In s (control_sources res) <->
             In s (control_sources dc) /\
             dict_get s (_source_file_mapping res) <> None) /\
  (forall s, In s (instrument_sources res) <->
             In s (instrument_sources dc) /\
             dict_get s (_source_file_mapping res) <> None) /\
  (forall f s g v,
      In ((f, s, g), v) (_index_cache res) <->
      In ((f, s, g), v) (_index_cache dc) /\
      dict_get s (_source_file_mapping res) <> None).
Proof.
  intros H. destruct (select_trains_result _ _ _ H) as [Hm [Hc [Hi [Hx _]]]].
  split; [|split; [|split]].
  - intros s segs Hget. apply dict_get_In in Hget. rewrite Hm in Hget.
    apply retain_segments_In in Hget. destruct Hget as [all [Hall [Hne ->]]].
    split; [assumption|]. split.
    + intros seg Hseg. apply filter_In in Hseg. destruct Hseg as [_ Hint].
      now apply intersects_common.
    + exists all. split; [assumption|]. intros seg Hseg.
      apply filter_In in Hseg. tauto.
  - intros s. rewrite Hc, filter_In, dict_mem_true. reflexivity.
  - intros s. rewrite Hi, filter_In, dict_mem_true. reflexivity.
  - intros f s g v. rewrite Hx. unfold restrict_cache.
    rewrite filter_In, dict_mem_true. reflexivity.
Qed.

(** Keeping only train 103 of [run_BA] drops the segments of [file_A]. *)
Lemma select_trains_drops_unused_witness :
  exists res,
    select_trains run_BA (by_id (Some (PyInt 103)) (Some (PyInt 104)) None)
      = Ok res /\
    train_ids res = [103] /\
    forall segs, dict_get "X" (_source_file_mapping res) = Some segs ->
                 forall seg, In seg segs ->
                             exists t, In t (fst seg) /\ In t [103].
Proof.
  eexists. split; [reflexivity|]. split; [reflexivity|].
  intros segs Hs.
  match type of Hs with
  | dict_get _ (_source_file_mapping ?r) = _ =>
      destruct (select_trains_drops_unused run_BA r
                  (by_id (Some (PyInt 103)) (Some (PyInt 104)) None) eq_refl)
        as [Hreg _]
  end.
  destruct (Hreg "X" segs Hs) as [_ [Hmeet _]]. exact Hmeet.
Defined.

Lemma unpack_source_keys_names (sfm : list (string * list Segment))
    (names : list string) (acc r : list (string * keyval)) :
  unpack_source_keys sfm acc names = Ok r ->
  forall name, In name names -> String.length name = 2%nat.
Proof.
  revert acc. induction names as [|n names IH]; intros acc H name Hin;
    [contradiction|].
  simpl in H.
  destruct n as [|c1 [|c2 [|c3 n]]]; try discriminate.
  destruct Hin as [<-|Hin]; [reflexivity|]. eapply IH; eauto.
Qed.

(** X11: [select_trains] unpacks every source name stored in the
    receiver's [_source_keys] into two values.  So it can only return a
    collection when all those names have exactly two characters; if one
    does not, it returns nothing, whatever the range, and the error is the
    unpacking ValueError whenever the range itself is accepted. *)
Theorem select_trains_needs_two_char_names (dc : DataCollection)
    (tr : train_range) (name : string) :
  In name (map fst (_source_keys dc)) -> String.length name <> 2%nat ->
  (forall res, select_trains dc tr <> Ok res) /\
  (forall sl ids,
      match tr with
      | by_id start stop step =>
          exists a b, _tid_to_slice_ix start (train_ids dc) false = Ok a /\
                      _tid_to_slice_ix stop (train_ids dc) true = Ok b /\
                      sl = {| sl_start := a; sl_stop := b; sl_step := step |}
      | by_index value => sl = value
      | OtherRange => False
      end ->
      list_slice (train_ids dc) sl = Ok ids ->
      select_trains dc tr = Err ValueError_unpack).
Proof.
  intros Hin Hlen. split.
  - intros res H. destruct (select_trains_result _ _ _ H)
      as [_ [_ [_ [_ [names Hn]]]]].
    apply Hlen. eapply unpack_source_keys_names; eauto.
  - intros sl ids Hsl Hids. unfold select_trains.
    assert (Hix : match tr with
                  | by_id start stop step =>
                      start_ix <- _tid_to_slice_ix start (train_ids dc) false ;;
                      stop_ix <- _tid_to_slice_ix stop (train_ids dc) true ;;
                      Ok {| sl_start := start_ix; sl_stop := stop_ix;
                            sl_step := step |}
                  | by_index value => Ok value
                  | OtherRange => Err TypeError
                  end = Ok sl).
    { destruct tr as [start stop step|value|]; [|now subst|contradiction].
      destruct Hsl as [a [b [Ha [Hb ->]]]]. rewrite Ha, Hb. reflexivity. }
    rewrite Hix. cbn [bind]. rewrite Hids. cbn [bind].
    destruct (unpack_source_keys _ [] (map fst (_source_keys dc)))
      as [names|e] eqn:E.
    + exfalso. apply Hlen. eapply unpack_source_keys_names; eauto.
    + cbn [bind]. f_equal. clear -E.
      revert E. generalize (@nil (string * keyval)).
      induction (map fst (_source_keys dc)) as [|n names IH]; intros acc E;
        simpl in E; [discriminate|].
      destruct n as [|c1 [|c2 [|c3 n]]]; try (inversion E; reflexivity).
      eapply IH; eauto.
Qed.

(** The source name [X] has one character. *)
Lemma select_trains_needs_two_char_names_witness :
  select_trains run_gap_keys
    (by_index {| sl_start := None; sl_stop := None; sl_step := None |})
    = Err ValueError_unpack.
Proof.
  destruct (select_trains_needs_two_char_names run_gap_keys
              (by_index {| sl_start := None; sl_stop := None;
                           sl_step := None |}) "X")
    as [_ Hraise].
  - simpl. auto.
  - discriminate.
  - apply (Hraise {| sl_start := None; sl_stop := None; sl_step := None |}
                  [10; 12]); reflexivity.
Defined.

Lemma skipn_nth_cons (l : list Z) (a : nat) :
  (a < List.length l)%nat -> skipn a l = nth a l 0 :: skipn (S a) l.
Proof.
  revert a. induction l as [|x l IH]; intros a H; simpl in H; [lia|].
  destruct a as [|a]; [reflexivity|].
  simpl. rewrite IH by lia. reflexivity.
Qed.

Lemma map_nth_seq_from (l : list Z) (n a : nat) :
  (a + n <= List.length l)%nat ->
  map (fun k => nth k l 0) (seq a n) = firstn n (skipn a l).
Proof.
  revert a. induction n as [|n IH]; intros a H; [reflexivity|].
  cbn [seq map]. rewrite (skipn_nth_cons l a) by lia.
  cbn [firstn]. f_equal. apply IH. lia.
Qed.

Lemma map_nth_seq (l : list Z) (a n : nat) :
  (a + n <= List.length l)%nat ->
  map (fun k => nth (a + k) l 0) (seq 0 n) = firstn n (skipn a l).
Proof.
  intros H. rewrite <- (map_nth_seq_from l n a H).
  assert (Hs : forall s, map (fun k => nth (a + k) l 0) (seq s n) =
                         map (fun k => nth k l 0) (seq (a + s) n)).
  { clear H. induction n as [|m IH]; intros s; [reflexivity|].
    cbn [seq map]. f_equal. rewrite IH. f_equal. f_equal. lia. }
  rewrite Hs. f_equal. f_equal. lia.
Qed.

Lemma list_slice_step_one (l r : list Z) (sl : pyslice) :
  sl_step sl = None \/ sl_step sl = Some 1 ->
  list_slice l sl = Ok r ->
  exists a n, r = firstn n (skipn a l) /\ (a + n <= List.length l)%nat.
Proof.
  intros Hstep H. unfold list_slice in H. bind_ok H.
  destruct a as [[start step] n]. inversion H; subst; clear H.
  destruct (slice_indices_in_range _ _ _ _ _ (Nat2Z.is_nonneg _) E)
    as [_ [Hnone [Hsome Hr]]].
  assert (Hone : step = 1) by (destruct Hstep as [Hs|Hs]; auto).
  subst step. destruct (Z_le_gt_dec n 0) as [Hn|Hn].
  - exists 0%nat, 0%nat. replace (Z.to_nat n) with 0%nat by lia.
    simpl. split; [reflexivity|lia].
  - assert (H0 := Hr 0 ltac:(lia)). assert (H1 := Hr (n - 1) ltac:(lia)).
    exists (Z.to_nat start), (Z.to_nat n). split; [|lia].
    rewrite <- map_nth_seq by lia. apply map_ext_in. intros k Hk.
    apply in_seq in Hk. f_equal. lia.
Qed.

Lemma list_slice_full (l : list Z) :
  list_slice l {| sl_start := None; sl_stop := None; sl_step := None |} = Ok l.
Proof.
  unfold list_slice, slice_indices. cbn [sl_start sl_stop sl_step bind].
  change (1 =? 0) with false. change (1 <? 0) with false. cbv iota.
  set (len := Z.of_nat (List.length l)).
  assert (Hn : (if 0 <? len then (len - 0 - 1) / 1 + 1 else 0) = len).
  { destruct (0 <? len) eqn:E.
    - rewrite Z.div_1_r. lia.
    - apply Z.ltb_ge in E. subst len. lia. }
  rewrite Hn. cbn [bind]. f_equal. subst len. rewrite Nat2Z.id.
  transitivity (map (fun k => nth (0 + k) l 0) (seq 0 (List.length l))).
  - apply map_ext. intros k. f_equal. lia.
  - rewrite map_nth_seq by lia. simpl. apply firstn_all.
Qed.

(** X12: with the default step (or a step of 1) the train IDs
    [select_trains] keeps are a contiguous run of the receiver's list, by
    ID or by position; and the positional range [[:]] keeps them all. *)
Theorem select_trains_contiguous (dc res : DataCollection) (tr : train_range) :
  select_trains dc tr = Ok res ->
  (range_step tr = None \/ range_step tr = Some 1 ->
   exists a n, train_ids res = firstn n (skipn a (train_ids dc)) /\
               (a + n <= List.length (train_ids dc))%nat) /\
  (tr = by_index {| sl_start := None; sl_stop := None; sl_step := None |} ->
   train_ids res = train_ids dc).
Proof.
  intros H. destruct (select_trains_fields _ _ _ H) as [sl [_ [Hsl [Hstep _]]]].
  split.
  - intros Hs. rewrite <- Hstep in Hs. eapply list_slice_step_one; eauto.
  - intros ->. unfold select_trains in H. cbn [bind] in H.
    rewrite list_slice_full in H. cbn [bind] in H. bind_ok H.
    inversion H; subst. reflexivity.
Qed.

(** The trains of [run_BA] from ID 101 up to, not including, ID 104. *)
Lemma select_trains_contiguous_witness :
  exists res a n,
    select_trains run_BA (by_id (Some (PyInt 101)) (Some (PyInt 104)) None)
      = Ok res /\
    train_ids res = [101; 102; 103] /\
    train_ids res = firstn n (skipn a (train_ids run_BA)).
Proof.
  destruct (select_trains run_BA
              (by_id (Some (PyInt 101)) (Some (PyInt 104)) None))
    as [res|] eqn:E; [|discriminate E].
  destruct (select_trains_contiguous run_BA res _ E) as [Hrun _].
  destruct (Hrun (or_introl eq_refl)) as [a [n [Hr _]]].
  exists res, a, n. split; [reflexivity|]. split; [|exact Hr].
  inversion E; subst. reflexivity.
Defined.

(** ** Labels of instrument data with at most one record per train *)

Lemma np_repeat_firstn (a b : list Z) :
  np_repeat (firstn (Nat.min (List.length b) (List.length a)) a)
            (firstn (Nat.min (List.length b) (List.length a)) b)
  = np_repeat a b.
Proof.
  revert b. induction a as [|x a IH]; intros [|c b]; simpl; try reflexivity.
  destruct (c <? 0); [reflexivity|]. now rewrite IH.
Qed.

Lemma np_repeat_zero_one (tids counts : list Z) :
  Forall (fun c => c = 0 \/ c = 1) counts ->
  np_repeat tids counts =
    Ok (map fst (filter (fun p => snd p =? 1) (combine tids counts))).
Proof.
  intros HF. revert tids. induction HF as [|c counts Hc _ IH]; intros tids.
  - destruct tids; reflexivity.
  - destruct tids as [|t tids]; [reflexivity|]. simpl. rewrite IH.
    destruct Hc as [->| ->]; reflexivity.
Qed.

Lemma labels_sublist (tids counts : list Z) (p : Z * Z -> bool) :
  (forall x, In x (map fst (filter p (combine tids counts))) -> In x tids) /\
  (NoDup tids -> NoDup (map fst (filter p (combine tids counts)))).
Proof.
  revert counts. induction tids as [|t tids IH]; intros counts.
  - simpl. split; [tauto|constructor].
  - destruct counts as [|c counts]; [simpl; split; [tauto|constructor]|].
    destruct (IH counts) as [Hin Hnd]. simpl.
    destruct (p (t, c)); simpl.
    + split.
      * intros x [<-|Hx]; [now left|right; auto].
      * intros H. inversion H; subst. constructor; auto.
    + split.
      * intros x Hx. right. auto.
      * intros H. inversion H; subst. auto.
Qed.

(** X13: when every count is 0 or 1 (the only indexes [get_array]
    accepts), [_expand_trainids] returns the train IDs whose count is 1, in
    their order, the two arrays being paired up to the shorter length; the
    labels are then train IDs of the segment, without duplicates if the
    segment has none. *)
Theorem expand_trainids_zero_one (first counts trainIds : list Z) :
  Forall (fun c => c = 0 \/ c = 1) counts ->
  exists labels,
    _expand_trainids first counts trainIds = Ok labels /\
    labels = map fst (filter (fun p => snd p =? 1) (combine trainIds counts)) /\
    (forall x, In x labels -> In x trainIds) /\
    (NoDup trainIds -> NoDup labels).
Proof.
  intros HF.
  exists (map fst (filter (fun p => snd p =? 1) (combine trainIds counts))).
  split; [|split; [reflexivity|apply labels_sublist]].
  unfold _expand_trainids.
  assert (Hm : map to_intp counts = counts).
  { apply map_to_intp_small. eapply Forall_impl; [|exact HF].
    simpl. intros c [->| ->]; lia. }
  rewrite <- (length_map to_intp counts) at 1 2.
  rewrite Hm at 1 2. rewrite Hm.
  rewrite np_repeat_firstn. now apply np_repeat_zero_one.
Qed.

(** Three trains, the second of which has no record. *)
Lemma expand_trainids_zero_one_witness :
  _expand_trainids [0; 1; 1] [1; 0; 1] [20; 21; 22] = Ok [20; 22].
Proof.
  destruct (expand_trainids_zero_one [0; 1; 1] [1; 0; 1] [20; 21; 22])
    as [labels [H [-> _]]].
  - repeat (apply Forall_cons;
            [first [left; reflexivity | right; reflexivity]|]).
    apply Forall_nil.
  - exact H.
Defined.

(** ** Selecting by an exact set or by a mapping *)

Lemma selected_sources_In (pairs : list (string * string)) (s : string) :
  In s (selected_sources_of pairs) <-> exists k, In (s, k) pairs.
Proof.
  unfold selected_sources_of. rewrite dedup_strings_In, in_map_iff. split.
  - intros [[s' k] [<- H]]. eauto.
  - intros [k H]. exists (s, k). auto.
Qed.

Lemma set_inter_In (a b : list string) (s : string) :
  In s (set_inter a b) <-> In s a /\ In s b.
Proof. unfold set_inter. now rewrite filter_In, str_in_In. Qed.

Lemma restrict_mapping_ok (sfm : list (string * list Segment))
    (l : list string) :
  (forall s, In s l -> dict_get s sfm <> None) ->
  restrict_mapping sfm l = Ok (map (fun s => (s, segments_of sfm s)) l).
Proof.
  induction l as [|s l IH]; intros H; simpl; [reflexivity|].
  unfold dict_item, segments_of.
  destruct (dict_get s sfm) as [segs|] eqn:E;
    [|exfalso; apply (H s); [now left|assumption]].
  cbn [bind]. rewrite IH by (intros x Hx; apply H; now right). reflexivity.
Qed.

Lemma restrict_mapping_missing (sfm : list (string * list Segment))
    (l : list string) (s : string) :
  In s l -> dict_get s sfm = None -> restrict_mapping sfm l = Err KeyError.
Proof.
  induction l as [|x l IH]; intros Hin Hs; [contradiction|]. simpl.
  unfold dict_item. destruct (dict_get x sfm) as [segs|] eqn:E.
  - cbn [bind]. destruct Hin as [->|Hin]; [congruence|].
    now rewrite IH.
  - reflexivity.
Qed.

Lemma dict_get_map_key {V} (g : string -> V) (l : list string) (s : string) :
  dict_get s (map (fun x => (x, g x)) l) =
  if str_in s l then Some (g s) else None.
Proof.
  induction l as [|x l IH]; simpl; [reflexivity|].
  destruct (String.eqb s x) eqn:E; simpl; [|exact IH].
  apply String.eqb_eq in E. now subst.
Qed.

(** X14: [select] with an exact set of (source, key) pairs.  If a pair
    names a source without a registry entry the call raises KeyError.
    Otherwise it returns a collection and leaves the receiver exactly as it
    was; the new collection's control and instrument sources are the
    receiver's sources named by some pair, and its registry holds, for
    exactly the named sources, the receiver's segments. *)
Theorem select_exact_set (re_class : string -> option (ascii -> bool))
    (dc : DataCollection) (pairs : list (string * string))
    (key_glob : string) :
  ((exists p, In p pairs /\
              dict_get (fst p) (_source_file_mapping dc) = None) ->
   select re_class dc (SelSet pairs) key_glob = Err KeyError) /\
  ((forall p, In p pairs ->
              dict_get (fst p) (_source_file_mapping dc) <> None) ->
   exists res,
     select re_class dc (SelSet pairs) key_glob = Ok (res, dc) /\
     (forall s, In s (control_sources res) <->
                In s (control_sources dc) /\ exists k, In (s, k) pairs) /\
     (forall s, In s (instrument_sources res) <->
                In s (instrument_sources dc) /\ exists k, In (s, k) pairs) /\
     (forall s k, In (s, k) pairs ->
                  dict_get s (_source_file_mapping res) =
                  dict_get s (_source_file_mapping dc)) /\
     (forall s, (forall k, ~ In (s, k) pairs) ->
                dict_get s (_source_file_mapping res) = None)).
Proof.
  split.
  - intros [[s k] [Hp Hs]]. unfold select. cbn [_expand_selection bind].
    rewrite (restrict_mapping_missing _ _ s); [reflexivity| |exact Hs].
    apply selected_sources_In. eauto.
  - intros Hall. unfold select. cbn [_expand_selection bind].
    rewrite restrict_mapping_ok.
    + cbn [bind]. eexists. split; [reflexivity|].
      cbn [control_sources instrument_sources _source_file_mapping].
      split; [|split; [|split]].
      * intros s. now rewrite set_inter_In, selected_sources_In.
      * intros s. now rewrite set_inter_In, selected_sources_In.
      * intros s k Hp. rewrite dict_get_map_key.
        assert (Hin : In s (selected_sources_of pairs))
          by (apply selected_sources_In; eauto).
        rewrite (proj2 (str_in_In _ _) Hin). unfold segments_of.
        specialize (Hall (s, k) Hp). simpl in Hall.
        destruct (dict_get s (_source_file_mapping dc)); congruence.
      * intros s Hno. rewrite dict_get_map_key.
        destruct (str_in s (selected_sources_of pairs)) eqn:E; [|reflexivity].
        apply str_in_In, selected_sources_In in E. destruct E as [k Hk].
        exfalso. eapply Hno; eauto.
    + intros s Hs. apply selected_sources_In in Hs. destruct Hs as [k Hk].
      exact (Hall (s, k) Hk).
Qed.

(** Selecting [X] from [run_BA], and a source it does not have. *)
Lemma select_exact_set_witness :
  select plain_class run_BA (SelSet [("Z", "*")]) "*" = Err KeyError /\
  exists res,
    select plain_class run_BA (SelSet [("X", "val.value")]) "*"
      = Ok (res, run_BA) /\
    (forall s, In s (instrument_sources res) <->
               In s (instrument_sources run_BA) /\
               exists k, In (s, k) [("X", "val.value")]).
Proof.
  split.
  - apply (select_exact_set plain_class run_BA [("Z", "*")] "*").
    exists ("Z", "*"). split; [now left|reflexivity].
  - destruct (select_exact_set plain_class run_BA [("X", "val.value")] "*")
      as [_ Hok].
    destruct Hok as [res [Hres [_ [Hi _]]]].
    + intros p [<-|[]]. discriminate.
    + exists res. auto.
Defined.

Lemma expand_dict_spec (dc : DataCollection) (d : list (string * list string))
    (acc res : list (string * string)) :
  expand_dict dc acc d = Ok res ->
  (forall e, In e d -> In (fst e) (all_sources dc)) /\
  forall s k, In (s, k) res <->
              In (s, k) acc \/
              exists keys, In (s, keys) d /\
                           ((keys = [] /\ k = "*") \/ In k keys).
Proof.
  revert acc. induction d as [|[src keys] d IH]; intros acc H; simpl in H.
  - inversion H; subst. split; [intros e []|].
    intros s k. split; [auto|]. intros [Hs|[keys [[] _]]]. exact Hs.
  - destruct (str_in src (all_sources dc)) eqn:Hsrc; [|discriminate].
    simpl in H. destruct (IH _ H) as [Hknown Hres]. split.
    + intros e [<-|He]; [now apply str_in_In|auto].
    + intros s k. rewrite Hres, fold_pair_add_In. simpl. split.
      * intros [[Ha|[Hs Hk]]|[ks [Hd Hk]]]; auto.
        -- right. subst s. exists keys. split; [now left|].
           destruct keys as [|k0 keys']; [|now right].
           destruct Hk as [<-|[]]. now left.
        -- right. exists ks. split; [now right|assumption].
      * intros [Ha|[ks [[Heq|Hd] Hk]]]; auto.
        -- inversion Heq; subst. left. right. split; [reflexivity|].
           destruct Hk as [[-> ->]|Hk]; [now left|].
           destruct ks; [contradiction|assumption].
        -- right. eauto.
Qed.

Lemma expand_dict_unknown (dc : DataCollection)
    (d : list (string * list string)) (acc : list (string * string))
    (e : string * list string) :
  In e d -> ~ In (fst e) (all_sources dc) ->
  expand_dict dc acc d = Err ValueError_source_not_in_run.
Proof.
  revert acc. induction d as [|[src keys] d IH]; intros acc Hin Hno;
    [contradiction|].
  simpl. destruct (str_in src (all_sources dc)) eqn:Hsrc; [|reflexivity].
  simpl. destruct Hin as [<-|Hin]; [|auto].
  apply str_in_In in Hsrc. contradiction.
Qed.

(** X15: a mapping selector (source to keys).  If it names a source the
    collection does not have, [select] raises the "not in this run"
    ValueError.  When [_expand_selection] accepts it, every source it names
    is known, the receiver is unchanged, and the pairs it stands for are,
    for each source, its listed keys, or the wildcard [*] when none is
    listed. *)
Theorem select_mapping (re_class : string -> option (ascii -> bool))
    (dc : DataCollection) (d : list (string * list string))
    (key_glob : string) :
  ((exists e, In e d /\ ~ In (fst e) (all_sources dc)) ->
   select re_class dc (SelDict d) key_glob
     = Err ValueError_source_not_in_run) /\
  (forall pairs dc',
      _expand_selection re_class dc (SelDict d) = Ok (pairs, dc') ->
      dc' = dc /\
      (forall e, In e d -> In (fst e) (all_sources dc)) /\
      forall s k, In (s, k) pairs <->
                  exists keys, In (s, keys) d /\
                               ((keys = [] /\ k = "*") \/ In k keys)).
Proof.
  split.
  - intros [e [He Hno]]. unfold select. cbn [_expand_selection].
    rewrite (expand_dict_unknown dc d [] e He Hno). reflexivity.
  - intros pairs dc' H. cbn [_expand_selection] in H. bind_ok H.
    inversion H; subst; clear H. split; [reflexivity|].
    destruct (expand_dict_spec _ _ _ _ E) as [Hknown Hres].
    split; [exact Hknown|]. intros s k. rewrite Hres. simpl. tauto.
Qed.

(** [{'X': {}}] stands for [X] with the wildcard key; [Z] is not in
    [run_BA]. *)
Lemma select_mapping_witness :
  select plain_class run_BA (SelDict [("Z", [])]) "*"
    = Err ValueError_source_not_in_run /\
  (forall k, In ("X", k) [("X", "*")] <->
             exists keys, In ("X", keys) [("X", @nil string)] /\
                          ((keys = [] /\ k = "*") \/ In k keys)).
Proof.
  split.
  - apply (select_mapping plain_class run_BA [("Z", [])] "*").
    exists ("Z", []). split; [now left|].
    simpl. intros [H|[H|[]]]; discriminate H.
  - destruct (select_mapping plain_class run_BA [("X", [])] "*") as [_ Hok].
    destruct (Hok [("X", "*")] run_BA eq_refl) as [_ [_ Hpairs]].
    intros k. apply Hpairs.
Defined.

(** ** train_from_id *)

Lemma find_data_absent (dc : DataCollection) (s : string) (tid : Z) :
  source_absent dc s tid -> _find_data dc s tid = Ok None.
Proof.
  intros [segs [Hs Hn]]. unfold _find_data, dict_item. rewrite Hs.
  cbn [bind]. now rewrite Hn.
Qed.

Lemma from_id_control_absent (dc : DataCollection) (tid : Z)
    (l : list string) (res : TrainData) :
  (forall s, In s l -> source_absent dc s tid) ->
  from_id_control dc tid res l =
    Ok (fold_left (fun r s => dict_set s [] r) l res, dc).
Proof.
  revert res. induction l as [|s l IH]; intros res H; simpl; [reflexivity|].
  rewrite (find_data_absent dc s tid) by (apply H; now left). cbn [bind].
  apply IH. intros x Hx. apply H. now right.
Qed.

Lemma from_id_instrument_absent (dc : DataCollection) (tid : Z)
    (l : list string) (res : TrainData) :
  (forall s, In s l -> source_absent dc s tid) ->
  from_id_instrument dc tid res l =
    Ok (fold_left (fun r s => dict_set s [] r) l res, dc).
Proof.
  revert res. induction l as [|s l IH]; intros res H; simpl; [reflexivity|].
  rewrite (find_data_absent dc s tid) by (apply H; now left). cbn [bind].
  apply IH. intros x Hx. apply H. now right.
Qed.

Lemma dict_get_fold_empty (l : list string) (res : TrainData) (s : string) :
  dict_get s (fold_left (fun r x => dict_set x [] r) l res) =
  if str_in s l then Some [] else dict_get s res.
Proof.
  revert res. induction l as [|x l IH]; intros res; simpl; [reflexivity|].
  rewrite IH. destruct (String.eqb s x) eqn:E; simpl.
  - apply String.eqb_eq in E. subst x. rewrite dict_get_set_same.
    destruct (str_in s l); reflexivity.
  - apply String.eqb_neq in E. now rewrite dict_get_set_other.
Qed.

(** X16: asking [train_from_id] for a train that no segment of any source
    holds is not an error: it returns the train ID with an empty mapping
    for every control and instrument source and nothing else, reads no
    keys and no index, and leaves the collection as it was. *)
Theorem train_from_id_unknown_train (dc : DataCollection) (tid : Z) :
  (forall s, In s (control_sources dc) \/ In s (instrument_sources dc) ->
             source_absent dc s tid) ->
  exists res,
    train_from_id_all dc tid = Ok ((tid, res), dc) /\
    forall s, dict_get s res =
              if str_in s (control_sources dc)
                 || str_in s (instrument_sources dc)
              then Some [] else None.
Proof.
  intros H. unfold train_from_id_all.
  rewrite from_id_control_absent by (intros s Hs; apply H; now left).
  cbn [bind].
  rewrite from_id_instrument_absent by (intros s Hs; apply H; now right).
  cbn [bind]. eexists. split; [reflexivity|].
  intros s. rewrite !dict_get_fold_empty. simpl.
  destruct (str_in s (instrument_sources dc));
    destruct (str_in s (control_sources dc)); reflexivity.
Qed.

(** Train 99 is in no file of [run_BA]. *)
Lemma train_from_id_unknown_train_witness :
  exists res,
    train_from_id_all run_BA 99 = Ok ((99, res), run_BA) /\
    dict_get "X" res = Some [] /\ dict_get "Y:out" res = Some [] /\
    dict_get "Z" res = None.
Proof.
  destruct (train_from_id_unknown_train run_BA 99) as [res [H Hget]].
  - intros s Hs. simpl in Hs.
    destruct Hs as [[<-|[]]|[<-|[]]]; eexists; split; reflexivity.
  - exists res. split; [exact H|].
    split; [exact (Hget "X")|]. split; [exact (Hget "Y:out")|exact (Hget "Z")].
Defined.

Lemma from_id_instrument_keys_spec (dc0 : DataCollection) (file : File)
    (pos : nat) (source : string) (keys : list string)
    (dc dc' : DataCollection) (sd sd' : SourceData) :
  same_view dc0 dc ->
  from_id_instrument_keys dc file pos source sd keys = Ok (sd', dc') ->
  same_view dc0 dc' /\
  (forall k, In k keys ->
     exists o, instrument_value dc0 file pos source k = Ok o /\
               dict_get k sd' =
               match o with Some v => Some v | None => dict_get k sd end) /\
  (forall k, ~ In k keys -> dict_get k sd' = dict_get k sd).
Proof.
  revert dc sd. induction keys as [|key keys IH]; intros dc sd Hv H;
    simpl in H.
  - inversion H; subst. split; [assumption|]. split; [intros k []|auto].
  - bind_ok H. destruct a as [[firsts counts] dc1]. bind_ok H. bind_ok H.
    destruct (get_index_view _ _ _ _ _ _ E) as [Hv1 _].
    assert (Hv01 : same_view dc0 dc1) by (eapply same_view_trans; eauto).
    assert (Hk : known_index dc0 file source (partition_head "." key)
                 = Ok (firsts, counts)).
    { rewrite <- (sv_index _ _ Hv). unfold known_index. now rewrite E. }
    assert (Hstep : exists o sd1,
              instrument_value dc0 file pos source key = Ok o /\
              from_id_instrument_keys dc1 file pos source sd1 keys
                = Ok (sd', dc') /\
              (forall k, dict_get k sd1 =
                 if String.eqb k key
                 then match o with Some v => Some v | None => dict_get k sd end
                 else dict_get k sd)).
    { unfold instrument_value. rewrite Hk. cbn [bind]. rewrite E0, E1.
      cbn [bind]. destruct (a0 =? 0) eqn:Ez.
      - exists None, sd. split; [reflexivity|]. split; [assumption|].
        intros k. destruct (String.eqb k key); reflexivity.
      - bind_ok H. bind_ok H. exists (Some a2), (dict_set key a2 sd).
        split.
        + destruct (a0 =? 1).
          * bind_ok E3. inversion E3; subst. cbn [bind]. rewrite E4.
            reflexivity.
          * inversion E3; subst. reflexivity.
        + split; [assumption|]. intros k.
          destruct (String.eqb k key) eqn:Ek.
          * apply String.eqb_eq in Ek. subst. apply dict_get_set_same.
          * apply String.eqb_neq in Ek. now apply dict_get_set_other. }
    destruct Hstep as [o [sd1 [Ho [Hrest Hsd1]]]].
    destruct (IH _ _ Hv01 Hrest) as [Hv2 [Hin Hout]].
    split; [assumption|]. split.
    + intros k Hk'. destruct (in_dec string_dec k keys) as [Hi|Hn].
      * destruct (Hin k Hi) as [o' [Ho' Hget]]. exists o'.
        split; [assumption|]. rewrite Hget. destruct o'; [reflexivity|].
        rewrite Hsd1. destruct (String.eqb k key) eqn:Ek; [|reflexivity].
        apply String.eqb_eq in Ek. subst k.
        rewrite Ho in Ho'. inversion Ho'; subst. reflexivity.
      * destruct Hk' as [<-|Hk']; [|contradiction].
        exists o. split; [assumption|]. rewrite (Hout key Hn), Hsd1.
        now rewrite String.eqb_refl.
    + intros k Hn. rewrite Hout by (intros Hi; apply Hn; now right).
      rewrite Hsd1. destruct (String.eqb k key) eqn:Ek; [|reflexivity].
      apply String.eqb_eq in Ek. subst. exfalso. apply Hn. now left.
Qed.

Lemma from_id_control_view (tid : Z) (l : list string)
    (dc dc' : DataCollection) (res res' : TrainData) :
  from_id_control dc tid res l = Ok (res', dc') -> same_view dc dc'.
Proof.
  revert dc res. induction l as [|s l IH]; intros dc res H; simpl in H.
  - inversion H; subst. apply same_view_refl.
  - bind_ok H. destruct a as [[file pos]|]; [|eauto].
    bind_ok H. destruct a as [kv dc1]. bind_ok H. bind_ok H.
    destruct (keys_for_source_view _ _ _ _ E0) as [Hv1 _].
    eapply same_view_trans; eauto.
Qed.

Lemma find_data_view (dc dc' : DataCollection) (s : string) (tid : Z) :
  same_view dc dc' -> _find_data dc' s tid = _find_data dc s tid.
Proof. intros Hv. unfold _find_data. now rewrite (sv_mapping _ _ Hv). Qed.

Lemma from_id_instrument_spec (dc0 : DataCollection) (tid : Z)
    (l : list string) (dc dc' : DataCollection) (res res' : TrainData) :
  same_view dc0 dc ->
  from_id_instrument dc tid res l = Ok (res', dc') ->
  same_view dc0 dc' /\
  (forall s, In s l ->
     exists sd, dict_get s res' = Some sd /\
       forall file pos keys k,
         _find_data dc0 s tid = Ok (Some (file, pos)) ->
         source_keys_list dc0 s = Ok keys -> In k keys ->
         exists o, instrument_value dc0 file pos s k = Ok o /\
                   dict_get k sd = o) /\
  (forall s, ~ In s l -> dict_get s res' = dict_get s res).
Proof.
  revert dc res. induction l as [|x l IH]; intros dc res Hv H; simpl in H.
  - inversion H; subst. split; [assumption|]. split; [intros s []|auto].
  - bind_ok H. rewrite (find_data_view dc0 dc x tid Hv) in E.
    assert (Hx : exists sdx dc2,
              from_id_instrument dc2 tid (dict_set x sdx res) l
                = Ok (res', dc') /\ same_view dc0 dc2 /\
              forall file pos keys k,
                _find_data dc0 x tid = Ok (Some (file, pos)) ->
                source_keys_list dc0 x = Ok keys -> In k keys ->
                exists o, instrument_value dc0 file pos x k = Ok o /\
                          dict_get k sdx = o).
    { destruct a as [[file pos]|].
      - bind_ok H. destruct a as [kv dc1]. bind_ok H. bind_ok H.
        destruct a0 as [sdx dc2].
        destruct (keys_for_source_view _ _ _ _ E0) as [Hv1 _].
        assert (Hv01 : same_view dc0 dc1) by (eapply same_view_trans; eauto).
        destruct (from_id_instrument_keys_spec dc0 _ _ _ _ _ _ _ _ Hv01 E2)
          as [Hv2 [Hin _]].
        exists sdx, dc2. split; [assumption|]. split; [assumption|].
        intros f p keys k Hf Hkeys Hk. rewrite E in Hf.
        inversion Hf; subst f p.
        assert (keys = a).
        { unfold source_keys_list in Hkeys. rewrite <- (sv_keys _ _ Hv) in Hkeys.
          rewrite (known_keys_get _ _ _ _ E0) in Hkeys. cbn [bind] in Hkeys.
          congruence. }
        subst keys. destruct (Hin k Hk) as [o [Ho Hget]].
        exists o. split; [assumption|]. rewrite Hget. now destruct o.
      - exists [], dc. split; [assumption|]. split; [assumption|].
        intros f p keys k Hf. rewrite E in Hf. discriminate. }
    destruct Hx as [sdx [dc2 [Hrest [Hv2 Hq]]]].
    destruct (IH _ _ Hv2 Hrest) as [Hv3 [Hin Hout]].
    split; [assumption|]. split.
    + intros s Hs. destruct (in_dec string_dec s l) as [Hi|Hn]; [auto|].
      destruct Hs as [<-|Hs]; [|contradiction].
      exists sdx. rewrite (Hout x Hn), dict_get_set_same. auto.
    + intros s Hn. rewrite Hout by (intros Hi; apply Hn; now right).
      apply dict_get_set_other. intros ->. apply Hn. now left.
Qed.

(** X17: what [train_from_id] returns for an instrument source that has
    the train.  It returns the train ID it was given and changes nothing
    but the caches.  For every key of the source, with [first] and [count]
    the entries of the key's group index at the train's position in the
    first segment holding the train: the key is left out when the count
    is 0, holds the single row [first] of the key's dataset when the count
    is 1, and the block of rows [first .. first+count) otherwise. *)
Theorem train_from_id_instrument_data (dc dc' : DataCollection) (tid tid' : Z)
    (res : TrainData) :
  train_from_id_all dc tid = Ok ((tid', res), dc') ->
  tid' = tid /\ same_view dc dc' /\
  forall s file pos keys k firsts counts first count,
    In s (instrument_sources dc) ->
    _find_data dc s tid = Ok (Some (file, pos)) ->
    source_keys_list dc s = Ok keys -> In k keys ->
    known_index dc file s (partition_head "." k) = Ok (firsts, counts) ->
    nth_error firsts pos = Some first ->
    nth_error counts pos = Some count ->
    exists sd,
      dict_get s res = Some sd /\
      (count = 0 -> dict_get k sd = None) /\
      (count <> 0 ->
       exists ds,
         dict_get (data_path "INSTRUMENT" s k) (f_data file) = Some ds /\
         (count = 1 ->
          exists row, nth_error (ds_rows ds) (Z.to_nat first) = Some row /\
                      dict_get k sd = Some (VRow row)) /\
         (count <> 1 ->
          dict_get k sd =
            Some (VBlock (firstn (Z.to_nat count)
                            (skipn (Z.to_nat first) (ds_rows ds)))))).
Proof.
  unfold train_from_id_all. intros H. bind_ok H. destruct a as [res1 dc1].
  bind_ok H. destruct a as [res2 dc2]. inversion H; subst; clear H.
  pose proof (from_id_control_view _ _ _ _ _ _ E) as Hv1.
  destruct (from_id_instrument_spec dc _ _ _ _ _ _ Hv1 E0)
    as [Hv2 [Hin _]].
  split; [reflexivity|]. split; [assumption|].
  intros s file pos keys k firsts counts first count Hs Hf Hkeys Hk Hix
         Hfirst Hcount.
  destruct (Hin s Hs) as [sd [Hsd Hq]]. exists sd. split; [assumption|].
  destruct (Hq file pos keys k Hf Hkeys Hk) as [o [Ho Hget]].
  unfold instrument_value in Ho. rewrite Hix in Ho. cbn [bind] in Ho.
  rewrite (proj2 (item_nth_error _ _ _) Hfirst) in Ho.
  rewrite (proj2 (item_nth_error _ _ _) Hcount) in Ho. cbn [bind] in Ho.
  split.
  - intros ->. simpl in Ho. rewrite Hget. now inversion Ho.
  - intros Hne. destruct (count =? 0) eqn:Ez;
      [apply Z.eqb_eq in Ez; contradiction|].
    unfold dict_item in Ho.
    destruct (dict_get (data_path "INSTRUMENT" s k) (f_data file))
      as [ds|]; [|discriminate]. cbn [bind] in Ho.
    exists ds. split; [reflexivity|]. split.
    + intros ->. simpl in Ho.
      destruct (item (ds_rows ds) (Z.to_nat first)) as [row|] eqn:Er;
        [|discriminate]. cbn [bind] in Ho.
      exists row. split; [now apply item_nth_error|].
      rewrite Hget. now inversion Ho.
    + intros Hne1. destruct (count =? 1) eqn:E1;
        [apply Z.eqb_eq in E1; contradiction|].
      rewrite Hget. now inversion Ho.
Qed.

Lemma run_old_built : H5File file_old = Ok run_old.
Proof. reflexivity. Qed.

(** Train 21 of [run_old] has a status of 0, train 22 two records. *)
Lemma train_from_id_instrument_data_witness :
  (exists res dc' sd,
     train_from_id_all run_old 21 = Ok ((21, res), dc') /\
     dict_get "Y:out" res = Some sd /\ dict_get "image.data" sd = None) /\
  (exists res dc' sd,
     train_from_id_all run_old 22 = Ok ((22, res), dc') /\
     dict_get "Y:out" res = Some sd /\
     dict_get "image.data" sd = Some (VBlock [[43]; [44]])).
Proof.
  split.
  - destruct (train_from_id_all run_old 21) as [[[t res] dc']|] eqn:E;
      [|discriminate E].
    destruct (train_from_id_instrument_data run_old dc' 21 t res E)
      as [-> [_ Hdata]].
    destruct (Hdata "Y:out" file_old 1%nat ["image.data"] "image.data"
                [0; 1; 2] [1; 0; 2] 1 0) as [sd [Hsd [Hzero _]]];
      try reflexivity; [simpl; auto|simpl; auto|].
    exists res, dc', sd. split; [reflexivity|]. split; [exact Hsd|].
    apply Hzero. reflexivity.
  - destruct (train_from_id_all run_old 22) as [[[t res] dc']|] eqn:E;
      [|discriminate E].
    destruct (train_from_id_instrument_data run_old dc' 22 t res E)
      as [-> [_ Hdata]].
    destruct (Hdata "Y:out" file_old 2%nat ["image.data"] "image.data"
                [0; 1; 2] [1; 0; 2] 2 2) as [sd [Hsd [_ Hblock]]];
      try reflexivity; [simpl; auto|simpl; auto|].
    destruct Hblock as [ds [Hds [_ Hb]]]; [discriminate|].
    exists res, dc', sd. split; [reflexivity|]. split; [exact Hsd|].
    rewrite Hb by discriminate. inversion Hds; subst. reflexivity.
Defined.

(** ** train_from_index *)

Lemma py_index_in_range {A} (l : list A) (d : A) (j : Z) :
  0 <= j < Z.of_nat (List.length l) ->
  py_index l j = Ok (nth (Z.to_nat j) l d).
Proof.
  intros Hj. unfold py_index.
  assert (E1 : (j <? 0) = false) by (apply Z.ltb_ge; lia).
  assert (E2 : (Z.of_nat (List.length l) <=? j) = false)
    by (apply Z.leb_gt; lia).
  rewrite E1. cbv zeta. rewrite E1, E2. simpl.
  apply item_nth_error. apply nth_error_nth'. lia.
Qed.

Lemma py_index_negative {A} (l : list A) (j : Z) :
  - Z.of_nat (List.length l) <= j < 0 ->
  py_index l j = py_index l (j + Z.of_nat (List.length l)).
Proof.
  intros Hj. unfold py_index.
  assert (E1 : (j <? 0) = true) by (apply Z.ltb_lt; lia).
  assert (E2 : (j + Z.of_nat (List.length l) <? 0) = false)
    by (apply Z.ltb_ge; lia).
  cbv zeta. rewrite E1, E2. cbv iota. rewrite E2. reflexivity.
Qed.

Lemma py_index_out_of_range {A} (l : list A) (j : Z) :
  j < - Z.of_nat (List.length l) \/ Z.of_nat (List.length l) <= j ->
  py_index l j = Err IndexError.
Proof.
  intros Hj. unfold py_index. destruct (j <? 0) eqn:E1; cbv zeta.
  - apply Z.ltb_lt in E1.
    assert (E2 : (j + Z.of_nat (List.length l) <? 0) = true)
      by (apply Z.ltb_lt; lia).
    rewrite E2. reflexivity.
  - apply Z.ltb_ge in E1. rewrite (proj2 (Z.ltb_ge _ _) E1).
    assert (E3 : (Z.of_nat (List.length l) <=? j) = true)
      by (apply Z.leb_le; lia).
    rewrite E3. reflexivity.
Qed.

(** X18: [train_from_index] takes the train ID at a position of
    [train_ids] as Python indexes a list: a position from 0 up to the
    length selects that train, a negative position counts from the end,
    and any other position raises IndexError before any data is read. *)
Theorem train_from_index_bounds
    (re_class : string -> option (ascii -> bool))
    (dc : DataCollection) (i : Z) (devices : option selection) :
  let n := Z.of_nat (List.length (train_ids dc)) in
  (i < - n \/ n <= i ->
   train_from_index re_class dc i devices = Err IndexError) /\
  (0 <= i < n ->
   train_from_index re_class dc i devices =
   train_from_id re_class dc (nth (Z.to_nat i) (train_ids dc) 0) devices) /\
  (- n <= i < 0 ->
   train_from_index re_class dc i devices =
   train_from_index re_class dc (i + n) devices).
Proof.
  intros n. unfold train_from_index. split; [|split].
  - intros Hout. now rewrite py_index_out_of_range.
  - intros Hi. now rewrite (py_index_in_range _ 0 i Hi).
  - intros Hi. now rewrite (py_index_negative _ i Hi).
Qed.

(** Position -1 of [run_BA] is its last train, position 5 is out of
    range. *)
Lemma train_from_index_bounds_witness :
  train_from_index plain_class run_BA 5 None = Err IndexError /\
  train_from_index plain_class run_BA (-1) None =
  train_from_id plain_class run_BA 104 None.
Proof.
  destruct (train_from_index_bounds plain_class run_BA 5 None) as [Hout _].
  destruct (train_from_index_bounds plain_class run_BA (-1) None)
    as [_ [_ Hneg]].
  destruct (train_from_index_bounds plain_class run_BA 4 None)
    as [_ [Hin _]].
  split.
  - apply Hout. right. simpl. lia.
  - rewrite Hneg by (simpl; lia). apply Hin. simpl. lia.
Defined.

(** ** Unknown sources and keys *)

(** X19: a source that is neither a control nor an instrument source of
    the collection makes [_keys_for_source], [get_array] and [get_series]
    raise SourceNameError; a key that is not among the keys of a known
    source makes [get_array] and [get_series] raise PropertyNameError. *)
Theorem unknown_field_errors (dc : DataCollection) (source key : string)
    (extra_dims : option (list dim)) :
  (~ In source (all_sources dc) ->
   _keys_for_source dc source = Err SourceNameError /\
   get_array dc source key extra_dims = Err SourceNameError /\
   get_series dc source key = Err SourceNameError) /\
  (forall keys,
      known_keys dc source = Ok (Some (KSet keys)) -> ~ In key keys ->
      get_array dc source key extra_dims = Err PropertyNameError /\
      get_series dc source key = Err PropertyNameError).
Proof.
  split.
  - intros Hno.
    assert (Hs : str_in source (all_sources dc) = false).
    { destruct (str_in source (all_sources dc)) eqn:E; [|reflexivity].
      apply str_in_In in E. contradiction. }
    unfold get_array, get_series, _check_field, _keys_for_source.
    rewrite Hs. repeat split.
  - intros keys Hk Hno.
    assert (Hcf : _check_field dc source key = Err PropertyNameError).
    { unfold known_keys in Hk. unfold _check_field.
      destruct (_keys_for_source dc source) as [[kv dc1]|] eqn:E;
        [|discriminate]. cbn [bind fst] in Hk. inversion Hk; subst.
      assert (Hin : negb (str_in source (all_sources dc)) = false).
      { unfold _keys_for_source in E.
        destruct (negb (str_in source (all_sources dc)));
          [discriminate|reflexivity]. }
      rewrite Hin. cbn [bind keys_contains].
      destruct (str_in key keys) eqn:Ek; [|reflexivity].
      apply str_in_In in Ek. contradiction. }
    unfold get_array, get_series. rewrite Hcf. split; reflexivity.
Qed.

(** [Z] is no source of [run_BA], and [X] has no key [val.timestamp]. *)
Lemma unknown_field_errors_witness :
  get_array run_BA "Z" "val.value" None = Err SourceNameError /\
  get_series run_BA "X" "val.timestamp" = Err PropertyNameError.
Proof.
  split.
  - destruct (unknown_field_errors run_BA "Z" "val.value" None) as [Hs _].
    apply Hs. simpl. intros [H|[H|[]]]; discriminate H.
  - destruct (unknown_field_errors run_BA "X" "val.timestamp" None)
      as [_ Hk].
    apply (Hk ["val.value"]); [reflexivity|].
    simpl. intros [H|[]]. discriminate H.
Defined.

(** ** The iterator's dataset cache *)

Lemma scan_segments_found (path : string) (tid : Z) (segs : list Segment)
    (found : option (list Z * File * nat * Dataset)) :
  scan_segments path tid segs = Ok found ->
  match found with
  | Some (tids, f, ix, ds) =>
      In (tids, f) segs /\ position_of tid tids = Some ix /\
      dict_get path (f_data f) = Some ds
  | None => find_in_segments tid segs = None
  end.
Proof.
  induction segs as [|[t g] segs IH]; simpl; intros H.
  - inversion H; subst. reflexivity.
  - destruct (position_of tid t) as [ix|] eqn:E.
    + bind_ok H. inversion H; subst. split; [now left|].
      split; [assumption|]. unfold dict_item in E0.
      destruct (dict_get path (f_data g)); inversion E0; reflexivity.
    + specialize (IH H). destruct found as [[[[tids f] ix] ds]|]; [|exact IH].
      destruct IH as [H1 H2]. split; [now right|assumption].
Qed.

Lemma position_of_In (x : Z) (l : list Z) (i : nat) :
  position_of x l = Some i -> In x l.
Proof.
  intros H. destruct (position_of_Some _ _ _ H) as [Hn _].
  eapply nth_error_In; eauto.
Qed.

(** X20: [TrainIterator._find_data] with a cache whose entries are
    segments of their source with the dataset of their key.  The cache
    stays such.  A location it returns is a segment of the source holding
    the train at the returned position, with the key's dataset in that
    segment's file, and is what the cache remembers afterwards; when the
    train is in one segment only, it is the location
    [DataCollection._find_data] gives.  It returns nothing only when no
    segment of the source holds the train, and then leaves the cache as it
    was. *)
Theorem iter_find_data_sound (dc : DataCollection)
    (cache cache' : DatasetsCache) (source key : string) (tid : Z)
    (found : option (File * nat * Dataset)) :
  cache_coherent dc cache ->
  iter_find_data dc cache source key tid = Ok (found, cache') ->
  cache_coherent dc cache' /\
  match found with
  | Some (f, pos, ds) =>
      exists segs tids,
        dict_get source (_source_file_mapping dc) = Some segs /\
        In (tids, f) segs /\ nth_error tids pos = Some tid /\
        dict_get (data_path (if str_in source (control_sources dc)
                             then "CONTROL" else "INSTRUMENT") source key)
                 (f_data f) = Some ds /\
        dcache_get (source, key) cache' = Some (tids, f, ds) /\
        ((forall seg1 seg2, In seg1 segs -> In seg2 segs ->
                            In tid (fst seg1) -> In tid (fst seg2) ->
                            seg1 = seg2) ->
         _find_data dc source tid = Ok (Some (f, pos)))
  | None =>
      cache' = cache /\
      exists segs, dict_get source (_source_file_mapping dc) = Some segs /\
                   forall seg, In seg segs -> ~ In tid (fst seg)
  end.
Proof.
  intros Hok H.
  assert (Hagree : forall segs tids f pos,
            dict_get source (_source_file_mapping dc) = Some segs ->
            In (tids, f) segs -> position_of tid tids = Some pos ->
            (forall seg1 seg2, In seg1 segs -> In seg2 segs ->
                               In tid (fst seg1) -> In tid (fst seg2) ->
                               seg1 = seg2) ->
            _find_data dc source tid = Ok (Some (f, pos))).
  { intros segs tids f pos Hs Hin Hp Huniq.
    unfold _find_data, dict_item. rewrite Hs. cbn [bind]. f_equal.
    destruct (find_in_segments tid segs) as [[f' pos']|] eqn:Ef.
    - destruct (find_in_segments_Some _ _ _ _ Ef)
        as [pre [tids' [post [Hsegs [Hp' _]]]]].
      assert (Heq : (tids', f') = (tids, f)).
      { apply Huniq; simpl.
        - rewrite Hsegs. apply in_or_app. right. now left.
        - assumption.
        - eapply position_of_In; eauto.
        - eapply position_of_In; eauto. }
      inversion Heq; subst. congruence.
    - exfalso.
      apply (proj1 (find_in_segments_None tid segs) Ef (tids, f) Hin).
      simpl. eapply position_of_In; eauto. }
  unfold iter_find_data in H.
  assert (Hscan : forall segs r,
            dict_get source (_source_file_mapping dc) = Some segs ->
            scan_segments
              (data_path (if str_in source (control_sources dc)
                          then "CONTROL" else "INSTRUMENT") source key)
              tid segs = Ok r ->
            match r with
            | Some (trainids, f, ix, ds) =>
                Ok (Some (f, ix, ds),
                    dcache_set (source, key) (trainids, f, ds) cache)
            | None => Ok (None, cache)
            end = Ok (found, cache') ->
            cache_coherent dc cache' /\
            match found with
            | Some (f, pos, ds) =>
                exists segs tids,
                  dict_get source (_source_file_mapping dc) = Some segs /\
                  In (tids, f) segs /\ nth_error tids pos = Some tid /\
                  dict_get (data_path (if str_in source (control_sources dc)
                                       then "CONTROL" else "INSTRUMENT")
                                      source key) (f_data f) = Some ds /\
                  dcache_get (source, key) cache' = Some (tids, f, ds) /\
                  ((forall seg1 seg2, In seg1 segs -> In seg2 segs ->
                                      In tid (fst seg1) -> In tid (fst seg2) ->
                                      seg1 = seg2) ->
                   _find_data dc source tid = Ok (Some (f, pos)))
            | None =>
                cache' = cache /\
                exists segs,
                  dict_get source (_source_file_mapping dc) = Some segs /\
                  forall seg, In seg segs -> ~ In tid (fst seg)
            end).
  { intros segs r Hs Hr Hres. pose proof (scan_segments_found _ _ _ _ Hr) as Hf.
    destruct r as [[[[tids f] ix] ds]|]; inversion Hres; subst; clear Hres.
    - destruct Hf as [Hin [Hp Hds]]. split.
      + intros s k t g d Hg. rewrite dcache_get_set in Hg.
        destruct (pair_eqb (s, k) (source, key)) eqn:Ek; [|eauto].
        apply pair_eqb_eq in Ek. inversion Ek; subst.
        inversion Hg; subst. split; [eauto|assumption].
      + exists segs, tids. split; [assumption|]. split; [assumption|].
        split; [now destruct (position_of_Some _ _ _ Hp)|].
        split; [assumption|]. split.
        * rewrite dcache_get_set.
          assert (Hrefl : pair_eqb (source, key) (source, key) = true)
            by now apply pair_eqb_eq.
          now rewrite Hrefl.
        * eapply Hagree; eauto.
    - split; [assumption|]. split; [reflexivity|].
      exists segs. split; [assumption|]. now apply find_in_segments_None. }
  destruct (dcache_get (source, key) cache) as [[[ct file] ds]|] eqn:Hc.
  - destruct (position_of tid ct) as [ix|] eqn:Hp.
    + inversion H; subst; clear H. split; [assumption|].
      destruct (Hok _ _ _ _ _ Hc) as [[segs [Hs Hin]] Hds].
      exists segs, ct. split; [assumption|]. split; [assumption|].
      split; [now destruct (position_of_Some _ _ _ Hp)|].
      split; [assumption|]. split; [assumption|]. eapply Hagree; eauto.
    + bind_ok H. bind_ok H. unfold dict_item in E.
      destruct (dict_get source (_source_file_mapping dc)) as [segs|] eqn:Hs;
        [|discriminate]. inversion E; subst; clear E.
      eapply Hscan; eauto.
  - bind_ok H. bind_ok H. unfold dict_item in E.
    destruct (dict_get source (_source_file_mapping dc)) as [segs|] eqn:Hs;
      [|discriminate]. inversion E; subst; clear E.
    eapply Hscan; eauto.
Qed.

(** Looking up train 101 of [X] in [run_BA] with an empty cache, then train
    102 with the cache the first lookup left. *)
Lemma iter_find_data_sound_witness :
  exists cache1 cache2 ds,
    iter_find_data run_BA [] "X" "val.value" 101
      = Ok (Some (file_A, 1%nat, ds), cache1) /\
    iter_find_data run_BA cache1 "X" "val.value" 102
      = Ok (Some (file_A, 2%nat, ds), cache2) /\
    cache_coherent run_BA cache2 /\
    _find_data run_BA "X" 102 = Ok (Some (file_A, 2%nat)).
Proof.
  assert (H0 : cache_coherent run_BA [])
    by (intros s k t f d Hg; discriminate Hg).
  eexists. eexists. eexists. split; [reflexivity|].
  match goal with
  | |- iter_find_data _ ?c1 _ _ _ = _ /\ _ =>
      destruct (iter_find_data_sound run_BA [] c1 "X" "val.value" 101
                  _ H0 eq_refl) as [H1 _]
  end.
  split; [reflexivity|].
  match goal with
  | |- cache_coherent _ ?c2 /\ _ =>
      destruct (iter_find_data_sound run_BA _ c2 "X" "val.value" 102
                  _ H1 eq_refl) as [H2 _]
  end.
  split; [exact H2|reflexivity].
Defined.

(** ** files *)

Lemma file_in_In (f : File) (l : list File) : file_in f l = true <-> In f l.
Proof.
  unfold file_in. rewrite existsb_exists. split.
  - intros [g [Hg E]]. destruct (File_eq_dec f g); [now subst|discriminate].
  - intros H. exists f. split; [assumption|].
    destruct (File_eq_dec f f); congruence.
Qed.

Lemma file_add_In (f g : File) (l : list File) :
  In g (file_add f l) <-> g = f \/ In g l.
Proof.
  unfold file_add. destruct (file_in f l) eqn:E.
  - apply file_in_In in E. split; [auto|]. intros [->|H]; assumption.
  - rewrite in_app_iff. simpl. intuition auto.
Qed.

Lemma file_add_NoDup (f : File) (l : list File) :
  NoDup l -> NoDup (file_add f l).
Proof.
  intros H. unfold file_add. destruct (file_in f l) eqn:E; [assumption|].
  apply NoDup_app; [assumption|repeat constructor; auto|].
  intros x Hx [<-|[]]. apply file_in_In in Hx. congruence.
Qed.

Lemma files_of_segments (segs : list Segment) (res : list File) :
  let r := fold_left (fun res seg => file_add (snd seg) res) segs res in
  (NoDup res -> NoDup r) /\
  forall g, In g r <-> In g res \/ exists tids, In (tids, g) segs.
Proof.
  revert res. induction segs as [|[t f] segs IH]; intros res; simpl.
  - split; [auto|]. intros g. split; [auto|]. now intros [H|[t []]].
  - destruct (IH (file_add f res)) as [H1 H2]. split.
    + intros ND. apply H1. now apply file_add_NoDup.
    + intros g. rewrite H2, file_add_In. split.
      * intros [[->|H]|[t' H]]; eauto.
      * intros [H|[t' [H|H]]]; eauto. inversion H; subst. auto.
Qed.

Lemma files_of_mapping (sfm : list (string * list Segment)) (res : list File) :
  let r := fold_left
             (fun res e =>
                fold_left (fun res seg => file_add (snd seg) res) (snd e) res)
             sfm res in
  (NoDup res -> NoDup r) /\
  forall g, In g r <->
            In g res \/ exists s segs tids, In (s, segs) sfm /\ In (tids, g) segs.
Proof.
  revert res. induction sfm as [|[s segs] sfm IH]; intros res; simpl.
  - split; [auto|]. intros g. split; [auto|].
    now intros [H|[s [segs [t [[] _]]]]].
  - destruct (files_of_segments segs res) as [F1 F2]. simpl in F1, F2.
    destruct (IH (fold_left (fun res seg => file_add (snd seg) res) segs res))
      as [H1 H2]. split; [auto|].
    intros g. rewrite H2, F2. split.
    + intros [[H|[t H]]|[s' [segs' [t [Hin H]]]]]; eauto 8.
    + intros [H|[s' [segs' [t [[Hin|Hin] H]]]]]; eauto 8.
      inversion Hin; subst. eauto.
Qed.

(** X21: the [files] property lists, without repetition, exactly the files
    of the segments stored in the registry. *)
Theorem files_of_registry (dc : DataCollection) :
  NoDup (files dc) /\
  forall f, In f (files dc) <->
            exists source segs tids,
              In (source, segs) (_source_file_mapping dc) /\
              In (tids, f) segs.
Proof.
  unfold files.
  destruct (files_of_mapping (_source_file_mapping dc) []) as [H1 H2].
  simpl in H1, H2. split; [apply H1; constructor|].
  intros f. rewrite H2. split; [|auto]. now intros [[]|H].
Qed.

(** ** The segments of a run *)

Lemma dict_set_In {V} (k k0 : string) (v v0 : V) (d : list (string * V)) :
  In (k, v) (dict_set k0 v0 d) -> (k = k0 /\ v = v0) \/ In (k, v) d.
Proof.
  induction d as [|[k' v'] d IH]; simpl.
  - intros [H|[]]. inversion H; auto.
  - destruct (String.eqb k0 k'); simpl.
    + intros [H|H]; [inversion H|]; auto.
    + intros [H|H]; [auto|]. destruct (IH H); auto.
Qed.

Lemma register_segment_In (seg : Segment) (sfm : list (string * list Segment))
    (source s : string) (segs : list Segment) (x : Segment) :
  In (s, segs) (register_segment seg sfm source) -> In x segs ->
  x = seg \/ exists s' segs', In (s', segs') sfm /\ In x segs'.
Proof.
  unfold register_segment. intros H Hx.
  destruct (dict_get source sfm) as [old|] eqn:E.
  - destruct (dict_set_In _ _ _ _ _ H) as [[-> ->]|H']; [|eauto].
    apply in_app_or in Hx. destruct Hx as [Hx|[<-|[]]]; [|auto].
    right. exists source, old. split; [now apply dict_get_In|assumption].
  - destruct (dict_set_In _ _ _ _ _ H) as [[-> ->]|H']; [|eauto].
    destruct Hx as [<-|[]]. auto.
Qed.

Lemma register_segments_In (seg : Segment) (sources : list string)
    (sfm : list (string * list Segment)) (s : string) (segs : list Segment)
    (x : Segment) :
  In (s, segs) (fold_left (register_segment seg) sources sfm) -> In x segs ->
  x = seg \/ exists s' segs', In (s', segs') sfm /\ In x segs'.
Proof.
  revert sfm. induction sources as [|src l IH]; intros sfm; simpl.
  - eauto.
  - intros H Hx. destruct (IH _ H Hx) as [->|[s' [segs' [H1 H2]]]]; [auto|].
    eapply register_segment_In; eauto.
Qed.

Lemma add_files_segments (fs : list File) (dc dc' : DataCollection)
    (P : Segment -> Prop) :
  add_files dc fs = Ok dc' ->
  (forall s segs x, In (s, segs) (_source_file_mapping dc) -> In x segs -> P x) ->
  (forall f, In f fs -> P (file_train_ids f, f)) ->
  forall s segs x, In (s, segs) (_source_file_mapping dc') -> In x segs -> P x.
Proof.
  revert dc. induction fs as [|f fs IH]; intros dc H Hdc Hfs; simpl in H.
  - inversion H; subst. exact Hdc.
  - bind_ok H. apply (IH a H).
    + intros s segs x Hin Hx. unfold add_file in E. bind_ok E.
      inversion E; subst; clear E. simpl in Hin.
      destruct (register_segments_In _ _ _ _ _ _ Hin Hx)
        as [->|[s' [segs' [H1 H2]]]]; [apply Hfs; now left|eauto].
    + intros g Hg. apply Hfs. now right.
Qed.

(** X22: in a collection opened with [RunDirectory], every segment of
    every source pairs one of the given files with that file's train IDs
    (its [INDEX/trainId] entries other than 0); so [files] lists only files
    that were given. *)
Theorem run_directory_segments (fs : list File) (dc : DataCollection) :
  RunDirectory fs = Ok dc ->
  (forall source segs tids f,
     dict_get source (_source_file_mapping dc) = Some segs ->
     In (tids, f) segs ->
     In f fs /\ tids = file_train_ids f /\ ~ In 0 tids) /\
  (forall f, In f (files dc) -> In f fs).
Proof.
  intros H. unfold RunDirectory in H.
  assert (Hall : forall s segs x,
            In (s, segs) (_source_file_mapping dc) -> In x segs ->
            In (snd x) fs /\ fst x = file_train_ids (snd x) /\ ~ In 0 (fst x)).
  { apply (add_files_segments fs new_collection dc
             (fun x => In (snd x) fs /\ fst x = file_train_ids (snd x) /\
                       ~ In 0 (fst x)) H).
    - intros s segs x [].
    - intros f Hf. simpl. split; [assumption|]. split; [reflexivity|].
      unfold file_train_ids. rewrite filter_In. intros [_ Hz]. discriminate Hz. }
  split.
  - intros s segs tids f Hs Hin.
    exact (Hall s segs (tids, f) (dict_get_In _ _ _ Hs) Hin).
  - intros f Hf. apply (proj2 (files_of_registry dc)) in Hf.
    destruct Hf as [s [segs [tids [H1 H2]]]].
    exact (proj1 (Hall s segs (tids, f) H1 H2)).
Qed.

(** The run of [file_B] and [file_A]. *)
Lemma run_directory_segments_witness :
  exists dc, RunDirectory [file_B; file_A] = Ok dc /\
             forall f, In f (files dc) -> In f [file_B; file_A].
Proof.
  eexists. split; [reflexivity|].
  exact (proj2 (run_directory_segments [file_B; file_A] _ eq_refl)).
Defined.

(** ** The key restrictions [select] stores *)

Lemma dict_set_keys_In {V} (k x : string) (v : V) (d : list (string * V)) :
  In x (map fst (dict_set k v d)) <-> x = k \/ In x (map fst d).
Proof.
  induction d as [|[k' v'] d IH]; simpl.
  - intuition auto.
  - destruct (String.eqb k k') eqn:E; simpl.
    + apply String.eqb_eq in E. subst. intuition auto.
    + rewrite IH. intuition auto.
Qed.

Lemma dict_set_keys_NoDup {V} (k : string) (v : V) (d : list (string * V)) :
  NoDup (map fst d) -> NoDup (map fst (dict_set k v d)).
Proof.
  induction d as [|[k' v'] d IH]; simpl; intros H.
  - repeat constructor. auto.
  - inversion H; subst. destruct (String.eqb k k') eqn:E; simpl.
    + apply String.eqb_eq in E. subst. now constructor.
    + constructor; [|auto]. rewrite dict_set_keys_In.
      intros [->|Hx]; [|contradiction].
      rewrite String.eqb_refl in E. discriminate.
Qed.

Lemma dict_get_None_keys {V} (k : string) (d : list (string * V)) :
  ~ In k (map fst d) -> dict_get k d = None.
Proof.
  induction d as [|[k' v'] d IH]; simpl; [reflexivity|].
  intros H. destruct (String.eqb k k') eqn:E.
  - apply String.eqb_eq in E. subst. exfalso. auto.
  - auto.
Qed.

(** One round of the loop that fills [selected_keys]. *)
Lemma group_step_keys (acc : list (string * list string)) (s0 k0 s : string) :
  let acc' := match dict_get s0 acc with
              | None => dict_set s0 [k0] acc
              | Some ks => dict_set s0 (set_add k0 ks) acc
              end in
  NoDup (map fst acc) ->
  NoDup (map fst acc') /\
  (dict_get s acc' = None <-> dict_get s acc = None /\ s <> s0) /\
  (forall k, In k (keys_of acc' s) <-> (s = s0 /\ k = k0) \/ In k (keys_of acc s)) /\
  (NoDup (keys_of acc s) -> NoDup (keys_of acc' s)).
Proof.
  intros acc' ND.
  assert (Hk : NoDup (map fst acc')).
  { unfold acc'. destruct (dict_get s0 acc); now apply dict_set_keys_NoDup. }
  split; [exact Hk|].
  destruct (String.eqb s s0) eqn:E.
  - apply String.eqb_eq in E. subst s0.
    assert (Hs : dict_get s acc' = Some (set_add k0 (keys_of acc s))).
    { unfold acc', keys_of. destruct (dict_get s acc);
        now rewrite dict_get_set_same. }
    assert (Hko : keys_of acc' s = set_add k0 (keys_of acc s))
      by (unfold keys_of at 1; now rewrite Hs).
    rewrite Hko, Hs. split; [|split].
    + split; [discriminate|]. intros [_ H]. congruence.
    + intros k. rewrite set_add_In. intuition auto.
    + apply set_add_NoDup.
  - apply String.eqb_neq in E.
    assert (Hs : dict_get s acc' = dict_get s acc).
    { unfold acc'. destruct (dict_get s0 acc);
        now apply dict_get_set_other. }
    assert (Hko : keys_of acc' s = keys_of acc s)
      by (unfold keys_of; now rewrite Hs).
    rewrite Hko, Hs. split; [|split].
    + intuition auto.
    + intros k. intuition auto.
    + auto.
Qed.

Lemma group_keys_fold (sel : list (string * string))
    (acc : list (string * list string)) (s : string) :
  let r := fold_left
             (fun acc (sk : string * string) =>
                let '(source, key) := sk in
                match dict_get source acc with
                | None => dict_set source [key] acc
                | Some ks => dict_set source (set_add key ks) acc
                end) sel acc in
  NoDup (map fst acc) ->
  NoDup (map fst r) /\
  (dict_get s r = None <->
   dict_get s acc = None /\ forall k, ~ In (s, k) sel) /\
  (forall k, In k (keys_of r s) <-> In (s, k) sel \/ In k (keys_of acc s)) /\
  (NoDup (keys_of acc s) -> NoDup (keys_of r s)).
Proof.
  revert acc. induction sel as [|[s0 k0] sel IH]; intros acc; simpl; intros ND.
  - split; [assumption|]. split; [intuition auto|]. split; [|auto].
    intros k. intuition auto.
  - destruct (group_step_keys acc s0 k0 s ND) as [G1 [G2 [G3 G4]]].
    destruct (IH _ G1) as [I1 [I2 [I3 I4]]].
    split; [exact I1|]. split; [|split].
    + rewrite I2, G2. split.
      * intros [[Hn Hne] Hall]. split; [assumption|].
        intros k [H|H]; [inversion H; subst; auto|exact (Hall k H)].
      * intros [Hn Hall]. split; [split; [assumption|]|].
        -- intros ->. apply (Hall k0). now left.
        -- intros k H. apply (Hall k). now right.
    + intros k. rewrite I3, G3. split.
      * intros [H|[[-> ->]|H]]; auto.
      * intros [[H|H]|H]; auto. inversion H; subst. auto.
    + auto.
Qed.

Lemma select_keys_fold (K : list (string * keyval))
    (G : list (string * list string)) (acc : list (string * keyval))
    (s : string) :
  NoDup (map fst G) ->
  dict_get s
    (fold_left
       (fun acc (e : string * list string) =>
          let '(source, keys) := e in
          if str_in "*" keys then
            match dict_get source K with
            | Some kv => dict_set source kv acc
            | None => acc
            end
          else dict_set source (KSet keys) acc) G acc) =
  match dict_get s G with
  | Some keys =>
      if str_in "*" keys
      then match dict_get s K with Some kv => Some kv | None => dict_get s acc end
      else Some (KSet keys)
  | None => dict_get s acc
  end.
Proof.
  revert acc. induction G as [|[s0 keys0] G IH]; intros acc ND; simpl.
  - reflexivity.
  - inversion ND; subst. rewrite (IH _ H2).
    destruct (String.eqb s s0) eqn:E.
    + apply String.eqb_eq in E. subst s0.
      rewrite (dict_get_None_keys _ _ H1).
      destruct (str_in "*" keys0).
      * destruct (dict_get s K); [apply dict_get_set_same|reflexivity].
      * apply dict_get_set_same.
    + apply String.eqb_neq in E.
      assert (Ha : dict_get s
                (if str_in "*" keys0
                 then match dict_get s0 K with
                      | Some kv => dict_set s0 kv acc
                      | None => acc
                      end
                 else dict_set s0 (KSet keys0) acc) = dict_get s acc).
      { destruct (str_in "*" keys0);
          [destruct (dict_get s0 K)|];
          try reflexivity; now apply dict_get_set_other. }
      rewrite Ha. reflexivity.
Qed.

(** X23: the key restrictions of the collection [select] returns, in terms
    of the expanded selection (the pairs the selector stands for) and of
    the receiver as the expansion left it.  A source selected with the key
    [*] inherits the receiver's restriction, or has none when the receiver
    has none; a source selected with other keys only is restricted to
    exactly those keys; a source that was not selected has no
    restriction. *)
Theorem select_key_restrictions (re_class : string -> option (ascii -> bool))
    (dc res dc' : DataCollection) (seln : selection) (key_glob : string) :
  select re_class dc seln key_glob = Ok (res, dc') ->
  exists sel,
    match seln with
    | SelStr source_glob => _select_glob re_class dc source_glob key_glob
    | other => _expand_selection re_class dc other
    end = Ok (sel, dc') /\
    forall s,
      (In (s, "*") sel ->
       dict_get s (_source_keys res) = dict_get s (_source_keys dc')) /\
      (~ In (s, "*") sel -> (exists k, In (s, k) sel) ->
       exists ks, dict_get s (_source_keys res) = Some (KSet ks) /\
                  NoDup ks /\ forall k, In k ks <-> In (s, k) sel) /\
      ((forall k, ~ In (s, k) sel) -> dict_get s (_source_keys res) = None).
Proof.
  intros H. unfold select in H. bind_ok H. destruct a as [sel dc1].
  cbn [_expand_selection bind] in H. bind_ok H.
  inversion H; subst; clear H. exists sel. split; [reflexivity|].
  intros s. cbn [_source_keys]. unfold select_keys.
  destruct (group_keys_fold sel [] s (NoDup_nil _)) as [G1 [G2 [G3 G4]]].
  fold (group_keys sel) in G1, G2, G3, G4.
  rewrite (select_keys_fold _ _ [] s G1). unfold keys_of in G3, G4.
  simpl in G2, G3, G4.
  destruct (dict_get s (group_keys sel)) as [ks|] eqn:Eg.
  - assert (Hks : forall k, In k ks <-> In (s, k) sel).
    { intros k. rewrite G3. intuition auto. }
    destruct (str_in "*" ks) eqn:Estar.
    + apply str_in_In, Hks in Estar. split; [|split].
      * intros _. now destruct (dict_get s (_source_keys dc')).
      * intros Hn. contradiction.
      * intros Hn. exfalso. exact (Hn _ Estar).
    + split; [|split].
      * intros Hin. apply Hks, str_in_In in Hin. congruence.
      * intros _ _. exists ks. split; [reflexivity|].
        split; [apply G4; constructor|exact Hks].
      * intros Hn. exfalso.
        assert (Hnone : Some ks = None)
          by (apply (proj2 G2); split; [reflexivity|exact Hn]).
        discriminate Hnone.
  - destruct (proj1 G2 eq_refl) as [_ Hn]. split; [|split].
    + intros Hin. exfalso. exact (Hn _ Hin).
    + intros _ [k Hk]. exfalso. exact (Hn _ Hk).
    + reflexivity.
Qed.

(** Selecting every key of [X] from a collection already restricted to
    one key of [X]. *)
Lemma select_key_restrictions_witness :
  exists res,
    select plain_class run_gap_keys (SelSet [("X", "*")]) "*"
      = Ok (res, run_gap_keys) /\
    dict_get "X" (_source_keys res) = Some (KSet ["val.value"]).
Proof.
  eexists. split; [reflexivity|].
  destruct (select_key_restrictions plain_class run_gap_keys _ _
              (SelSet [("X", "*")]) "*" eq_refl) as [sel [Hsel Hs]].
  cbn [_expand_selection] in Hsel. inversion Hsel; subst sel.
  rewrite (proj1 (Hs "X") (or_introl eq_refl)). reflexivity.
Defined.

(** * Results gathered over several segments *)

(** ** Concatenation in train order *)









(** ** get_array when there is nothing to concatenate *)

(** Case analysis on a computation that is assumed to end in a given
    error. *)
Ltac split_error H :=
  first
    [ discriminate H
    | match type of H with
      | bind ?c _ = _ =>
          let E := fresh "E" in
          destruct c eqn:E; cbn [bind] in H;
          [ split_error H | injection H as ->; split_error E ]
      | (if ?b then _ else _) = _ => destruct b; split_error H
      | match ?x with _ => _ end = _ => destruct x; split_error H
      end
    | idtac ].

Lemma np_repeat_not_unable (a repeats : list Z) :
  np_repeat a repeats <> Err Exception_unable_to_get_data.
Proof.
  revert repeats. induction a as [|x a IH]; intros [|c r] H; simpl in H;
    try discriminate H.
  destruct (c <? 0); [discriminate H|].
  destruct (np_repeat a r) eqn:E; cbn [bind] in H; [discriminate H|].
  inversion H; subst. exact (IH _ E).
Qed.

Lemma get_index_not_unable (dc : DataCollection) (file : File)
    (source group : string) :
  _get_index dc file source group <> Err Exception_unable_to_get_data.
Proof.
  unfold _get_index, _read_index, dict_item, option_item, broadcast2.
  intros H. split_error H.
Qed.

Lemma push_array_not_unable (st : array_state) (dc : DataCollection)
    (d : Dataset) (tids : list Z) :
  push_array st dc d tids <> Err Exception_unable_to_get_data.
Proof.
  unfold push_array, make_array. intros H. split_error H.
Qed.

Lemma control_segment_not_unable (source key : string) (st : array_state)
    (seg : Segment) :
  control_segment source key st seg <> Err Exception_unable_to_get_data.
Proof.
  unfold control_segment, read_rows, dict_item. destruct seg as [tids f].
  intros H. destruct (dict_get _ (f_data f)); cbn [bind] in H;
    [|discriminate H].
  exact (push_array_not_unable _ _ _ _ H).
Qed.

Lemma instrument_segment_not_unable (source key : string) (st : array_state)
    (seg : Segment) :
  instrument_segment source key st seg <> Err Exception_unable_to_get_data.
Proof.
  unfold instrument_segment. destruct seg as [tids f]. intros H.
  destruct (_get_index (st_dc st) f source (partition_head "." key))
    as [[[firsts counts] dc']|e] eqn:E; cbn [bind] in H.
  - destruct (existsb (fun c => c >? 1) counts); [discriminate H|].
    destruct (_expand_trainids firsts counts tids) as [labels|e] eqn:El;
      cbn [bind] in H.
    + unfold read_rows, dict_item in H.
      destruct (dict_get _ (f_data f)); cbn [bind] in H; [|discriminate H].
      exact (push_array_not_unable _ _ _ _ H).
    + inversion H; subst. exact (np_repeat_not_unable _ _ El).
  - inversion H; subst. exact (get_index_not_unable _ _ _ _ E).
Qed.

Lemma loop_segments_not_unable
    (body : array_state -> Segment -> result array_state)
    (st : array_state) (segs : list Segment) :
  (forall st seg, body st seg <> Err Exception_unable_to_get_data) ->
  loop_segments body st segs <> Err Exception_unable_to_get_data.
Proof.
  intros Hb. revert st. induction segs as [|seg r IH]; intros st H;
    simpl in H; [discriminate H|].
  destruct (body st seg) as [st'|e] eqn:E; cbn [bind] in H.
  - exact (IH _ H).
  - inversion H; subst. exact (Hb _ _ E).
Qed.

Lemma push_array_grows (st st' : array_state) (dc : DataCollection)
    (d : Dataset) (tids : list Z) :
  push_array st dc d tids = Ok st' ->
  List.length (st_arrays st') = S (List.length (st_arrays st)).
Proof.
  unfold push_array. intros H. bind_ok H. inversion H; subst. simpl.
  rewrite length_app. simpl. lia.
Qed.

Lemma loop_segments_grows
    (body : array_state -> Segment -> result array_state)
    (st st' : array_state) (segs : list Segment) :
  (forall st seg st', body st seg = Ok st' ->
     List.length (st_arrays st') = S (List.length (st_arrays st))) ->
  loop_segments body st segs = Ok st' ->
  List.length (st_arrays st') =
  (List.length (st_arrays st) + List.length segs)%nat.
Proof.
  intros Hb. revert st. induction segs as [|seg r IH]; intros st H;
    simpl in H.
  - inversion H; subst. simpl. lia.
  - bind_ok H. rewrite (IH _ H), (Hb _ _ _ E). simpl. lia.
Qed.

Lemma control_segment_grows (source key : string) (st st' : array_state)
    (seg : Segment) :
  control_segment source key st seg = Ok st' ->
  List.length (st_arrays st') = S (List.length (st_arrays st)).
Proof.
  unfold control_segment. destruct seg as [tids f]. intros H. bind_ok H.
  eapply push_array_grows; eauto.
Qed.

Lemma instrument_segment_grows (source key : string) (st st' : array_state)
    (seg : Segment) :
  instrument_segment source key st seg = Ok st' ->
  List.length (st_arrays st') = S (List.length (st_arrays st)).
Proof.
  unfold instrument_segment. destruct seg as [tids f]. intros H. bind_ok H.
  destruct a as [[firsts counts] dc'].
  destruct (existsb (fun c => c >? 1) counts); [discriminate H|].
  bind_ok H. bind_ok H. eapply push_array_grows; eauto.
Qed.

Lemma check_field_not_unable (dc : DataCollection) (source key : string) :
  _check_field dc source key <> Err Exception_unable_to_get_data.
Proof.
  unfold _check_field, _keys_for_source, keys_contains, file_keys, dict_item.
  intros H. split_error H.
Qed.

(** The loop of [get_array] over the segments of a source: what it needs
    to end, and what it never raises. *)
Lemma collect_arrays_segments (dc0 : DataCollection) (source key : string)
    (extra_dims : option (list dim)) :
  collect_arrays dc0 source key extra_dims
    <> Err Exception_unable_to_get_data /\
  forall st, collect_arrays dc0 source key extra_dims = Ok st ->
             exists segs,
               dict_get source (_source_file_mapping dc0) = Some segs /\
               List.length (st_arrays st) = List.length segs.
Proof.
  unfold collect_arrays, dict_item. split.
  - intros H.
    destruct (str_in source (control_sources dc0)).
    + destruct (dict_get source (_source_file_mapping dc0)); cbn [bind] in H;
        [|discriminate H].
      revert H. apply loop_segments_not_unable.
      apply control_segment_not_unable.
    + destruct (str_in source (instrument_sources dc0)); [|discriminate H].
      destruct (dict_get source (_source_file_mapping dc0)); cbn [bind] in H;
        [|discriminate H].
      revert H. apply loop_segments_not_unable.
      apply instrument_segment_not_unable.
  - intros st H.
    destruct (str_in source (control_sources dc0)).
    + destruct (dict_get source (_source_file_mapping dc0)) as [segs|];
        cbn [bind] in H; [|discriminate H].
      exists segs. split; [reflexivity|].
      apply (loop_segments_grows (control_segment source key)) in H;
        [exact H|].
      intros st0 seg st1. apply control_segment_grows.
    + destruct (str_in source (instrument_sources dc0)); [|discriminate H].
      destruct (dict_get source (_source_file_mapping dc0)) as [segs|];
        cbn [bind] in H; [|discriminate H].
      exists segs. split; [reflexivity|].
      apply (loop_segments_grows (instrument_segment source key)) in H;
        [exact H|].
      intros st0 seg st1. apply instrument_segment_grows.
Qed.

Lemma with_keys_first_label_not_unable (arrays : list DataArray) :
  with_keys first_label arrays <> Err Exception_unable_to_get_data.
Proof.
  induction arrays as [|a r IH]; simpl; intros H; [discriminate H|].
  unfold first_label at 1 in H.
  destruct (da_labels a); cbn [bind] in H; [discriminate H|].
  destruct (with_keys first_label r) eqn:E; cbn [bind] in H;
    [discriminate H|].
  inversion H; subst. now apply IH.
Qed.

Lemma get_array_unable_only_without_segments (dc : DataCollection)
    (source key : string) (extra_dims : option (list dim)) :
  get_array dc source key extra_dims = Err Exception_unable_to_get_data ->
  dict_get source (_source_file_mapping dc) = Some [].
Proof.
  unfold get_array. intros H.
  destruct (_check_field dc source key) as [dc0|e] eqn:Hcf; cbn [bind] in H;
    [|inversion H; subst; now apply check_field_not_unable in Hcf].
  destruct (collect_arrays_segments dc0 source key extra_dims) as [Hne Hlen].
  destruct (collect_arrays dc0 source key extra_dims) as [st|e] eqn:Hc;
    cbn [bind] in H; [|inversion H; subst; contradiction].
  destruct (Hlen st eq_refl) as [segs [Hsegs Hl]].
  destruct (check_field_view _ _ _ _ Hcf) as [Hv _].
  rewrite (sv_mapping _ _ Hv) in Hsegs.
  destruct (filter (fun a => (0 <? da_size a)%nat) (st_arrays st))
    as [|d l].
  - destruct (st_arrays st); [|discriminate H].
    destruct segs; [assumption|discriminate Hl].
  - destruct (with_keys first_label (d :: l)) as [keyed|e] eqn:E;
      cbn [bind] in H;
      [|inversion H; subst; now apply with_keys_first_label_not_unable in E].
    unfold xarray_concat in H. split_error H.
Qed.

(** The operations keep every registry entry non-empty. *)
Lemma add_file_no_empty (dc dc' : DataCollection) (f : File) :
  add_file dc f = Ok dc' -> no_empty_entry dc -> no_empty_entry dc'.
Proof.
  intros H Hdc s Hs.
  destruct (add_file_registry _ _ _ H) as [st [_ [_ [_ Hreg]]]].
  rewrite Hreg in Hs. destruct (str_in s (as_sources st)).
  - inversion Hs as [Hnil]. symmetry in Hnil.
    exact (app_cons_not_nil _ _ _ Hnil).
  - exact (Hdc s Hs).
Qed.

Lemma add_files_no_empty (fs : list File) (dc dc' : DataCollection) :
  add_files dc fs = Ok dc' -> no_empty_entry dc -> no_empty_entry dc'.
Proof.
  revert dc. induction fs as [|f fs IH]; intros dc H Hdc; simpl in H.
  - inversion H; subst. exact Hdc.
  - bind_ok H. apply (IH a H). eapply add_file_no_empty; eauto.
Qed.

Lemma restrict_mapping_get (sfm m : list (string * list Segment))
    (l : list string) (s : string) (segs : list Segment) :
  restrict_mapping sfm l = Ok m -> dict_get s m = Some segs ->
  dict_get s sfm = Some segs.
Proof.
  revert m. induction l as [|x l IH]; intros m H Hs; simpl in H.
  - inversion H; subst. discriminate Hs.
  - bind_ok H. bind_ok H. inversion H; subst; clear H. simpl in Hs.
    destruct (String.eqb s x) eqn:Ex.
    + apply String.eqb_eq in Ex. subst x. inversion Hs; subst.
      unfold dict_item in E. destruct (dict_get s sfm); now inversion E.
    + eapply IH; eauto.
Qed.

Lemma select_registry (re_class : string -> option (ascii -> bool))
    (dc res dc' : DataCollection) (sel : selection) (key_glob : string) :
  select re_class dc sel key_glob = Ok (res, dc') ->
  receiver_kept dc dc' /\
  forall s segs, dict_get s (_source_file_mapping res) = Some segs ->
                 dict_get s (_source_file_mapping dc) = Some segs.
Proof.
  unfold select. intros H. bind_ok H. destruct a as [s1 dc1].
  cbn [_expand_selection bind] in H. bind_ok H.
  inversion H; subst; clear H.
  assert (Hk : receiver_kept dc dc').
  { destruct sel as [g|pairs|d|globs|].
    - eapply select_glob_receiver; eauto.
    - eapply expand_selection_receiver; eauto.
    - eapply expand_selection_receiver; eauto.
    - eapply expand_selection_receiver; eauto.
    - eapply expand_selection_receiver; eauto. }
  split; [exact Hk|]. intros s segs Hs. cbn [_source_file_mapping] in Hs.
  rewrite <- (sv_mapping _ _ (rk_view _ _ Hk)).
  eapply restrict_mapping_get; eauto.
Qed.

Lemma select_trains_no_empty (dc res : DataCollection) (tr : train_range) :
  select_trains dc tr = Ok res -> no_empty_entry res.
Proof.
  intros H s Hs. destruct (select_trains_result _ _ _ H) as [Hm _].
  apply dict_get_In in Hs. rewrite Hm in Hs.
  apply retain_segments_In in Hs. destruct Hs as [all [_ [Hne _]]].
  now apply Hne.
Qed.

(** C7: for a (source, key) pair that passes the field check, if every
    segment of the source gives an array and all these arrays are empty,
    [get_array] returns the array of the first segment in the registry,
    with its dimension names and trailing shape.  If the registry holds an
    empty list of segments for the source, [get_array] returns nothing: it
    raises the "Unable to get data" exception when the field check passes.
    That exception is raised in no other state, and no operation produces
    such a state: [RunDirectory], [add_file], [select] and [select_trains]
    keep every registry entry non-empty. *)
Theorem get_array_nothing_to_concatenate
    (re_class : string -> option (ascii -> bool))
    (dc : DataCollection) (source key : string)
    (extra_dims : option (list dim)) :
  (forall dc0 ed seg rest a arrays,
      _check_field dc source key = Ok dc0 ->
      dict_get source (_source_file_mapping dc) = Some (seg :: rest) ->
      dims_given extra_dims ed ->
      segment_array dc source key (DimTrainId :: ed) seg = Ok a ->
      Forall2 (fun seg b => segment_array dc source key (DimTrainId :: ed) seg
                            = Ok b) rest arrays ->
      (forall b, In b (a :: arrays) -> da_size b = 0%nat) ->
      exists dc1, get_array dc source key extra_dims = Ok (a, dc1) /\
                  same_view dc dc1) /\
  (dict_get source (_source_file_mapping dc) = Some [] ->
   (forall r, get_array dc source key extra_dims <> Ok r) /\
   (forall dc0, _check_field dc source key = Ok dc0 ->
                get_array dc source key extra_dims
                  = Err Exception_unable_to_get_data)) /\
  (get_array dc source key extra_dims = Err Exception_unable_to_get_data ->
   dict_get source (_source_file_mapping dc) = Some []) /\
  (forall fs d, RunDirectory fs = Ok d -> no_empty_entry d) /\
  (forall d f d', add_file d f = Ok d' -> no_empty_entry d ->
                  no_empty_entry d') /\
  (forall d sel key_glob res d',
      select re_class d sel key_glob = Ok (res, d') -> no_empty_entry d ->
      no_empty_entry res /\ no_empty_entry d') /\
  (forall d tr res, select_trains d tr = Ok res -> no_empty_entry res).
Proof.
  split; [|split; [|split; [|split; [|split; [|split]]]]].
  - intros dc0 ed seg rest a arrays Hcf Hsegs Hd Ha HF Hempty.
    destruct (check_field_view _ _ _ _ Hcf) as [Hv [_ Hall]].
    destruct (segment_loop dc source key ed (seg :: rest) (a :: arrays)
                {| st_extra_dims := extra_dims; st_dc := dc0;
                   st_arrays := [] |} Hv Hd (Forall2_cons _ _ Ha HF))
      as [st [Hloop [Hst Hv1]]].
    cbn [st_arrays app] in Hst.
    exists (st_dc st). split; [|assumption].
    unfold get_array. rewrite Hcf. cbn [bind].
    rewrite (collect_arrays_body dc dc0 source key extra_dims _ Hv Hall Hsegs).
    rewrite Hloop. cbn [bind]. rewrite Hst.
    rewrite filter_none; [reflexivity|].
    intros b Hb. rewrite (Hempty b Hb). reflexivity.
  - intros Hnone.
    assert (Hexc : forall dc0, _check_field dc source key = Ok dc0 ->
                     get_array dc source key extra_dims
                       = Err Exception_unable_to_get_data).
    { intros dc0 Hcf. unfold get_array. rewrite Hcf. cbn [bind].
      destruct (check_field_view _ _ _ _ Hcf) as [Hv [_ Hall]].
      unfold collect_arrays, dict_item.
      rewrite (sv_mapping _ _ Hv), (sv_control _ _ Hv),
              (sv_instrument _ _ Hv), Hnone.
      destruct (all_sources_split _ _ Hall) as [Hc|Hi].
      - rewrite Hc. reflexivity.
      - rewrite Hi. destruct (str_in source (control_sources dc)); reflexivity. }
    split; [|exact Hexc].
    intros r Hr. destruct (_check_field dc source key) as [dc0|e] eqn:Hcf.
    + rewrite (Hexc dc0 eq_refl) in Hr. discriminate Hr.
    + unfold get_array in Hr. rewrite Hcf in Hr. discriminate Hr.
  - apply get_array_unable_only_without_segments.
  - intros fs d H. unfold RunDirectory in H.
    apply (add_files_no_empty fs new_collection d H).
    intros s. discriminate.
  - intros d f d'. apply add_file_no_empty.
  - intros d sel key_glob res d' H Hd.
    destruct (select_registry _ _ _ _ _ _ H) as [Hk Hres]. split.
    + intros s Hs. exact (Hd s (Hres s [] Hs)).
    + intros s. rewrite (sv_mapping _ _ (rk_view _ _ Hk)). apply Hd.
  - intros d tr res. apply select_trains_no_empty.
Qed.

(** The instrument source [Y:out] of [run_empty] has no record in either
    file: [get_array] returns the empty array of [file_late], the first
    file in the registry, with its trailing shape.  The source [X] of
    [run_no_segments] has no segment. *)
Lemma get_array_nothing_to_concatenate_witness :
  RunDirectory [file_late; file_early] = Ok run_empty /\
  (exists a dc',
     get_array run_empty "Y:out" "image.data" None = Ok (a, dc') /\
     segment_array run_empty "Y:out" "image.data" [DimTrainId; DimAnon 0]
       ([3], file_late) = Ok a /\
     da_labels a = [] /\ da_tail a = [3%nat] /\
     da_dims a = [DimTrainId; DimAnon 0]) /\
  get_array run_no_segments "X" "val.value" None
    = Err Exception_unable_to_get_data /\
  no_empty_entry run_empty.
Proof.
  split; [reflexivity|]. split; [|split].
  - destruct (_check_field run_empty "Y:out" "image.data") as [dc0|] eqn:Hcf;
      [|discriminate Hcf].
    destruct (segment_array run_empty "Y:out" "image.data"
                [DimTrainId; DimAnon 0] ([3], file_late))
      as [a|] eqn:Ha; [|discriminate Ha].
    destruct (segment_array run_empty "Y:out" "image.data"
                [DimTrainId; DimAnon 0] ([1; 2], file_early))
      as [b|] eqn:Hb; [|discriminate Hb].
    destruct (proj1 (get_array_nothing_to_concatenate
                       plain_class run_empty "Y:out" "image.data" None)
                dc0 [DimAnon 0] ([3], file_late)
                [([1; 2], file_early)] a [b] Hcf eq_refl)
      as [dc1 [Hget _]].
    + right. split; reflexivity.
    + exact Ha.
    + repeat constructor. exact Hb.
    + inversion Ha; subst. inversion Hb; subst.
      intros x [<-|[<-|[]]]; reflexivity.
    + exists a, dc1. split; [exact Hget|]. split; [reflexivity|].
      inversion Ha; subst. repeat split.
  - destruct (get_array_nothing_to_concatenate
                plain_class run_no_segments "X" "val.value" None)
      as [_ [Hnone _]].
    destruct (Hnone eq_refl) as [_ Hexc]. exact (Hexc _ eq_refl).
  - destruct (get_array_nothing_to_concatenate
                plain_class run_empty "Y:out" "image.data" None)
      as [_ [_ [_ [Hrun _]]]].
    exact (Hrun [file_late; file_early] run_empty eq_refl).
Defined.

(** * The receiver of select *)















(** * Bracket expressions in source globs *)

(** A range and a negated set in the source glob, on the run whose one
    source is [X]. *)
Lemma select_glob_bracket_expressions :
  (exists dc', _select_glob plain_class run_gap "[W-Y]" "*"
               = Ok ([("X", "*")], dc')) /\
  _select_glob plain_class run_gap "[A-W]" "*" = Err ValueError_no_matches /\
  _select_glob plain_class run_gap "[!X]" "*" = Err ValueError_no_matches /\
  (exists dc', _select_glob plain_class run_gap "[!W-]" "*"
               = Ok ([("X", "*")], dc')) /\
  _select_glob plain_class run_gap "[Z-A]" "*" = Err ReError.
Proof.
  split; [eexists; reflexivity|]. split; [reflexivity|].
  split; [reflexivity|]. split; [eexists; reflexivity|reflexivity].
Qed.
